(** * Supply-chain network optimisation: a shallow embedding

    The development follows the two computational stages of the repository:

    - [Transform]: [src/01_data_transformation.py], the construction of the
      dense route-cost table ([create_transportation_costs]);
    - [Optimize]: [src/02_optimization_model.py], the feasible-range
      estimator, the MILP model builder, the solution extractor and [main].

    Numbers.  The Python code computes with IEEE doubles.  Here a finite
    double is an exact rational ([Q]); rounding of the arithmetic is not
    modelled.  Where the code depends on missing values (pandas [NaN]) the
    rationals are extended with [NaN] and the two infinities ([fnum]). *)

From Stdlib Require Import QArith Qabs Qround ZArith List String Bool Lia Lqa
  Permutation Sorted.
From Stdlib Require Import Ascii.
Import ListNotations.

Local Open Scope Q_scope.

(** ** Shared list utilities *)

(** Order-preserving removal of duplicates, keeping the first occurrence:
    [Series.unique()] and the key order of a Python [dict] filled in a loop. *)
Fixpoint unique {A} (eqb : A -> A -> bool) (l : list A) : list A :=
  match l with
  | [] => []
  | x :: r => x :: filter (fun y => negb (eqb x y)) (unique eqb r)
  end.

(** Sum of a list of rationals, accumulated from the left as [sum()] does. *)
Definition Qsum (l : list Q) : Q := fold_left Qplus l 0.

(** ** Stage 1: data transformation *)

Module Transform.

(** Floating-point values with the IEEE special values.  Zero carries no
    sign in this model: a division of a non-zero number by zero yields the
    infinity of the sign of the numerator. *)
Inductive fnum : Type :=
| Fin (q : Q)
| PInf
| NInf
| NaN.

Definition isnan (x : fnum) : bool :=
  match x with NaN => true | _ => false end.

Definition notna (x : fnum) : bool := negb (isnan x).

Definition fneg (x : fnum) : fnum :=
  match x with
  | Fin q => Fin (- q)
  | PInf => NInf
  | NInf => PInf
  | NaN => NaN
  end.

(** An infinity scaled by the sign of a rational. *)
Definition scale_inf (inf : fnum) (q : Q) : fnum :=
  match q ?= 0 with
  | Gt => inf
  | Lt => fneg inf
  | Eq => NaN
  end.

Definition fadd (x y : fnum) : fnum :=
  match x, y with
  | NaN, _ | _, NaN => NaN
  | Fin a, Fin b => Fin (a + b)
  | PInf, NInf | NInf, PInf => NaN
  | PInf, _ | _, PInf => PInf
  | NInf, _ | _, NInf => NInf
  end.

Definition fmul (x y : fnum) : fnum :=
  match x, y with
  | NaN, _ | _, NaN => NaN
  | Fin a, Fin b => Fin (a * b)
  | PInf, Fin b | Fin b, PInf => scale_inf PInf b
  | NInf, Fin b | Fin b, NInf => scale_inf NInf b
  | PInf, PInf | NInf, NInf => PInf
  | PInf, NInf | NInf, PInf => NInf
  end.

Definition fdiv (x y : fnum) : fnum :=
  match x, y with
  | NaN, _ | _, NaN => NaN
  | Fin a, Fin b =>
      if Qeq_bool b 0 then scale_inf PInf a else Fin (a / b)
  | Fin _, (PInf | NInf) => Fin 0
  | PInf, Fin b => if Qeq_bool b 0 then PInf else scale_inf PInf b
  | NInf, Fin b => if Qeq_bool b 0 then NInf else scale_inf NInf b
  | (PInf | NInf), (PInf | NInf) => NaN
  end.

(** Equality of values: rationals up to [Qeq]. *)
Definition feqb (x y : fnum) : bool :=
  match x, y with
  | Fin a, Fin b => Qeq_bool a b
  | PInf, PInf | NInf, NInf | NaN, NaN => true
  | _, _ => false
  end.

Definition fsum (l : list fnum) : fnum := fold_left fadd l (Fin 0).

(** [Series.mean()] and the group-by aggregation ['mean']: missing values are
    skipped, and the mean of no value at all is missing. *)
Definition nanmean (l : list fnum) : fnum :=
  match filter notna l with
  | [] => NaN
  | xs => fdiv (fsum xs) (Fin (inject_Z (Z.of_nat (List.length xs))))
  end.

(** [Series.fillna(other)], row by row. *)
Definition fillna (x other : fnum) : fnum :=
  if isnan x then other else x.

(** A row of the cleaned shipment table (the columns the stage reads). *)
Record shipment : Type := {
  Origin_Warehouse : string;
  Destination : string;
  Cost : fnum;
  Weight_kg : fnum;
  Distance_miles : fnum
}.

(** A row of [merged_data]: one per (warehouse, destination) combination,
    carrying the group means of [cost_data] where the pair was observed and
    missing values where the left merge found no group. *)
Record merged_row : Type := {
  m_Origin_Warehouse : string;
  m_Destination : string;
  m_Cost : fnum;
  m_Weight_kg : fnum;
  m_Distance_miles : fnum;
  m_cost_per_kg : fnum
}.

(** A row of the returned route table. *)
Record route_row : Type := {
  from_warehouse : string;
  to_customer : string;
  cost_per_kg : fnum;
  r_Distance_miles : fnum
}.

Section CreateTransportationCosts.

Variable shipments_df : list shipment.

(** The rows of one group of
    [shipments_df.groupby(['Origin_Warehouse', 'Destination'])]. *)
Definition group (w c : string) : list shipment :=
  filter (fun s => String.eqb (Origin_Warehouse s) w
                   && String.eqb (Destination s) c) shipments_df.

Definition all_combinations : list (string * string) :=
  flat_map
    (fun w => map (fun c => (w, c))
                (unique String.eqb (map Destination shipments_df)))
    (unique String.eqb (map Origin_Warehouse shipments_df)).

(** [combinations_df.merge(cost_data, how='left')] with the column
    [cost_per_kg = Cost / Weight_kg] of [cost_data]. *)
Definition merge_row (wc : string * string) : merged_row :=
  let (w, c) := wc in
  match group w c with
  | [] =>
      {| m_Origin_Warehouse := w; m_Destination := c;
         m_Cost := NaN; m_Weight_kg := NaN; m_Distance_miles := NaN;
         m_cost_per_kg := NaN |}
  | g =>
      let cost := nanmean (map Cost g) in
      let weight := nanmean (map Weight_kg g) in
      {| m_Origin_Warehouse := w; m_Destination := c;
         m_Cost := cost; m_Weight_kg := weight;
         m_Distance_miles := nanmean (map Distance_miles g);
         m_cost_per_kg := fdiv cost weight |}
  end.

Definition merged_data : list merged_row := map merge_row all_combinations.

(** [(merged_data['Cost'] / merged_data['Distance_miles']).mean()] *)
Definition mile_cost (r : merged_row) : fnum :=
  fdiv (m_Cost r) (m_Distance_miles r).

Definition avg_mile_cost : fnum := nanmean (map mile_cost merged_data).

Definition estimated_cost (r : merged_row) : fnum :=
  fmul (m_Distance_miles r) avg_mile_cost.

Definition estimated_cost_per_kg (r : merged_row) : fnum :=
  fdiv (estimated_cost r) (nanmean (map m_Weight_kg merged_data)).

Definition final_cost_per_kg (r : merged_row) : fnum :=
  fillna (m_cost_per_kg r) (estimated_cost_per_kg r).

(** The route table before the renaming of the customer column. *)
Definition create_transportation_costs : list route_row :=
  map (fun r =>
         {| from_warehouse := m_Origin_Warehouse r;
            to_customer := m_Destination r;
            cost_per_kg := final_cost_per_kg r;
            r_Distance_miles := m_Distance_miles r |})
      merged_data.

(** *** The fill-in rule in the words of the specification

    [distance * (mean observed cost / mean observed distance)], both means
    over the routes that have a cost and a distance.  The rule is stated for
    a choice [cost] of the column read as "observed cost". *)
Definition both_present (cost : merged_row -> fnum) (r : merged_row) : bool :=
  notna (cost r) && notna (m_Distance_miles r).

Definition spec_fill (cost : merged_row -> fnum) (r : merged_row) : fnum :=
  let obs := filter (both_present cost) merged_data in
  fmul (m_Distance_miles r)
       (fdiv (nanmean (map cost obs)) (nanmean (map m_Distance_miles obs))).

End CreateTransportationCosts.

End Transform.

(** ** Stage 2: the optimisation engine *)

Module Optimize.

(** *** Python calls that may raise *)

Inductive exn : Type :=
| IndexError          (* [.values[0]] on an empty selection *)
| KeyError            (* a missing dictionary key or data-frame column *)
| ZeroDivisionError.  (* a division of Python numbers by zero *)

Inductive outcome (A : Type) : Type :=
| Return (a : A)
| Raise (e : exn).
Arguments Return {A} a.
Arguments Raise {A} e.

Definition bind {A B} (m : outcome A) (k : A -> outcome B) : outcome B :=
  match m with
  | Return a => k a
  | Raise e => Raise e
  end.

Notation "x <- m ;; k" := (bind m (fun x => k))
  (at level 61, m at next level, right associativity).

(** A list comprehension whose element expression may raise. *)
Fixpoint mapM {A B} (f : A -> outcome B) (l : list A) : outcome (list B) :=
  match l with
  | [] => Return []
  | x :: r => y <- f x ;; ys <- mapM f r ;; Return (y :: ys)
  end.

(** *** The three input tables

    Only the columns the stage reads are kept ([city], [region] and
    [Distance_miles] are not).  Capacities and fixed costs are integer
    columns, demands and route costs are floats; all are rationals here.
    The tables are taken without missing values. *)

Record customer : Type := {
  customer_id : string;
  monthly_demand_kg : Q
}.

Record warehouse : Type := {
  warehouse_id : string;
  monthly_capacity : Q;
  fixed_cost : Q
}.

Record route : Type := {
  from_warehouse : string;
  to_customer_id : string;
  cost_per_kg : Q
}.

(** [df.loc[mask, column].values[0]]: the first selected value. *)
Definition values0 {A} (l : list A) : outcome A :=
  match l with
  | [] => Raise IndexError
  | x :: _ => Return x
  end.

Definition demand_of (customers_df : list customer) (c : string) : outcome Q :=
  values0 (map monthly_demand_kg
             (filter (fun r => String.eqb (customer_id r) c) customers_df)).

Definition capacity_of (warehouses_df : list warehouse) (w : string)
  : outcome Q :=
  values0 (map monthly_capacity
             (filter (fun r => String.eqb (warehouse_id r) w) warehouses_df)).

Definition fixed_cost_of (warehouses_df : list warehouse) (w : string)
  : outcome Q :=
  values0 (map fixed_cost
             (filter (fun r => String.eqb (warehouse_id r) w) warehouses_df)).

Definition cost_of (transport_df : list route) (w c : string) : outcome Q :=
  values0 (map cost_per_kg
             (filter (fun r => String.eqb (from_warehouse r) w
                               && String.eqb (to_customer_id r) c)
                     transport_df)).

(** *** Feasible-range estimator: [calculate_capacity_constraints] *)

(** [sort_values('monthly_capacity', ascending=False)].  The order of rows
    of equal capacity is left open by pandas; the loop below reads the
    capacities only. *)
Fixpoint insert_desc (w : warehouse) (l : list warehouse) : list warehouse :=
  match l with
  | [] => [w]
  | x :: r =>
      if Qle_bool (monthly_capacity x) (monthly_capacity w)
      then w :: l
      else x :: insert_desc w r
  end.

Definition sort_values_desc (l : list warehouse) : list warehouse :=
  fold_right insert_desc [] l.

(** The [for i, (_, warehouse) in enumerate(warehouses_sorted.iterrows(), 1)]
    loop.  When the rows are exhausted without a [break], [min_warehouses]
    still holds its initial value [0]. *)
Fixpoint min_warehouses_loop (rows : list warehouse) (i : nat)
    (current_capacity total_demand : Q) : nat :=
  match rows with
  | [] => 0%nat
  | w :: rest =>
      let current_capacity := current_capacity + monthly_capacity w in
      if Qle_bool total_demand current_capacity
      then i
      else min_warehouses_loop rest (S i) current_capacity total_demand
  end.

(** The two totals.  The code adds floating-point numbers in row order, and
    its result can depend on that order; the sum of rationals here cannot. *)
Definition total_demand (customers_df : list customer) : Q :=
  Qsum (map monthly_demand_kg customers_df).

Definition total_capacity (warehouses_df : list warehouse) : Q :=
  Qsum (map monthly_capacity warehouses_df).

(** The line that prints the capacity utilisation divides the total demand
    by the total capacity.  The sum of a column with rows is a numpy number,
    and a division that involves one yields [inf] or [nan] on a zero
    divisor; the sum of a column without rows (a table read from a file that
    holds only the header) is the Python integer [0], and [0 / 0] raises. *)
Definition print_capacity_utilization
    (customers_df : list customer) (warehouses_df : list warehouse)
  : outcome unit :=
  match customers_df, warehouses_df with
  | [], [] => Raise ZeroDivisionError
  | _, _ => Return tt
  end.

Definition calculate_capacity_constraints
    (customers_df : list customer) (warehouses_df : list warehouse)
  : outcome (nat * nat) :=
  _ <- print_capacity_utilization customers_df warehouses_df ;;
  let warehouses_sorted := sort_values_desc warehouses_df in
  let min_warehouses :=
    min_warehouses_loop warehouses_sorted 1 0 (total_demand customers_df) in
  Return (min_warehouses, List.length warehouses_df).

(** *** The MILP model *)

Inductive lpvar : Type :=
| Open (w : string)          (* [open_warehouses[w]], binary *)
| Ship (w c : string).       (* [shipment_vars[(w, c)]], continuous, >= 0 *)

(** An affine expression: [sum of coefficient * variable] plus a constant. *)
Record affine : Type := {
  terms : list (Q * lpvar);
  constant : Q
}.

Inductive sense : Type := LpLE | LpGE | LpEQ.

Record lpconstraint : Type := {
  lhs : affine;
  rel : sense;
  rhs : affine
}.

Record lpmodel : Type := {
  objective : affine;
  constraints : list lpconstraint
}.

Definition lpSum (vars : list lpvar) : affine :=
  {| terms := map (fun v => (1, v)) vars; constant := 0 |}.

Definition const (q : Q) : affine := {| terms := []; constant := q |}.

Definition scaled (q : Q) (v : lpvar) : affine :=
  {| terms := [(q, v)]; constant := 0 |}.

Definition pair_eqb (x y : string * string) : bool :=
  String.eqb (fst x) (fst y) && String.eqb (snd x) (snd y).

(** [[(w, c) for w in W for c in C]] *)
Definition pairs (W C : list string) : list (string * string) :=
  flat_map (fun w => map (fun c => (w, c)) C) W.

Definition build_optimization_model
    (customers_df : list customer) (warehouses_df : list warehouse)
    (transport_df : list route) (MIN_WAREHOUSES MAX_WAREHOUSES : nat)
  : outcome (lpmodel * list string * list (string * string)) :=
  let W := map warehouse_id warehouses_df in
  let C := map customer_id customers_df in
  (* decision variables: the keys of the two dictionaries *)
  let open_warehouses := unique String.eqb W in
  let shipment_vars := unique pair_eqb (pairs W C) in
  (* objective *)
  fixed_cost_total <-
    mapM (fun w => f <- fixed_cost_of warehouses_df w ;;
                   Return (f, Open w)) W ;;
  transport_cost_total <-
    mapM (fun wc => k <- cost_of transport_df (fst wc) (snd wc) ;;
                    Return (k, Ship (fst wc) (snd wc))) (pairs W C) ;;
  (* 1. demand satisfaction *)
  demand_cs <-
    mapM (fun c => demand <- demand_of customers_df c ;;
                   Return {| lhs := lpSum (map (fun w => Ship w c) W);
                             rel := LpEQ;
                             rhs := const demand |}) C ;;
  (* 2. capacity constraints *)
  capacity_cs <-
    mapM (fun w => capacity <- capacity_of warehouses_df w ;;
                   Return {| lhs := lpSum (map (fun c => Ship w c) C);
                             rel := LpLE;
                             rhs := scaled capacity (Open w) |}) W ;;
  (* 3. strategic constraints *)
  let strategic_cs :=
    [ {| lhs := lpSum (map Open W); rel := LpGE;
         rhs := const (inject_Z (Z.of_nat MIN_WAREHOUSES)) |};
      {| lhs := lpSum (map Open W); rel := LpLE;
         rhs := const (inject_Z (Z.of_nat MAX_WAREHOUSES)) |} ] in
  (* 4. shipping logic *)
  shipping_cs <-
    mapM (fun wc => capacity <- capacity_of warehouses_df (fst wc) ;;
                    Return {| lhs := lpSum [Ship (fst wc) (snd wc)];
                              rel := LpLE;
                              rhs := scaled capacity (Open (fst wc)) |})
         (pairs W C) ;;
  Return ({| objective :=
               {| terms := fixed_cost_total ++ transport_cost_total;
                  constant := 0 |};
             constraints :=
               demand_cs ++ capacity_cs ++ strategic_cs ++ shipping_cs |},
          open_warehouses, shipment_vars).

(** *** Meaning of a model under an assignment of the variables *)

Definition assignment : Type := lpvar -> Q.

Definition eval (a : assignment) (e : affine) : Q :=
  Qsum (map (fun t => fst t * a (snd t)) (terms e)) + constant e.

Definition holds (a : assignment) (k : lpconstraint) : Prop :=
  match rel k with
  | LpLE => eval a (lhs k) <= eval a (rhs k)
  | LpGE => eval a (rhs k) <= eval a (lhs k)
  | LpEQ => eval a (lhs k) == eval a (rhs k)
  end.

(** The variable declarations: [cat='Binary'] and [lowBound=0]. *)
Definition in_domain (open_vars : list string)
    (ship_vars : list (string * string)) (a : assignment) : Prop :=
  (forall w, In w open_vars -> a (Open w) == 0 \/ a (Open w) == 1) /\
  (forall w c, In (w, c) ship_vars -> 0 <= a (Ship w c)).

Definition feasible (m : lpmodel) (open_vars : list string)
    (ship_vars : list (string * string)) (a : assignment) : Prop :=
  in_domain open_vars ship_vars a /\ Forall (holds a) (constraints m).

(** What the solver promises with status [Optimal] on a minimisation. *)
Definition optimal (m : lpmodel) (open_vars : list string)
    (ship_vars : list (string * string)) (a : assignment) : Prop :=
  feasible m open_vars ship_vars a /\
  forall a', feasible m open_vars ship_vars a' ->
             eval a (objective m) <= eval a' (objective m).

(** *** Solving and extracting: [solve_and_analyze] *)

(** What [model.solve()] leaves behind: the status code ([1] is Optimal)
    and a value for every variable. *)
Record solver_result : Type := {
  status : Z;
  varValue : assignment
}.

(** A row of [shipment_df]. *)
Record shipment : Type := {
  s_from : string;
  s_to : string;
  kg : Q;
  cost : Q
}.

Definition Qgtb (x y : Q) : bool := negb (Qle_bool x y).

(** [round(x, 2)] on a Python float: to the nearest hundredth, ties to the
    even neighbour. *)
Definition round_half_even (x : Q) : Z :=
  let n := Qfloor x in
  match Qcompare (x - inject_Z n) (1 # 2) with
  | Lt => n
  | Gt => (n + 1)%Z
  | Eq => if Z.even n then n else (n + 1)%Z
  end.

Definition round2 (x : Q) : Q := inject_Z (round_half_even (x * 100)) / 100.

(** The value returned on an Optimal solve:
    [(shipment_df, selected_warehouses, total_fixed, total_transport)]. *)
Definition results : Type := (list shipment * list string * Q * Q)%type.

Section Solve.

(** The external MILP solver, a black box. *)
Variable solve : lpmodel -> solver_result.

(** [round(x, 2)] on a [numpy.float64], a library function.  numpy computes
    [rint(x * 100) / 100] in floating point, so that its result depends on
    the rounding of the product: for the double nearest to 2.675 it returns
    2.68 where [round] on the Python float returns 2.67. *)
Variable np_round2 : Q -> Q.

Section Analyze.

Variable sol : solver_result.
Variable ship_vars : list (string * string).
Variable customers_df : list customer.
Variable warehouses_df : list warehouse.
Variable transport_df : list route.

(** [ship_vars[(w, c)].varValue] *)
Definition ship_value (w c : string) : outcome Q :=
  if existsb (pair_eqb (w, c)) ship_vars
  then Return (varValue sol (Ship w c))
  else Raise KeyError.

(** [sum([ship_vars[(warehouse, c)].varValue for c in customers])] *)
Definition shipped (w : string) : outcome Q :=
  vs <- mapM (ship_value w) (map customer_id customers_df) ;;
  Return (Qsum vs).

(** The utilisation printed for a selected warehouse, in percent.  The
    capacity is a numpy number, so that a capacity of 0 gives [inf] or [nan]
    and raises nothing. *)
Definition usage (w : string) : outcome Transform.fnum :=
  capacity <- capacity_of warehouses_df w ;;
  s <- shipped w ;;
  Return (Transform.fmul
            (Transform.fdiv (Transform.Fin s) (Transform.Fin capacity))
            (Transform.Fin 100)).

(** The loop over [open_vars]. *)
Fixpoint select_loop (keys : list string) (selected_warehouses : list string)
    (total_fixed : Q) : outcome (list string * Q) :=
  match keys with
  | [] => Return (selected_warehouses, total_fixed)
  | w :: rest =>
      if Qgtb (varValue sol (Open w)) (1 # 2) then
        fixed <- fixed_cost_of warehouses_df w ;;
        _ <- usage w ;;
        select_loop rest (selected_warehouses ++ [w]) (total_fixed + fixed)
      else select_loop rest selected_warehouses total_fixed
  end.

(** The loop over [ship_vars.items()].  The literal [0.1] is read as one
    tenth, like every number here; the double it denotes is larger by less
    than 1e-17, so that the two tests differ for one flow value only, that
    double itself. *)
Fixpoint transport_loop (selected_warehouses : list string)
    (items : list (string * string)) (total_transport : Q)
    (shipments : list shipment) : outcome (Q * list shipment) :=
  match items with
  | [] => Return (total_transport, shipments)
  | (w, c) :: rest =>
      let v := varValue sol (Ship w c) in
      if Qgtb v (1 # 10) && existsb (String.eqb w) selected_warehouses then
        cost_kg <- cost_of transport_df w c ;;
        let transport := v * cost_kg in
        transport_loop selected_warehouses rest (total_transport + transport)
          (shipments ++ [ {| s_from := w; s_to := c;
                             kg := round2 v;
                             cost := np_round2 transport |} ])
      else transport_loop selected_warehouses rest total_transport shipments
  end.

(** The part of [solve_and_analyze] after [model.solve()]. *)
Definition analyze (open_vars : list string) : outcome (option results) :=
  if negb (Z.eqb (status sol) 1) then Return None
  else
    sel <- select_loop open_vars [] 0 ;;
    tr <- transport_loop (fst sel) ship_vars 0 [] ;;
    Return (Some (snd tr, fst sel, snd sel, fst tr)).

End Analyze.

Definition solve_and_analyze (model : lpmodel) (open_vars : list string)
    (ship_vars : list (string * string)) (customers_df : list customer)
    (warehouses_df : list warehouse) (transport_df : list route)
  : outcome (option results) :=
  analyze (solve model) ship_vars customers_df warehouses_df transport_df
          open_vars.

(** *** The run: [main] *)

(** The files a run writes. *)
Inductive artifact : Type :=
| optimization_shipments_csv (rows : list shipment)
| optimization_results_txt (opened_warehouses : list string)
    (fixed_cost transport_cost : Q)
| optimization_summary_txt (selected : nat) (warehouse_list : list string)
    (fixed_cost transport_cost total_cost : Q)
    (shipped_kg : list (string * Q)).

(** The world of a run: the three tables of the previous stage, absent when
    one of the files is missing, and the artifacts written so far. *)
Record world : Type := {
  data_files : option (list customer * list warehouse * list route);
  written : list artifact
}.

Definition write (f : artifact) (w : world) : world :=
  {| data_files := data_files w; written := written w ++ [f] |}.

(** [save_optimization_summary] of [utils.py].  A data frame built from no
    shipment has no column, and selecting ['from'] in it raises. *)
Definition save_optimization_summary (r : results)
  : outcome artifact :=
  let '(shipment_df, opened_warehouses, fixed_cost, transport_cost) := r in
  let total_cost := fixed_cost + transport_cost in
  lines <-
    mapM (fun warehouse =>
            match shipment_df with
            | [] => Raise KeyError
            | _ =>
                Return (warehouse,
                        Qsum (map kg
                                (filter (fun s => String.eqb (s_from s) warehouse)
                                        shipment_df)))
            end) opened_warehouses ;;
  Return (optimization_summary_txt (List.length opened_warehouses)
            opened_warehouses fixed_cost transport_cost total_cost lines).

(** [main]: the outcome of the call and the world it leaves.  Creating the
    output folders is not recorded. *)
Definition main (w : world) : outcome (option results) * world :=
  match data_files w with
  | None => (Return None, w)
  | Some (customers_df, warehouses_df, transport_df) =>
      match calculate_capacity_constraints customers_df warehouses_df with
      | Raise e => (Raise e, w)
      | Return (MIN_WAREHOUSES, MAX_WAREHOUSES) =>
          match build_optimization_model customers_df warehouses_df
                  transport_df MIN_WAREHOUSES MAX_WAREHOUSES with
          | Raise e => (Raise e, w)
          | Return (model, open_vars, ship_vars) =>
              match solve_and_analyze model open_vars ship_vars customers_df
                      warehouses_df transport_df with
              | Raise e => (Raise e, w)
              | Return None => (Return None, w)
              | Return (Some res) =>
                  let '(shipment_df, opened_warehouses, fixed_cost,
                        transport_cost) := res in
                  let w1 :=
                    write (optimization_shipments_csv shipment_df) w in
                  let w2 :=
                    write (optimization_results_txt opened_warehouses
                             fixed_cost transport_cost) w1 in
                  match save_optimization_summary res with
                  | Raise e => (Raise e, w2)
                  | Return summary => (Return (Some res), write summary w2)
                  end
              end
          end
      end
  end.

End Solve.

(** *** Notions used to state the properties *)

(** Descending order of capacity. *)
Definition cap_ge (x y : warehouse) : Prop :=
  monthly_capacity y <= monthly_capacity x.

(** The capacity of the [k] largest warehouses. *)
Definition top_capacity (warehouses_df : list warehouse) (k : nat) : Q :=
  Qsum (firstn k (map monthly_capacity (sort_values_desc warehouses_df))).

(** The quantity that the extracted shipments bring to a customer. *)
Definition inbound (shipment_df : list shipment) (c : string) : Q :=
  Qsum (map kg (filter (fun s => String.eqb (s_to s) c) shipment_df)).

(** [pulp.value(model.objective)] after the solve. *)
Definition objective_value (model : lpmodel) (sol : solver_result) : Q :=
  eval (varValue sol) (objective model).

(** The range the estimator returns when it returns. *)
Definition capacity_range (customers_df : list customer)
    (warehouses_df : list warehouse) : nat * nat :=
  (min_warehouses_loop (sort_values_desc warehouses_df) 1 0
     (total_demand customers_df),
   List.length warehouses_df).

(** The stages of [main] up to the extraction. *)
Definition extraction (solve : lpmodel -> solver_result)
    (np_round2 : Q -> Q) (w : world) : outcome (option results) :=
  match data_files w with
  | None => Return None
  | Some (customers_df, warehouses_df, transport_df) =>
      range <- calculate_capacity_constraints customers_df warehouses_df ;;
      built <- build_optimization_model customers_df warehouses_df
                 transport_df (fst range) (snd range) ;;
      solve_and_analyze solve np_round2 (fst (fst built)) (snd (fst built))
        (snd built) customers_df warehouses_df transport_df
  end.

(** The assignment [a] with warehouse [w0] closed. *)
Definition close (a : assignment) (w0 : string) : assignment :=
  fun v =>
    match v with
    | Open w => if String.eqb w w0 then 0 else a (Open w)
    | Ship w c => a (Ship w c)
    end.

(** The warehouses that stay open when [w0] is closed. *)
Definition stays_open (a : assignment) (w0 : string) (r : warehouse) : bool :=
  Qgtb (close a w0 (Open (warehouse_id r))) (1 # 2).

(** The tests and values of the two extraction loops, named. *)
Section Extracted.

Variable np_round2 : Q -> Q.
Variable sol : solver_result.
Variable warehouses_df : list warehouse.
Variable transport_df : list route.

Local Abbreviation val := (varValue sol).

(** [open_vars[warehouse].varValue > 0.5] *)
Definition activated (w : string) : bool := Qgtb (val (Open w)) (1 # 2).

(** [var.varValue > 0.1 and w in selected_warehouses] *)
Definition retained (selected : list string) (wc : string * string) : bool :=
  Qgtb (val (Ship (fst wc) (snd wc))) (1 # 10)
  && existsb (String.eqb (fst wc)) selected.

(** The fixed cost and the route cost read by the loops, where the lookup
    succeeds. *)
Definition fixed_or_zero (w : string) : Q :=
  match fixed_cost_of warehouses_df w with
  | Return f => f
  | Raise _ => 0
  end.

Definition cost_or_zero (wc : string * string) : Q :=
  match cost_of transport_df (fst wc) (snd wc) with
  | Return k => k
  | Raise _ => 0
  end.

(** The row appended to [shipments] for a retained pair. *)
Definition shipment_of (wc : string * string) : shipment :=
  {| s_from := fst wc; s_to := snd wc;
     kg := round2 (val (Ship (fst wc) (snd wc)));
     cost := np_round2 (val (Ship (fst wc) (snd wc)) * cost_or_zero wc) |}.

End Extracted.

End Optimize.

(** ** Concrete tables used by the examples *)

Module Samples.

Import Transform.

(** Three observed routes; the shipments from W1 to B carry no weight, so
    that route has a distance and no observed cost per kg.  No shipment goes
    from W2 to A. *)
Definition shipments_df : list Transform.shipment :=
  [ {| Origin_Warehouse := "W1"; Destination := "A";
       Cost := Fin 8; Weight_kg := Fin 2; Distance_miles := Fin 2 |};
    {| Origin_Warehouse := "W2"; Destination := "B";
       Cost := Fin 8; Weight_kg := Fin 2; Distance_miles := Fin 8 |};
    {| Origin_Warehouse := "W1"; Destination := "B";
       Cost := Fin 8; Weight_kg := NaN; Distance_miles := Fin 4 |} ].

Definition row_W1_A : merged_row :=
  {| m_Origin_Warehouse := "W1"; m_Destination := "A";
     m_Cost := Fin 8; m_Weight_kg := Fin 2; m_Distance_miles := Fin 2;
     m_cost_per_kg := Fin (8 # 2) |}.

Definition row_W1_B : merged_row :=
  {| m_Origin_Warehouse := "W1"; m_Destination := "B";
     m_Cost := Fin 8; m_Weight_kg := NaN; m_Distance_miles := Fin 4;
     m_cost_per_kg := NaN |}.

Import Optimize.

(** One warehouse of capacity 10 and one customer, whose demand is 0 in
    the first table and 20 in the second. *)
Definition one_warehouse : list warehouse :=
  [ {| warehouse_id := "W1"; monthly_capacity := 10; fixed_cost := 1 |} ].

Definition no_demand : list customer :=
  [ {| customer_id := "C1"; monthly_demand_kg := 0 |} ].

Definition excess_demand : list customer :=
  [ {| customer_id := "C1"; monthly_demand_kg := 20 |} ].

Definition one_route : list route :=
  [ {| from_warehouse := "W1"; to_customer_id := "C1"; cost_per_kg := 1 |} ].

(** Two warehouses of capacity 100 and one customer who needs 100.05: both
    warehouses must open, and the cheapest plan ships 100 from W1 and the
    remaining 0.05 over the expensive route from W2. *)
Definition two_warehouses : list warehouse :=
  [ {| warehouse_id := "W1"; monthly_capacity := 100; fixed_cost := 10 |};
    {| warehouse_id := "W2"; monthly_capacity := 100; fixed_cost := 10 |} ].

Definition tight_demand : list customer :=
  [ {| customer_id := "C1"; monthly_demand_kg := 2001 # 20 |} ].

Definition two_routes : list route :=
  [ {| from_warehouse := "W1"; to_customer_id := "C1"; cost_per_kg := 1 |};
    {| from_warehouse := "W2"; to_customer_id := "C1";
       cost_per_kg := 1000 |} ].

Definition tight_plan : assignment :=
  fun v =>
    match v with
    | Open _ => 1
    | Ship w _ => if String.eqb w "W1" then 100 else 1 # 20
    end.

(** Two warehouses of capacity 100, the second free to open, and one
    customer who needs 50.  Shipping everything from W1 is cheapest, and
    opening W2 as well costs nothing. *)
Definition free_warehouses : list warehouse :=
  [ {| warehouse_id := "W1"; monthly_capacity := 100; fixed_cost := 10 |};
    {| warehouse_id := "W2"; monthly_capacity := 100; fixed_cost := 0 |} ].

Definition half_demand : list customer :=
  [ {| customer_id := "C1"; monthly_demand_kg := 50 |} ].

Definition near_routes : list route :=
  [ {| from_warehouse := "W1"; to_customer_id := "C1"; cost_per_kg := 1 |};
    {| from_warehouse := "W2"; to_customer_id := "C1"; cost_per_kg := 2 |} ].

Definition idle_plan : assignment :=
  fun v =>
    match v with
    | Open _ => 1
    | Ship w _ => if String.eqb w "W1" then 50 else 0
    end.

(** A solver that answers with a fixed status and plan. *)
Definition answers (st : Z) (plan : assignment) : lpmodel -> solver_result :=
  fun _ => {| status := st; varValue := plan |}.

(** numpy's rounding on the examples: the products of a flow and a cost
    that are rounded there are whole numbers, which it returns unchanged,
    as [round2] does. *)
Definition np_round2 : Q -> Q := round2.

(** The model a successful build returns. *)
Definition built_model
    (b : outcome (lpmodel * list string * list (string * string)))
  : lpmodel :=
  match b with
  | Return (m, _, _) => m
  | Raise _ => {| objective := const 0; constraints := [] |}
  end.

Definition tight_model : lpmodel :=
  Eval vm_compute in
    built_model (build_optimization_model tight_demand two_warehouses
                   two_routes 2 2).

Definition idle_model : lpmodel :=
  Eval vm_compute in
    built_model (build_optimization_model half_demand free_warehouses
                   near_routes 1 2).

Definition tight_world : world :=
  {| data_files := Some (tight_demand, two_warehouses, two_routes);
     written := [] |}.

Definition idle_world : world :=
  {| data_files := Some (half_demand, free_warehouses, near_routes);
     written := [] |}.

End Samples.

(** ** Further notions and tables *)

Module More.
Import Optimize.

(** The demand and the capacity read from the tables, where the lookup
    succeeds. *)
Definition demand_or_zero (customers_df : list customer) (c : string) : Q :=
  match demand_of customers_df c with
  | Return d => d
  | Raise _ => 0
  end.

Definition capacity_or_zero (warehouses_df : list warehouse) (w : string) : Q :=
  match capacity_of warehouses_df w with
  | Return k => k
  | Raise _ => 0
  end.

(** The plan that opens every warehouse and serves each customer from all
    warehouses in proportion to their capacities. *)
Definition proportional_plan (customers_df : list customer)
    (warehouses_df : list warehouse) : assignment :=
  fun v =>
    match v with
    | Open _ => 1
    | Ship w c =>
        demand_or_zero customers_df c * capacity_or_zero warehouses_df w
        / total_capacity warehouses_df
    end.

(** Whether the route table has a row for the pair. *)
Definition has_route (transport_df : list route) (w c : string) : bool :=
  existsb (fun r => String.eqb (from_warehouse r) w
                    && String.eqb (to_customer_id r) c) transport_df.

(** One customer who needs 0.05 and one warehouse: the only plan ships a
    flow below the extraction threshold. *)
Definition faint_demand : list customer :=
  [ {| customer_id := "C1"; monthly_demand_kg := 1 # 20 |} ].

Definition faint_plan : assignment :=
  fun v =>
    match v with
    | Open _ => 1
    | Ship _ _ => 1 # 20
    end.

Definition faint_world : world :=
  {| data_files := Some (faint_demand, Samples.one_warehouse,
                         Samples.one_route);
     written := [] |}.

(** The lines of the summary, one per opened warehouse. *)
Definition summary_lines (f : artifact) : list (string * Q) :=
  match f with
  | optimization_summary_txt _ _ _ _ _ lines => lines
  | _ => []
  end.

End More.

(** ** Stage 1, continued: the customer and warehouse tables *)

Module Prepare.

Import Transform.

(** *** Raising [ValueError] *)

Inductive raising (A : Type) : Type :=
| Value (a : A)
| ValueError.
Arguments Value {A} a.
Arguments ValueError {A}.

(** A list comprehension whose element expression may raise. *)
Fixpoint collect {A B} (f : A -> raising B) (l : list A) : raising (list B) :=
  match l with
  | [] => Value []
  | x :: r =>
      match f x with
      | ValueError => ValueError
      | Value y =>
          match collect f r with
          | ValueError => ValueError
          | Value ys => Value (y :: ys)
          end
      end
  end.

(** [Series.astype(int)], a conversion to 64-bit integers: truncation
    toward zero.  pandas refuses to convert a missing or infinite value; a
    finite value outside the 64-bit range is converted without an error,
    to the smallest 64-bit integer on the x86-64 processors.  The truncation
    acts on the exact value: as everywhere in this development, the rounding
    of the floating-point operations before it is not modelled. *)
Definition truncate (q : Q) : Z := Z.quot (Qnum q) (Zpos (Qden q)).

Definition INT64_MIN : Z := (- 2 ^ 63)%Z.

Definition int64_of (q : Q) : Z :=
  let t := truncate q in
  if (INT64_MIN <=? t)%Z && (t <? 2 ^ 63)%Z then t else INT64_MIN.

Definition astype_int (x : fnum) : raising Z :=
  match x with
  | Fin q => Value (int64_of q)
  | _ => ValueError
  end.

(** *** Group keys *)

(** [groupby] orders its groups by key; strings compare by code point. *)
Fixpoint insert_key (k : string) (l : list string) : list string :=
  match l with
  | [] => [k]
  | x :: r => if String.leb k x then k :: l else x :: insert_key k r
  end.

Definition sort_keys (l : list string) : list string :=
  fold_right insert_key [] l.

Definition group_keys (keys : list string) : list string :=
  sort_keys (unique String.eqb keys).

(** The aggregation ['sum']: missing values are skipped, and the sum of no
    value is 0. *)
Definition nansum (l : list fnum) : fnum := fsum (filter notna l).

(** *** Cleaning: [load_and_clean_data] *)

(** A row of the raw file: the shipment columns and the delivery date,
    which may be missing. *)
Record raw_row : Type := {
  Delivery_Date : option string;
  columns : shipment
}.

(** [df.dropna(subset=['Delivery_Date', 'Cost'])]; a missing file makes the
    function return [None]. *)
Definition load_and_clean_data (file : option (list raw_row))
  : option (list shipment) :=
  match file with
  | None => None
  | Some df =>
      Some (map columns
              (filter (fun r => match Delivery_Date r with
                                | Some _ => notna (Cost (columns r))
                                | None => false
                                end) df))
  end.

(** *** Customers: [create_customer_demand] *)

Record customer_row : Type := {
  customer_id : string;
  city : string;
  region : string;
  monthly_demand_kg : fnum
}.

(** [Series.str.replace(' ', '_')] *)
Fixpoint replace_spaces (s : string) : string :=
  match s with
  | EmptyString => EmptyString
  | String c r =>
      String (if Ascii.eqb c " "%char then "_"%char else c) (replace_spaces r)
  end.

Definition regions : list (string * string) :=
  [ ("San Francisco", "West"); ("Los Angeles", "West"); ("Seattle", "West");
    ("Chicago", "Midwest"); ("Detroit", "Midwest");
    ("Minneapolis", "Midwest");
    ("New York", "Northeast"); ("Boston", "Northeast");
    ("Philadelphia", "Northeast");
    ("Atlanta", "Southeast"); ("Miami", "Southeast");
    ("Charlotte", "Southeast");
    ("Houston", "South"); ("Dallas", "South"); ("Phoenix", "South") ]%string.

(** [regions.get(city, 'Other')] *)
Definition get_region (city : string) : string :=
  match find (fun kv => String.eqb (fst kv) city) regions with
  | Some kv => snd kv
  | None => "Other"
  end.

Section Tables.

(** Python's [str.upper], a library function. *)
Variable upper : string -> string.

(** ['CUST_' + destination.replace(' ', '_').upper()] *)
Definition customer_id_of (destination : string) : string :=
  ("CUST_" ++ upper (replace_spaces destination))%string.

Variable shipments_df : list shipment.

Definition create_customer_demand : list customer_row :=
  map (fun d =>
         let g := filter (fun s => String.eqb (Destination s) d)
                         shipments_df in
         {| customer_id := customer_id_of d;
            city := d;
            region := get_region d;
            monthly_demand_kg := fdiv (nansum (map Weight_kg g)) (Fin 12) |})
      (group_keys (map Destination shipments_df)).

(** *** Warehouses: [create_warehouse_data] *)

Record warehouse_row : Type := {
  warehouse_id : string;
  monthly_capacity : Z;
  fixed_cost : Z
}.

Definition total_weight (w : string) : fnum :=
  nansum (map Weight_kg
            (filter (fun s => String.eqb (Origin_Warehouse s) w)
                    shipments_df)).

Definition base_cost : Q := 30000.

Definition create_warehouse_data : raising (list warehouse_row) :=
  let keys := group_keys (map Origin_Warehouse shipments_df) in
  match collect (fun w => astype_int
                            (fmul (fdiv (total_weight w) (Fin 12))
                                  (Fin (125 # 100)))) keys with
  | ValueError => ValueError
  | Value capacities =>
      let mean := nanmean (map (fun c => Fin (inject_Z c)) capacities) in
      match collect (fun c => astype_int
                                (fmul (Fin base_cost)
                                      (fdiv (Fin (inject_Z c)) mean)))
                    capacities with
      | ValueError => ValueError
      | Value fixed_costs =>
          Value (map (fun wcf =>
                        {| warehouse_id := fst (fst wcf);
                           monthly_capacity := snd (fst wcf);
                           fixed_cost := snd wcf |})
                     (combine (combine keys capacities) fixed_costs))
      end
  end.

(** *** Routes: the last lines of [create_transportation_costs] *)

Record transport_row : Type := {
  t_from_warehouse : string;
  t_to_customer_id : string;
  t_cost_per_kg : fnum;
  t_Distance_miles : fnum
}.

Definition transport_table : list transport_row :=
  map (fun r =>
         {| t_from_warehouse := from_warehouse r;
            t_to_customer_id := customer_id_of (to_customer r);
            t_cost_per_kg := cost_per_kg r;
            t_Distance_miles := r_Distance_miles r |})
      (create_transportation_costs shipments_df).

End Tables.

(** *** Validation: [validate_data] of [utils.py]

    The function only prints.  With tables that have their columns, what it
    can print is one warning per table that holds a missing value. *)
Definition validate_data (customers_df : list customer_row)
    (warehouses_df : list warehouse_row) (transport_df : list transport_row)
  : list string :=
  (if existsb (fun r => isnan (monthly_demand_kg r)) customers_df
   then ["Warning: Missing values in customers data"%string] else [])
  ++ (if existsb (fun r => isnan (t_cost_per_kg r)
                           || isnan (t_Distance_miles r)) transport_df
      then ["Warning: Missing values in transport data"%string] else []).

(** *** The transformation run: [main] *)

(** The three files [save_processed_data] writes. *)
Inductive data_file : Type :=
| optimization_customers_csv (rows : list customer_row)
| optimization_warehouses_csv (rows : list warehouse_row)
| optimization_transport_costs_csv (rows : list transport_row).

Definition save_processed_data (customers_df : list customer_row)
    (warehouses_df : list warehouse_row) (transport_df : list transport_row)
    (written : list data_file) : list data_file :=
  written ++ [ optimization_customers_csv customers_df;
               optimization_warehouses_csv warehouses_df;
               optimization_transport_costs_csv transport_df ].

(** [main]: what it returns (or that it raised), what it printed as
    warnings and the files written. *)
Definition main (upper : string -> string) (file : option (list raw_row))
    (written : list data_file)
  : raising (option (list customer_row * list warehouse_row
                     * list transport_row))
    * list string * list data_file :=
  match load_and_clean_data file with
  | None => (Value None, [], written)
  | Some df =>
      let customers_df := create_customer_demand upper df in
      match create_warehouse_data df with
      | ValueError => (ValueError, [], written)
      | Value warehouses_df =>
          let transport_df := transport_table upper df in
          (Value (Some (customers_df, warehouses_df, transport_df)),
           validate_data customers_df warehouses_df transport_df,
           save_processed_data customers_df warehouses_df transport_df
             written)
      end
  end.

(** *** Notions used to state properties of the tables *)

(** The number a value contributes to a sum that skips missing values. *)
Definition or_zero (x : fnum) : Q :=
  match x with
  | Fin q => q
  | _ => 0
  end.

Definition weight_or_zero (s : shipment) : Q := or_zero (Weight_kg s).

(** A weight that is a number or missing, and one that is moreover not
    negative. *)
Definition finite_or_missing (x : fnum) : bool :=
  match x with
  | Fin _ | NaN => true
  | _ => false
  end.

Definition nonneg_or_missing (x : fnum) : bool :=
  match x with
  | Fin q => Qle_bool 0 q
  | NaN => true
  | _ => false
  end.

(** The weight shipped from a warehouse over the whole table. *)
Definition shipped_from (shipments_df : list shipment) (w : string) : Q :=
  Qsum (map weight_or_zero
          (filter (fun s => String.eqb (Origin_Warehouse s) w)
                  shipments_df)).

(** Sizes that keep every conversion within the 64-bit integers and the
    rounding error of the sums far below the margins of the statements. *)
Definition weight_limit : Q := 1000000000000000000.

Definition row_limit : Z := 1000000000.

(** The columns of the warehouse table written with that weight, for tables
    within these sizes: the capacity is 1.25 times the monthly weight,
    truncated; the fixed cost is the base cost scaled by the capacity
    relative to the mean capacity, truncated. *)
Definition capacity_for (shipments_df : list shipment) (w : string) : Z :=
  truncate (shipped_from shipments_df w / 12 * (125 # 100)).

Definition total_capacity_for (shipments_df : list shipment) : Z :=
  fold_right Z.add 0%Z
    (map (capacity_for shipments_df)
       (group_keys (map Origin_Warehouse shipments_df))).

Definition mean_capacity (shipments_df : list shipment) : Q :=
  inject_Z (total_capacity_for shipments_df)
  / inject_Z (Z.of_nat (List.length
                          (group_keys (map Origin_Warehouse shipments_df)))).

Definition fixed_cost_for (shipments_df : list shipment) (w : string) : Z :=
  truncate (base_cost * (inject_Z (capacity_for shipments_df w)
                         / mean_capacity shipments_df)).

(** Keys in the order of [String.leb]. *)
Definition in_order (l : list string) : Prop :=
  Sorted (fun a b => String.leb a b = true) l.

End Prepare.

(** Sample shipment tables for the customer and warehouse tables. *)
Module PrepareSamples.

Import Transform Prepare.

(** Two warehouses and two cities; the pair (W2, Boston) is never observed
    and one weight is missing. *)
Definition yearly_shipments : list shipment :=
  [ {| Origin_Warehouse := "W2"; Destination := "New York"; Cost := Fin 8;
       Weight_kg := Fin 120; Distance_miles := Fin 2 |};
    {| Origin_Warehouse := "W1"; Destination := "Boston"; Cost := Fin 8;
       Weight_kg := Fin 60; Distance_miles := Fin 8 |};
    {| Origin_Warehouse := "W1"; Destination := "New York"; Cost := Fin 8;
       Weight_kg := NaN; Distance_miles := Fin 4 |} ].

Definition yearly_warehouses : list warehouse_row :=
  [ {| warehouse_id := "W1"; monthly_capacity := 6; fixed_cost := 20000 |};
    {| warehouse_id := "W2"; monthly_capacity := 12; fixed_cost := 40000 |} ].

(** A single shipment of 5 kg. *)
Definition small_shipments : list shipment :=
  [ {| Origin_Warehouse := "W1"; Destination := "A"; Cost := Fin 8;
       Weight_kg := Fin 5; Distance_miles := Fin 2 |} ].

(** A raw file in which no row has both a delivery date and a cost. *)
Definition unusable_file : list raw_row :=
  [ {| Delivery_Date := None;
       columns := {| Origin_Warehouse := "W1"; Destination := "A";
                     Cost := Fin 8; Weight_kg := Fin 5;
                     Distance_miles := Fin 2 |} |};
    {| Delivery_Date := Some "2024-01-05"%string;
       columns := {| Origin_Warehouse := "W1"; Destination := "B";
                     Cost := NaN; Weight_kg := Fin 5;
                     Distance_miles := Fin 2 |} |} ].

End PrepareSamples.

(** ** Properties of the data transformation *)

Module TransformFacts.

Import Transform.

Lemma fdiv_nan_l y : fdiv NaN y = NaN.
Proof. reflexivity. Qed.

Lemma fdiv_nan_r x : fdiv x NaN = NaN.
Proof. destruct x; reflexivity. Qed.

(** Rows on which a column is missing do not count in its mean. *)
Lemma nanmean_filter {A} (f : A -> fnum) (p : A -> bool) (l : list A) :
  (forall x, In x l -> p x = false -> isnan (f x) = true) ->
  nanmean (map f (filter p l)) = nanmean (map f l).
Proof.
  intros Hp. unfold nanmean.
  replace (filter notna (map f (filter p l))) with (filter notna (map f l));
    [reflexivity|].
  induction l as [|x l IH]; simpl; [reflexivity|].
  assert (IH' : filter notna (map f l) = filter notna (map f (filter p l))).
  { apply IH. intros y Hy. apply Hp. now right. }
  destruct (p x) eqn:Epx; simpl.
  - now rewrite IH'.
  - unfold notna at 1. rewrite (Hp x (or_introl eq_refl) Epx). simpl. exact IH'.
Qed.

Lemma mile_cost_missing (r : merged_row) :
  both_present m_Cost r = false -> isnan (mile_cost r) = true.
Proof.
  unfold both_present, mile_cost, notna.
  destruct (m_Cost r), (m_Distance_miles r); simpl; try discriminate;
    reflexivity.
Qed.

(** The mean cost per mile is the mean, over the routes with a cost and a
    distance, of the route's cost divided by the route's distance. *)
Lemma avg_mile_cost_observed (df : list shipment) :
  avg_mile_cost df =
  nanmean (map mile_cost (filter (both_present m_Cost) (merged_data df))).
Proof.
  unfold avg_mile_cost. symmetry. apply nanmean_filter.
  intros r _. apply mile_cost_missing.
Qed.

(** The mean weight is taken over the routes that have a weight. *)
Lemma mean_weight_observed (df : list shipment) :
  nanmean (map m_Weight_kg (merged_data df)) =
  nanmean (map m_Weight_kg
             (filter (fun r => notna (m_Weight_kg r)) (merged_data df))).
Proof.
  symmetry. apply nanmean_filter.
  intros r _. unfold notna. now destruct (isnan (m_Weight_kg r)).
Qed.

(** C1, counterexample.  On the sample table the route W1 -> B has no
    observed cost per kg and a distance of 4.  The code fills it with
    4 * ((8/2 + 8/4 + 8/8) / 3) / 2 = 14/3, whereas distance times the ratio
    of the mean cost to the mean distance is 48/7 when "cost" is the mean
    shipment cost and 16/5 when it is the cost per kg. *)
Lemma fill_in_is_not_ratio_of_means :
  In Samples.row_W1_B (merged_data Samples.shipments_df) /\
  isnan (m_cost_per_kg Samples.row_W1_B) = true /\
  final_cost_per_kg Samples.shipments_df Samples.row_W1_B = Fin (3584 # 768) /\
  feqb (final_cost_per_kg Samples.shipments_df Samples.row_W1_B)
       (spec_fill Samples.shipments_df m_Cost Samples.row_W1_B) = false /\
  feqb (final_cost_per_kg Samples.shipments_df Samples.row_W1_B)
       (spec_fill Samples.shipments_df m_cost_per_kg Samples.row_W1_B) = false.
Proof.
  split; [right; left; reflexivity|].
  repeat split; reflexivity.
Qed.

(** C1, amended.  For every route of the dense table whose observed cost
    per kg is missing, the cost written to the route table is the route's
    distance, multiplied by the mean over the routes with a cost and a
    distance of (cost / distance), and divided by the mean observed
    weight. *)
Theorem fill_in_formula (df : list shipment) (r : merged_row) :
  In r (merged_data df) ->
  isnan (m_cost_per_kg r) = true ->
  In {| from_warehouse := m_Origin_Warehouse r;
        to_customer := m_Destination r;
        cost_per_kg :=
          fdiv (fmul (m_Distance_miles r)
                  (nanmean (map mile_cost
                             (filter (both_present m_Cost) (merged_data df)))))
               (nanmean (map m_Weight_kg
                          (filter (fun r => notna (m_Weight_kg r))
                                  (merged_data df))));
        r_Distance_miles := m_Distance_miles r |}
     (create_transportation_costs df).
Proof.
  intros Hin Hnan.
  unfold create_transportation_costs.
  apply in_map_iff. exists r. split; [|exact Hin].
  f_equal. unfold final_cost_per_kg, fillna. rewrite Hnan.
  unfold estimated_cost_per_kg, estimated_cost.
  now rewrite avg_mile_cost_observed, <- mean_weight_observed.
Qed.

Lemma fill_in_formula_witness :
  In {| from_warehouse := "W1"; to_customer := "B";
        cost_per_kg :=
          fdiv (fmul (Fin 4)
                  (nanmean (map mile_cost
                             (filter (both_present m_Cost)
                                     (merged_data Samples.shipments_df)))))
               (nanmean (map m_Weight_kg
                          (filter (fun r => notna (m_Weight_kg r))
                                  (merged_data Samples.shipments_df))));
        r_Distance_miles := Fin 4 |}
     (create_transportation_costs Samples.shipments_df).
Proof.
  apply (fill_in_formula Samples.shipments_df Samples.row_W1_B).
  - right; left; reflexivity.
  - reflexivity.
Defined.

(** C10.  The gap fill is a frame: a route whose observed cost per kg is
    present keeps exactly that value in the route table, and the
    distance-derived estimate appears only on routes whose observed value
    is missing. *)
Theorem gap_fill_frame (df : list shipment) (r : merged_row) :
  In r (merged_data df) ->
  In {| from_warehouse := m_Origin_Warehouse r;
        to_customer := m_Destination r;
        cost_per_kg := final_cost_per_kg df r;
        r_Distance_miles := m_Distance_miles r |}
     (create_transportation_costs df) /\
  (isnan (m_cost_per_kg r) = false ->
   final_cost_per_kg df r = m_cost_per_kg r) /\
  (isnan (m_cost_per_kg r) = true ->
   final_cost_per_kg df r = estimated_cost_per_kg df r).
Proof.
  intros Hin. split; [|split].
  - unfold create_transportation_costs. apply in_map_iff. now exists r.
  - intros H. unfold final_cost_per_kg, fillna. now rewrite H.
  - intros H. unfold final_cost_per_kg, fillna. now rewrite H.
Qed.

Lemma gap_fill_frame_witness :
  In Samples.row_W1_A (merged_data Samples.shipments_df) /\
  isnan (m_cost_per_kg Samples.row_W1_A) = false /\
  final_cost_per_kg Samples.shipments_df Samples.row_W1_A = Fin (8 # 2).
Proof.
  assert (Hin : In Samples.row_W1_A (merged_data Samples.shipments_df))
    by (left; reflexivity).
  split; [exact Hin|]. split; [reflexivity|].
  exact (proj1 (proj2 (gap_fill_frame Samples.shipments_df Samples.row_W1_A
                         Hin)) eq_refl).
Defined.

End TransformFacts.

(** ** Properties of the optimisation engine *)

Module OptimizeFacts.

Import Optimize.

(** *** Sums of rationals *)

Lemma fold_left_Qplus (l : list Q) (a : Q) :
  fold_left Qplus l a == a + Qsum l.
Proof.
  unfold Qsum. revert a.
  induction l as [|x l IH]; intros a; simpl.
  - lra.
  - rewrite (IH (a + x)), (IH (0 + x)). lra.
Qed.

Lemma Qsum_nil : Qsum [] == 0.
Proof. reflexivity. Qed.

Lemma Qsum_cons (x : Q) (l : list Q) : Qsum (x :: l) == x + Qsum l.
Proof. unfold Qsum at 1. simpl. rewrite fold_left_Qplus. lra. Qed.

Lemma Qsum_app (l1 l2 : list Q) : Qsum (l1 ++ l2) == Qsum l1 + Qsum l2.
Proof.
  induction l1 as [|x l1 IH]; simpl.
  - rewrite Qsum_nil. lra.
  - rewrite !Qsum_cons, IH. lra.
Qed.

Lemma Qsum_perm (l1 l2 : list Q) : Permutation l1 l2 -> Qsum l1 == Qsum l2.
Proof.
  induction 1 as [|x l1 l2 _ IH|x y l|l1 l2 l3 _ IH1 _ IH2].
  - reflexivity.
  - rewrite !Qsum_cons, IH. reflexivity.
  - rewrite !Qsum_cons. lra.
  - now rewrite IH1.
Qed.

Lemma Qsum_nonneg (l : list Q) : Forall (fun x => 0 <= x) l -> 0 <= Qsum l.
Proof.
  induction 1 as [|x l Hx _ IH].
  - rewrite Qsum_nil. lra.
  - rewrite Qsum_cons. lra.
Qed.

(** Pointwise bounds add up. *)
Lemma Qsum_map_le {A} (f g : A -> Q) (l : list A) :
  (forall x, In x l -> f x <= g x) -> Qsum (map f l) <= Qsum (map g l).
Proof.
  induction l as [|x l IH]; intros H; simpl.
  - rewrite Qsum_nil. lra.
  - rewrite !Qsum_cons.
    assert (f x <= g x) by (apply H; now left).
    assert (Qsum (map f l) <= Qsum (map g l))
      by (apply IH; intros y Hy; apply H; now right).
    lra.
Qed.

Lemma Qsum_map_eq {A} (f g : A -> Q) (l : list A) :
  (forall x, In x l -> f x == g x) -> Qsum (map f l) == Qsum (map g l).
Proof.
  intros H. apply Qle_antisym; apply Qsum_map_le; intros x Hx;
    rewrite (H x Hx); lra.
Qed.

(** *** More on sums *)

Lemma Qsum_filter {A} (f : A -> Q) (p : A -> bool) (l : list A) :
  Qsum (map f (filter p l)) == Qsum (map (fun x => if p x then f x else 0) l).
Proof.
  induction l as [|x l IH]; simpl; [reflexivity|].
  rewrite Qsum_cons. destruct (p x); simpl.
  - rewrite Qsum_cons, IH. reflexivity.
  - rewrite IH. lra.
Qed.

Lemma Qsum_flat_map {A B} (f : B -> Q) (g : A -> list B) (l : list A) :
  Qsum (map f (flat_map g l)) == Qsum (map (fun x => Qsum (map f (g x))) l).
Proof.
  induction l as [|x l IH]; simpl; [reflexivity|].
  rewrite map_app, Qsum_app, Qsum_cons, IH. reflexivity.
Qed.

Lemma Qsum_map_zero {A} (f : A -> Q) (l : list A) :
  (forall x, In x l -> f x == 0) -> Qsum (map f l) == 0.
Proof.
  intros H. rewrite (Qsum_map_eq f (fun _ => 0) l H).
  clear H. induction l as [|x l IH]; simpl; [reflexivity|].
  rewrite Qsum_cons, IH. lra.
Qed.

(** A sum that keeps one key of a duplicate-free list. *)
Lemma Qsum_pick (g : string -> Q) (l : list string) (c : string) :
  NoDup l -> In c l ->
  Qsum (map (fun c' => if String.eqb c' c then g c' else 0) l) == g c.
Proof.
  induction 1 as [|x l Hx Hnd IH]; intros Hin; [contradiction|].
  simpl. rewrite Qsum_cons. destruct Hin as [->|Hin].
  - rewrite String.eqb_refl, Qsum_map_zero; [lra|].
    intros c' Hc'. destruct (String.eqb c' c) eqn:E; [|reflexivity].
    apply String.eqb_eq in E. subst. contradiction.
  - destruct (String.eqb x c) eqn:E.
    + apply String.eqb_eq in E. subst. contradiction.
    + rewrite IH by exact Hin. lra.
Qed.

Lemma Qsum_map_plus {A} (f g : A -> Q) (l : list A) :
  Qsum (map (fun x => f x + g x) l) == Qsum (map f l) + Qsum (map g l).
Proof.
  induction l as [|x l IH]; simpl.
  - rewrite !Qsum_nil. lra.
  - rewrite !Qsum_cons, IH. lra.
Qed.

Lemma Qsum_map_scale {A} (k : Q) (f : A -> Q) (l : list A) :
  Qsum (map (fun x => k * f x) l) == k * Qsum (map f l).
Proof.
  induction l as [|x l IH]; simpl.
  - rewrite !Qsum_nil. lra.
  - rewrite !Qsum_cons, IH. lra.
Qed.

Lemma Qsum_map_const {A} (k : Q) (l : list A) :
  Qsum (map (fun _ => k) l) == k * inject_Z (Z.of_nat (List.length l)).
Proof.
  induction l as [|x l IH].
  - simpl. rewrite Qsum_nil. change (inject_Z 0) with 0. lra.
  - cbn [map List.length]. rewrite Qsum_cons, IH, Nat2Z.inj_succ.
    unfold Z.succ. rewrite inject_Z_plus. change (inject_Z 1) with 1. lra.
Qed.

Lemma Qsum_Forall2 {A B} (R : A -> B -> Prop) (F : A -> Q) (G : B -> Q)
    (l : list A) (ys : list B) :
  Forall2 R l ys -> (forall x y, R x y -> F x == G y) ->
  Qsum (map F l) == Qsum (map G ys).
Proof.
  intros H HR. induction H as [|x y l ys Hxy _ IH]; simpl; [reflexivity|].
  rewrite !Qsum_cons, IH, (HR x y Hxy). reflexivity.
Qed.

Lemma filter_map_comm {A B} (f : A -> B) (p : B -> bool) (l : list A) :
  filter p (map f l) = map f (filter (fun x => p (f x)) l).
Proof.
  induction l as [|x l IH]; simpl; [reflexivity|].
  destruct (p (f x)); simpl; now rewrite IH.
Qed.

(** *** The descending sort *)

Lemma insert_desc_perm (w : warehouse) (l : list warehouse) :
  Permutation (insert_desc w l) (w :: l).
Proof.
  induction l as [|x l IH]; simpl.
  - reflexivity.
  - destruct (Qle_bool (monthly_capacity x) (monthly_capacity w)).
    + reflexivity.
    + rewrite IH. apply perm_swap.
Qed.

Lemma sort_values_desc_perm (l : list warehouse) :
  Permutation (sort_values_desc l) l.
Proof.
  induction l as [|x l IH]; simpl.
  - reflexivity.
  - rewrite insert_desc_perm. now constructor.
Qed.

Lemma insert_desc_sorted (w : warehouse) (l : list warehouse) :
  Sorted cap_ge l -> Sorted cap_ge (insert_desc w l).
Proof.
  induction 1 as [|x l Hs IH Hhd]; simpl.
  - repeat constructor.
  - destruct (Qle_bool (monthly_capacity x) (monthly_capacity w)) eqn:E.
    + constructor; [now constructor|].
      constructor. now apply Qle_bool_iff in E.
    + constructor; [exact IH|].
      assert (Hxw : cap_ge x w).
      { unfold cap_ge. destruct (Qlt_le_dec (monthly_capacity w)
                                   (monthly_capacity x)) as [Hlt|Hle].
        - lra.
        - apply Qle_bool_iff in Hle. congruence. }
      destruct l as [|y l]; simpl.
      * now constructor.
      * destruct (Qle_bool (monthly_capacity y) (monthly_capacity w));
          constructor; [exact Hxw|].
        now inversion Hhd.
Qed.

Lemma sort_values_desc_sorted (l : list warehouse) :
  Sorted cap_ge (sort_values_desc l).
Proof.
  induction l as [|x l IH]; simpl.
  - constructor.
  - now apply insert_desc_sorted.
Qed.

Lemma sort_values_desc_length (l : list warehouse) :
  List.length (sort_values_desc l) = List.length l.
Proof. apply Permutation_length, sort_values_desc_perm. Qed.

(** *** The capacity of the [k] largest warehouses *)

Lemma top_capacity_all (ws : list warehouse) :
  top_capacity ws (List.length ws) == total_capacity ws.
Proof.
  unfold top_capacity, total_capacity.
  rewrite <- (sort_values_desc_length ws),
          <- (length_map monthly_capacity), firstn_all.
  apply Qsum_perm, Permutation_map, sort_values_desc_perm.
Qed.

(** The loop returns the first position, counted from [i], at which the
    running capacity reaches the demand. *)
Lemma min_warehouses_loop_found (rows : list warehouse) :
  forall (i : nat) (cur d : Q),
    (exists j, (1 <= j <= List.length rows)%nat /\
               d <= cur + Qsum (firstn j (map monthly_capacity rows))) ->
    exists k, (1 <= k <= List.length rows)%nat /\
      min_warehouses_loop rows i cur d = (i + k - 1)%nat /\
      d <= cur + Qsum (firstn k (map monthly_capacity rows)) /\
      forall j, (1 <= j < k)%nat ->
                cur + Qsum (firstn j (map monthly_capacity rows)) < d.
Proof.
  induction rows as [|w rest IH]; intros i cur d [j [Hj Hd]].
  - simpl in Hj. lia.
  - simpl. destruct (Qle_bool d (cur + monthly_capacity w)) eqn:E.
    + exists 1%nat. simpl. repeat split; try lia.
      apply Qle_bool_iff in E. rewrite Qsum_cons, Qsum_nil. lra.
    + assert (Hlt : cur + monthly_capacity w < d).
      { destruct (Qlt_le_dec (cur + monthly_capacity w) d) as [H|H];
          [exact H|]. apply Qle_bool_iff in H. congruence. }
      destruct j as [|j]; [lia|].
      simpl in Hd. rewrite Qsum_cons in Hd.
      destruct j as [|j].
      { simpl in Hd. rewrite Qsum_nil in Hd. lra. }
      destruct (IH (S i) (cur + monthly_capacity w) d) as [k [Hk [Hr [Hk1 Hk2]]]].
      { exists (S j). split; [simpl in Hj; lia|]. lra. }
      exists (S k). simpl. repeat split; try lia.
      * rewrite Qsum_cons. lra.
      * intros j' Hj'. destruct j' as [|j']; [lia|]. simpl.
        rewrite Qsum_cons.
        destruct j' as [|j'].
        -- simpl. rewrite Qsum_nil. lra.
        -- specialize (Hk2 (S j')). 
           assert (cur + monthly_capacity w +
                   Qsum (firstn (S j') (map monthly_capacity rest)) < d)
             by (apply Hk2; lia).
           lra.
Qed.

(** When the running capacity never reaches the demand the loop ends
    without a [break]. *)
Lemma min_warehouses_loop_exhausted (rows : list warehouse) :
  forall (i : nat) (cur d : Q),
    (forall j, (1 <= j <= List.length rows)%nat ->
               cur + Qsum (firstn j (map monthly_capacity rows)) < d) ->
    min_warehouses_loop rows i cur d = 0%nat.
Proof.
  induction rows as [|w rest IH]; intros i cur d H; simpl; [reflexivity|].
  destruct (Qle_bool d (cur + monthly_capacity w)) eqn:E.
  - apply Qle_bool_iff in E.
    specialize (H 1%nat). simpl in H. rewrite Qsum_cons, Qsum_nil in H.
    assert (cur + (monthly_capacity w + 0) < d) by (apply H; lia). lra.
  - apply IH. intros j Hj.
    specialize (H (S j)). simpl in H. rewrite Qsum_cons in H.
    assert (cur + (monthly_capacity w +
                   Qsum (firstn j (map monthly_capacity rest))) < d)
      by (apply H; lia).
    lra.
Qed.

(** With capacities that are not negative, no group of warehouses holds
    more than all of them. *)
Lemma firstn_sum_le_total (l : list Q) (j : nat) :
  Forall (fun x => 0 <= x) l -> Qsum (firstn j l) <= Qsum l.
Proof.
  intros H. rewrite <- (firstn_skipn j l) at 2. rewrite Qsum_app.
  assert (0 <= Qsum (skipn j l)).
  { apply Qsum_nonneg. apply Forall_forall. intros x Hx.
    rewrite Forall_forall in H. apply H.
    rewrite <- (firstn_skipn j l). apply in_or_app. now right. }
  lra.
Qed.

(** *** Any [k] warehouses hold at most the capacity of the [k] largest *)

Lemma firstn_succ_sum (l : list Q) (k : nat) :
  (k < List.length l)%nat ->
  Qsum (firstn (S k) l) == Qsum (firstn k l) + nth k l 0.
Proof.
  revert k. induction l as [|y l IH]; intros k Hk; simpl in Hk; [lia|].
  destruct k as [|k].
  - simpl. rewrite Qsum_cons, !Qsum_nil. lra.
  - cbn [firstn nth]. rewrite !Qsum_cons, (IH k) by lia.
    cbn [firstn]. lra.
Qed.

Lemma firstn_cons_ge (c : Q) (l : list Q) (k : nat) :
  (k <= List.length l)%nat -> Forall (fun y => y <= c) l ->
  Qsum (firstn k l) <= Qsum (firstn k (c :: l)).
Proof.
  intros Hk Hc. destruct k as [|k]; [simpl; lra|].
  change (firstn (S k) (c :: l)) with (c :: firstn k l).
  rewrite Qsum_cons, firstn_succ_sum by lia.
  assert (nth k l 0 <= c).
  { rewrite Forall_forall in Hc. apply Hc, nth_In. lia. }
  lra.
Qed.

Lemma top_weighted (x : warehouse -> bool) (s : list warehouse) :
  StronglySorted cap_ge s ->
  Qsum (map (fun r => if x r then monthly_capacity r else 0) s)
  <= Qsum (firstn (List.length (filter x s)) (map monthly_capacity s)).
Proof.
  induction 1 as [|r s Hs IH Hr]; simpl; [lra|].
  rewrite Qsum_cons. destruct (x r); simpl.
  - rewrite Qsum_cons. lra.
  - assert (Hle : Qsum (firstn (List.length (filter x s))
                          (map monthly_capacity s))
                  <= Qsum (firstn (List.length (filter x s))
                             (monthly_capacity r :: map monthly_capacity s))).
    { apply firstn_cons_ge.
      - rewrite length_map. apply filter_length_le.
      - apply Forall_map. revert Hr. apply Forall_impl. intros y Hy. exact Hy. }
    lra.
Qed.

Lemma cap_ge_trans : Relation_Definitions.transitive _ cap_ge.
Proof. intros x y z Hxy Hyz. unfold cap_ge in *. lra. Qed.

(** The warehouses picked by [x] hold at most the capacity of as many of
    the largest warehouses. *)
Lemma picked_capacity_le_top (x : warehouse -> bool) (ws : list warehouse) :
  Qsum (map (fun r => if x r then monthly_capacity r else 0) ws)
  <= top_capacity ws (List.length (filter x ws)).
Proof.
  pose proof (sort_values_desc_perm ws) as Hperm.
  rewrite <- (Qsum_perm _ _ (Permutation_map _ Hperm)).
  unfold top_capacity.
  replace (List.length (filter x ws))
    with (List.length (filter x (sort_values_desc ws))).
  - apply top_weighted.
    apply Sorted_StronglySorted; [exact cap_ge_trans|].
    apply sort_values_desc_sorted.
  - apply Permutation_length. clear -Hperm.
    induction Hperm; simpl; auto.
    + destruct (x x0); simpl; auto.
    + destruct (x x0), (x y); simpl; auto. apply perm_swap.
    + etransitivity; eassumption.
Qed.

(** The minimum returned by the estimator is at most any positive count
    whose largest warehouses cover the demand. *)
Lemma min_warehouses_le (customers_df : list customer)
    (warehouses_df : list warehouse) (k : nat) :
  (1 <= k <= List.length warehouses_df)%nat ->
  total_demand customers_df <= top_capacity warehouses_df k ->
  (fst (capacity_range customers_df warehouses_df) <= k)%nat.
Proof.
  intros Hk Hcov. simpl.
  destruct (min_warehouses_loop_found (sort_values_desc warehouses_df) 1 0
              (total_demand customers_df)) as [j [Hj [Hr [_ Hlt]]]].
  { exists k. rewrite sort_values_desc_length. split; [exact Hk|].
    unfold top_capacity in Hcov. lra. }
  rewrite Hr. replace (1 + j - 1)%nat with j by lia.
  destruct (Nat.le_gt_cases j k) as [H|H]; [exact H|].
  specialize (Hlt k (conj (proj1 Hk) H)).
  unfold top_capacity in Hcov. lra.
Qed.

(** *** The feasible-range estimator *)

(** The estimator raises on two tables without rows and returns its range
    otherwise. *)
Lemma calculate_capacity_constraints_returns
    (customers_df : list customer) (warehouses_df : list warehouse) :
  customers_df <> [] \/ warehouses_df <> [] ->
  calculate_capacity_constraints customers_df warehouses_df
  = Return (capacity_range customers_df warehouses_df).
Proof.
  intros H. unfold calculate_capacity_constraints.
  destruct customers_df as [|c cs]; [|reflexivity].
  destruct warehouses_df as [|w ws]; [|reflexivity].
  destruct H; congruence.
Qed.

Lemma calculate_capacity_constraints_empty :
  calculate_capacity_constraints [] [] = Raise ZeroDivisionError.
Proof. reflexivity. Qed.

Lemma calculate_capacity_constraints_inv
    (customers_df : list customer) (warehouses_df : list warehouse)
    (range : nat * nat) :
  calculate_capacity_constraints customers_df warehouses_df = Return range ->
  range = capacity_range customers_df warehouses_df /\
  (customers_df <> [] \/ warehouses_df <> []).
Proof.
  unfold calculate_capacity_constraints.
  destruct customers_df as [|c cs].
  - destruct warehouses_df as [|w ws]; [discriminate|].
    intros H. injection H as <-. split; [reflexivity|].
    right. discriminate.
  - intros H. injection H as <-. split; [reflexivity|].
    left. discriminate.
Qed.

(** C3, counterexample.  With one warehouse of capacity 10 and a total
    demand of 0 the capacity of the 0 largest warehouses already covers the
    demand, so the least such count is 0; the loop consumes a warehouse
    before it tests and returns 1. *)
Lemma min_warehouses_is_not_least_count :
  Samples.one_warehouse <> [] /\
  total_demand Samples.no_demand <= total_capacity Samples.one_warehouse /\
  calculate_capacity_constraints Samples.no_demand Samples.one_warehouse
    = Return (1%nat, 1%nat) /\
  ~ (forall MIN MAX k : nat,
       calculate_capacity_constraints Samples.no_demand Samples.one_warehouse
         = Return (MIN, MAX) ->
       total_demand Samples.no_demand <= top_capacity Samples.one_warehouse k ->
       (MIN <= k)%nat).
Proof.
  split; [discriminate|]. split; [vm_compute; discriminate|].
  split; [reflexivity|].
  intros H. specialize (H 1%nat 1%nat 0%nat eq_refl).
  assert (1 <= 0)%nat; [|lia].
  apply H. vm_compute. discriminate.
Qed.

(** C3, amended.  For a non-empty warehouse table whose total capacity
    covers the total demand, the estimator returns as maximum the number of
    warehouses and as minimum the least count k >= 1 such that the k
    largest capacities, taken in descending order, sum to at least the
    total demand. *)
Theorem capacity_range_when_covered
    (customers_df : list customer) (warehouses_df : list warehouse) :
  warehouses_df <> [] ->
  total_demand customers_df <= total_capacity warehouses_df ->
  exists range,
    calculate_capacity_constraints customers_df warehouses_df
    = Return range /\
    snd range = List.length warehouses_df /\
    (1 <= fst range <= List.length warehouses_df)%nat /\
    total_demand customers_df <= top_capacity warehouses_df (fst range) /\
    forall k, (1 <= k < fst range)%nat ->
              top_capacity warehouses_df k < total_demand customers_df.
Proof.
  intros Hne Hcov. exists (capacity_range customers_df warehouses_df).
  split; [apply calculate_capacity_constraints_returns; now right|].
  simpl.
  destruct (min_warehouses_loop_found (sort_values_desc warehouses_df) 1 0
              (total_demand customers_df)) as [k [Hk [Hr [Hge Hlt]]]].
  { exists (List.length warehouses_df).
    rewrite sort_values_desc_length. split.
    - destruct warehouses_df; [congruence|simpl; lia].
    - pose proof (top_capacity_all warehouses_df) as Hall.
      unfold top_capacity in Hall. lra. }
  rewrite sort_values_desc_length in Hk.
  rewrite Hr. replace (1 + k - 1)%nat with k by lia.
  unfold top_capacity. repeat split; try lia.
  - lra.
  - intros j Hj. specialize (Hlt j Hj). lra.
Qed.

Lemma capacity_range_when_covered_witness :
  exists range,
    calculate_capacity_constraints Samples.tight_demand
      Samples.two_warehouses = Return range /\
    fst range = 2%nat /\
    top_capacity Samples.two_warehouses 1 < total_demand Samples.tight_demand.
Proof.
  assert (Hne : Samples.two_warehouses <> []) by discriminate.
  assert (Hcov : total_demand Samples.tight_demand
                 <= total_capacity Samples.two_warehouses)
    by (vm_compute; discriminate).
  destruct (capacity_range_when_covered Samples.tight_demand
              Samples.two_warehouses Hne Hcov) as [range [Hr H]].
  exists range. split; [exact Hr|].
  assert (E : fst range = 2%nat).
  { vm_compute in Hr. injection Hr as <-. reflexivity. }
  split; [exact E|].
  apply (proj2 (proj2 (proj2 H))). rewrite E. split; constructor.
Defined.

(** C4, counterexample.  One warehouse of capacity 10 against a demand of
    20: the estimator returns the range (0, 1) like any other range, and
    the model builder accepts it. *)
Lemma estimator_returns_a_range_when_infeasible :
  total_capacity Samples.one_warehouse < total_demand Samples.excess_demand /\
  calculate_capacity_constraints Samples.excess_demand Samples.one_warehouse
    = Return (0%nat, 1%nat) /\
  exists built,
    build_optimization_model Samples.excess_demand Samples.one_warehouse
      Samples.one_route 0 1 = Return built.
Proof.
  split; [reflexivity|]. split; [reflexivity|].
  eexists. reflexivity.
Qed.

(** C4, amended.  When the capacities are not negative and their sum is
    below the total demand, the estimator raises nothing: it returns the
    minimum 0, which never exceeds the number of warehouses, together with
    the number of warehouses as maximum. *)
Theorem capacity_range_when_short
    (customers_df : list customer) (warehouses_df : list warehouse) :
  Forall (fun w => 0 <= monthly_capacity w) warehouses_df ->
  total_capacity warehouses_df < total_demand customers_df ->
  calculate_capacity_constraints customers_df warehouses_df
    = Return (0%nat, List.length warehouses_df).
Proof.
  intros Hpos Hshort.
  rewrite calculate_capacity_constraints_returns.
  2:{ destruct customers_df as [|c cs]; [|left; discriminate].
      destruct warehouses_df as [|w ws]; [|right; discriminate].
      exfalso. revert Hshort. vm_compute. discriminate. }
  unfold capacity_range. do 2 f_equal.
  apply min_warehouses_loop_exhausted. intros j _.
  assert (Hperm : Permutation
                    (map monthly_capacity (sort_values_desc warehouses_df))
                    (map monthly_capacity warehouses_df))
    by apply Permutation_map, sort_values_desc_perm.
  assert (Hle : Qsum (firstn j (map monthly_capacity
                                  (sort_values_desc warehouses_df)))
                <= Qsum (map monthly_capacity
                           (sort_values_desc warehouses_df))).
  { apply firstn_sum_le_total.
    apply (Permutation_Forall (Permutation_sym Hperm)).
    now apply Forall_map. }
  rewrite (Qsum_perm _ _ Hperm) in Hle.
  unfold total_capacity in Hshort. lra.
Qed.

Lemma capacity_range_when_short_witness :
  calculate_capacity_constraints Samples.excess_demand Samples.one_warehouse
    = Return (0%nat, 1%nat).
Proof.
  apply (capacity_range_when_short Samples.excess_demand
           Samples.one_warehouse).
  - repeat constructor; vm_compute; discriminate.
  - reflexivity.
Defined.

(** *** Comprehensions that may raise *)

Lemma mapM_Forall2 {A B} (f : A -> outcome B) (l : list A) (ys : list B) :
  mapM f l = Return ys -> Forall2 (fun x y => f x = Return y) l ys.
Proof.
  revert ys. induction l as [|x l IH]; intros ys H; simpl in H.
  - injection H as <-. constructor.
  - destruct (f x) as [y|] eqn:Ex; simpl in H; [|discriminate].
    destruct (mapM f l) as [ys'|]; simpl in H; [|discriminate].
    injection H as <-. constructor; auto.
Qed.

Lemma mapM_In {A B} (f : A -> outcome B) (l : list A) (ys : list B) (x : A) :
  mapM f l = Return ys -> In x l -> exists y, f x = Return y /\ In y ys.
Proof.
  intros H. apply mapM_Forall2 in H.
  induction H as [|x' y' l' ys' Hxy _ IH]; intros Hin; [contradiction|].
  destruct Hin as [->|Hin].
  - exists y'. split; [exact Hxy|now left].
  - destruct (IH Hin) as [y [Hy Hyin]]. exists y. split; [exact Hy|now right].
Qed.

Lemma mapM_total {A B} (f : A -> outcome B) (l : list A) :
  (forall x, In x l -> exists y, f x = Return y) ->
  exists ys, mapM f l = Return ys.
Proof.
  induction l as [|x l IH]; intros H; simpl.
  - now exists [].
  - destruct (H x (or_introl eq_refl)) as [y ->].
    destruct IH as [ys ->]; [intros z Hz; apply H; now right|].
    simpl. now eexists.
Qed.

Lemma mapM_pure {A B} (f : A -> outcome B) (g : A -> B) (l : list A) :
  (forall x, In x l -> f x = Return (g x)) -> mapM f l = Return (map g l).
Proof.
  induction l as [|x l IH]; intros H; simpl; [reflexivity|].
  rewrite (H x (or_introl eq_refl)), IH; [reflexivity|].
  intros y Hy. apply H. now right.
Qed.

(** *** Evaluation of the expressions the builder writes *)

Lemma eval_lpSum (a : assignment) (vars : list lpvar) :
  eval a (lpSum vars) == Qsum (map a vars).
Proof.
  unfold eval, lpSum. simpl. rewrite map_map. simpl.
  rewrite (Qsum_map_eq (fun v => 1 * a v) a); [lra|].
  intros v _. lra.
Qed.

Lemma eval_const (a : assignment) (q : Q) : eval a (const q) == q.
Proof. unfold eval, const. simpl. rewrite Qsum_nil. lra. Qed.

Lemma eval_scaled (a : assignment) (q : Q) (v : lpvar) :
  eval a (scaled q v) == q * a v.
Proof. unfold eval, scaled. simpl. rewrite Qsum_cons, Qsum_nil. lra. Qed.

(** One term of a sum of non-negative terms is at most the sum. *)
Lemma Qsum_map_member {A} (f : A -> Q) (l : list A) (x : A) :
  (forall y, In y l -> 0 <= f y) -> In x l -> f x <= Qsum (map f l).
Proof.
  induction l as [|z l IH]; intros Hpos Hin; [contradiction|].
  simpl. rewrite Qsum_cons.
  assert (0 <= f z) by (apply Hpos; now left).
  assert (0 <= Qsum (map f l)).
  { apply Qsum_nonneg, Forall_map, Forall_forall.
    intros y Hy. apply Hpos. now right. }
  destruct Hin as [->|Hin].
  - lra.
  - assert (f x <= Qsum (map f l))
      by (apply IH; [intros y Hy; apply Hpos; now right|exact Hin]).
    lra.
Qed.

(** *** The shape of the built model *)

Section Built.

Variable customers_df : list customer.
Variable warehouses_df : list warehouse.
Variable transport_df : list route.
Variables MIN_WAREHOUSES MAX_WAREHOUSES : nat.
Variable model : lpmodel.
Variable open_vars : list string.
Variable ship_vars : list (string * string).

Hypothesis Hbuilt :
  build_optimization_model customers_df warehouses_df transport_df
    MIN_WAREHOUSES MAX_WAREHOUSES = Return (model, open_vars, ship_vars).

Let W := map warehouse_id warehouses_df.
Let C := map customer_id customers_df.

Lemma built_inv :
  exists fixed_cost_total transport_cost_total demand_cs capacity_cs
         shipping_cs,
    mapM (fun w => f <- fixed_cost_of warehouses_df w ;; Return (f, Open w)) W
      = Return fixed_cost_total /\
    mapM (fun wc => k <- cost_of transport_df (fst wc) (snd wc) ;;
                    Return (k, Ship (fst wc) (snd wc))) (pairs W C)
      = Return transport_cost_total /\
    mapM (fun c => demand <- demand_of customers_df c ;;
                   Return {| lhs := lpSum (map (fun w => Ship w c) W);
                             rel := LpEQ; rhs := const demand |}) C
      = Return demand_cs /\
    mapM (fun w => capacity <- capacity_of warehouses_df w ;;
                   Return {| lhs := lpSum (map (fun c => Ship w c) C);
                             rel := LpLE;
                             rhs := scaled capacity (Open w) |}) W
      = Return capacity_cs /\
    mapM (fun wc => capacity <- capacity_of warehouses_df (fst wc) ;;
                    Return {| lhs := lpSum [Ship (fst wc) (snd wc)];
                              rel := LpLE;
                              rhs := scaled capacity (Open (fst wc)) |})
         (pairs W C)
      = Return shipping_cs /\
    objective model =
      {| terms := fixed_cost_total ++ transport_cost_total; constant := 0 |} /\
    constraints model =
      demand_cs ++ capacity_cs ++
      [ {| lhs := lpSum (map Open W); rel := LpGE;
           rhs := const (inject_Z (Z.of_nat MIN_WAREHOUSES)) |};
        {| lhs := lpSum (map Open W); rel := LpLE;
           rhs := const (inject_Z (Z.of_nat MAX_WAREHOUSES)) |} ] ++
      shipping_cs /\
    open_vars = unique String.eqb W /\
    ship_vars = unique pair_eqb (pairs W C).
Proof.
  pose proof Hbuilt as H. unfold build_optimization_model in H.
  fold W C in H.
  destruct (mapM _ W) as [ft|] eqn:E1 in H; simpl in H; [|discriminate].
  destruct (mapM _ (pairs W C)) as [tt|] eqn:E2 in H; simpl in H;
    [|discriminate].
  destruct (mapM _ C) as [dc|] eqn:E3 in H; simpl in H; [|discriminate].
  destruct (mapM _ W) as [cc|] eqn:E4 in H; simpl in H; [|discriminate].
  destruct (mapM _ (pairs W C)) as [sc|] eqn:E5 in H; simpl in H;
    [|discriminate].
  injection H as <- <- <-.
  exists ft, tt, dc, cc, sc. simpl. repeat split; assumption.
Qed.

Lemma in_pairs (w c : string) (Ws Cs : list string) :
  In (w, c) (pairs Ws Cs) <-> In w Ws /\ In c Cs.
Proof.
  unfold pairs. rewrite in_flat_map. split.
  - intros [w' [Hw Hin]]. apply in_map_iff in Hin.
    destruct Hin as [c' [Heq Hc]]. injection Heq as -> ->. now split.
  - intros [Hw Hc]. exists w. split; [exact Hw|].
    apply in_map_iff. now exists c.
Qed.

Lemma built_demand (c : string) :
  In c C ->
  exists demand,
    demand_of customers_df c = Return demand /\
    In {| lhs := lpSum (map (fun w => Ship w c) W); rel := LpEQ;
          rhs := const demand |} (constraints model).
Proof.
  intros Hc.
  destruct built_inv as (ft & tt & dc & cc & sc & _ & _ & Hd & _ & _ & _ &
                         Hcs & _).
  destruct (mapM_In _ _ _ c Hd Hc) as [k [Hk Hin]].
  destruct (demand_of customers_df c) as [d|]; simpl in Hk; [|discriminate].
  injection Hk as <-. exists d. split; [reflexivity|].
  rewrite Hcs. apply in_or_app. now left.
Qed.

Lemma built_capacity (w : string) :
  In w W ->
  exists capacity,
    capacity_of warehouses_df w = Return capacity /\
    In {| lhs := lpSum (map (fun c => Ship w c) C); rel := LpLE;
          rhs := scaled capacity (Open w) |} (constraints model).
Proof.
  intros Hw.
  destruct built_inv as (ft & tt & dc & cc & sc & _ & _ & _ & Hc & _ & _ &
                         Hcs & _).
  destruct (mapM_In _ _ _ w Hc Hw) as [k [Hk Hin]].
  destruct (capacity_of warehouses_df w) as [cap|]; simpl in Hk;
    [|discriminate].
  injection Hk as <-. exists cap. split; [reflexivity|].
  rewrite Hcs. apply in_or_app. right. apply in_or_app. now left.
Qed.

Lemma built_shipping (w c : string) :
  In w W -> In c C ->
  exists capacity,
    capacity_of warehouses_df w = Return capacity /\
    In {| lhs := lpSum [Ship w c]; rel := LpLE;
          rhs := scaled capacity (Open w) |} (constraints model).
Proof.
  intros Hw Hc.
  destruct built_inv as (ft & tt & dc & cc & sc & _ & _ & _ & _ & Hs & _ &
                         Hcs & _).
  assert (Hwc : In (w, c) (pairs W C)) by now apply in_pairs.
  destruct (mapM_In _ _ _ (w, c) Hs Hwc) as [k [Hk Hin]]. simpl in Hk.
  destruct (capacity_of warehouses_df w) as [cap|]; simpl in Hk;
    [|discriminate].
  injection Hk as <-. exists cap. split; [reflexivity|].
  rewrite Hcs. apply in_or_app. right. apply in_or_app. right.
  apply in_or_app. now right.
Qed.

Lemma built_cost (w c : string) :
  In w W -> In c C -> exists k, cost_of transport_df w c = Return k.
Proof.
  intros Hw Hc.
  destruct built_inv as (ft & tt & dc & cc & sc & _ & Ht & _).
  assert (Hwc : In (w, c) (pairs W C)) by now apply in_pairs.
  destruct (mapM_In _ _ _ (w, c) Ht Hwc) as [k [Hk Hin]]. simpl in Hk.
  destruct (cost_of transport_df w c) as [q|]; simpl in Hk; [|discriminate].
  now exists q.
Qed.

Lemma built_fixed_cost (w : string) :
  In w W -> exists f, fixed_cost_of warehouses_df w = Return f.
Proof.
  intros Hw.
  destruct built_inv as (ft & tt & dc & cc & sc & Hf & _).
  destruct (mapM_In _ _ _ w Hf Hw) as [k [Hk Hin]].
  destruct (fixed_cost_of warehouses_df w) as [q|]; simpl in Hk;
    [|discriminate].
  now exists q.
Qed.

End Built.

(** C8.  In the built model both the capacity constraint of a warehouse
    (family 2) and the bound of each of its routes (family 4) are present,
    and under any assignment with non-negative flows the former implies
    the latter. *)
Theorem route_bound_implied_by_capacity
    (customers_df : list customer) (warehouses_df : list warehouse)
    (transport_df : list route) (MIN_WAREHOUSES MAX_WAREHOUSES : nat)
    (model : lpmodel) (open_vars : list string)
    (ship_vars : list (string * string)) (w c : string) :
  build_optimization_model customers_df warehouses_df transport_df
    MIN_WAREHOUSES MAX_WAREHOUSES = Return (model, open_vars, ship_vars) ->
  In w (map warehouse_id warehouses_df) ->
  In c (map customer_id customers_df) ->
  exists capacity,
    let capacity_c :=
      {| lhs := lpSum (map (fun c => Ship w c)
                         (map customer_id customers_df));
         rel := LpLE; rhs := scaled capacity (Open w) |} in
    let route_c :=
      {| lhs := lpSum [Ship w c]; rel := LpLE;
         rhs := scaled capacity (Open w) |} in
    capacity_of warehouses_df w = Return capacity /\
    In capacity_c (constraints model) /\
    In route_c (constraints model) /\
    forall a : assignment,
      (forall c', In c' (map customer_id customers_df) ->
                  0 <= a (Ship w c')) ->
      holds a capacity_c -> holds a route_c.
Proof.
  intros Hb Hw Hc.
  destruct (built_capacity _ _ _ _ _ _ _ _ Hb w Hw) as [cap [Hcap Hin2]].
  destruct (built_shipping _ _ _ _ _ _ _ _ Hb w c Hw Hc) as [cap' [Hcap' Hin4]].
  assert (cap' = cap) by congruence. subst cap'.
  exists cap. simpl. repeat split; try assumption.
  intros a Hpos. unfold holds. simpl.
  rewrite !eval_lpSum, !eval_scaled. simpl. rewrite Qsum_cons, Qsum_nil.
  rewrite map_map. intros Hsum.
  pose proof (Qsum_map_member (fun c' => a (Ship w c'))
                (map customer_id customers_df) c Hpos Hc) as Hmem.
  simpl in Hmem. lra.
Qed.

Lemma route_bound_implied_by_capacity_witness :
  exists capacity,
    capacity_of Samples.two_warehouses "W2" = Return capacity /\
    In {| lhs := lpSum [Ship "W2" "C1"]; rel := LpLE;
          rhs := scaled capacity (Open "W2") |}
       (constraints Samples.tight_model) /\
    forall a : assignment,
      (forall c', In c' ["C1"%string] -> 0 <= a (Ship "W2" c')) ->
      holds a {| lhs := lpSum (map (fun c => Ship "W2" c) ["C1"%string]);
                 rel := LpLE; rhs := scaled capacity (Open "W2") |} ->
      holds a {| lhs := lpSum [Ship "W2" "C1"]; rel := LpLE;
                 rhs := scaled capacity (Open "W2") |}.
Proof.
  destruct (route_bound_implied_by_capacity Samples.tight_demand
              Samples.two_warehouses Samples.two_routes 2 2
              Samples.tight_model ["W1"; "W2"]%string
              [("W1", "C1"); ("W2", "C1")]%string "W2" "C1"
              eq_refl (or_intror (or_introl eq_refl)) (or_introl eq_refl))
    as [cap [Hcap [Hin2 [Hin4 Himp]]]].
  exists cap. split; [exact Hcap|]. split; [exact Hin4|exact Himp].
Defined.

(** *** Dictionary keys *)

Section Unique.

Context {A : Type} (eqb : A -> A -> bool).
Hypothesis eqb_spec : forall x y, eqb x y = true <-> x = y.

Lemma in_unique (x : A) (l : list A) : In x (unique eqb l) <-> In x l.
Proof.
  induction l as [|y l IH]; simpl; [tauto|].
  rewrite filter_In, IH. split.
  - intros [H|[H _]]; auto.
  - intros [H|H]; [now left|].
    destruct (eqb y x) eqn:E.
    + left. now apply eqb_spec.
    + right. now split.
Qed.

Lemma unique_id (l : list A) : NoDup l -> unique eqb l = l.
Proof.
  induction 1 as [|x l Hx _ IH]; simpl; [reflexivity|].
  rewrite IH. f_equal.
  apply forallb_filter_id, forallb_forall. intros y Hy.
  destruct (eqb x y) eqn:E; [|reflexivity].
  apply eqb_spec in E. now subst.
Qed.

Lemma existsb_eqb (x : A) (l : list A) :
  existsb (eqb x) l = true <-> In x l.
Proof.
  rewrite existsb_exists. split.
  - intros [y [Hy E]]. apply eqb_spec in E. now subst.
  - intros H. exists x. split; [exact H|]. now apply eqb_spec.
Qed.

End Unique.

Lemma pair_eqb_spec (x y : string * string) : pair_eqb x y = true <-> x = y.
Proof.
  destruct x as [a b], y as [c d]. unfold pair_eqb. simpl.
  rewrite andb_true_iff, !String.eqb_eq. split.
  - now intros [-> ->].
  - intros H. now injection H.
Qed.

Lemma NoDup_pairs (Ws Cs : list string) :
  NoDup Ws -> NoDup Cs -> NoDup (pairs Ws Cs).
Proof.
  intros HW HC. induction HW as [|w Ws Hw _ IH]; simpl; [constructor|].
  apply NoDup_app.
  - clear -HC. induction HC as [|c Cs Hc _ IHC]; simpl; constructor;
      [|exact IHC].
    intros H. apply in_map_iff in H. destruct H as [c' [Heq Hc']].
    injection Heq as ->. contradiction.
  - exact IH.
  - intros [w' c'] H1 H2. apply in_map_iff in H1.
    destruct H1 as [c [Heq _]]. injection Heq as <- <-.
    apply in_pairs in H2. tauto.
Qed.

Lemma Qgtb_lt (x y : Q) : Qgtb x y = true <-> y < x.
Proof.
  unfold Qgtb. rewrite negb_true_iff. split.
  - intros H. destruct (Qlt_le_dec y x) as [Hlt|Hle]; [exact Hlt|].
    apply Qle_bool_iff in Hle. congruence.
  - intros H. destruct (Qle_bool x y) eqn:E; [|reflexivity].
    apply Qle_bool_iff in E. lra.
Qed.

(** *** Tables with unique identifiers *)

Lemma filter_none {A} (p : A -> bool) (l : list A) :
  (forall z, In z l -> p z = false) -> filter p l = [].
Proof.
  induction l as [|y l IH]; intros H; simpl; [reflexivity|].
  rewrite (H y (or_introl eq_refl)). apply IH.
  intros z Hz. apply H. now right.
Qed.

Lemma filter_key_nodup {A} (key : A -> string) (l : list A) (r : A) :
  NoDup (map key l) -> In r l ->
  filter (fun r' => String.eqb (key r') (key r)) l = [r].
Proof.
  induction l as [|y l IH]; intros Hnd Hin; [contradiction|].
  simpl in Hnd. apply NoDup_cons_iff in Hnd. destruct Hnd as [Hy Hnd].
  simpl. destruct Hin as [->|Hin].
  - rewrite String.eqb_refl. f_equal.
    apply filter_none. intros z Hz.
    destruct (String.eqb (key z) (key r)) eqn:E; [|reflexivity].
    apply String.eqb_eq in E. exfalso. apply Hy. rewrite <- E.
    now apply in_map.
  - destruct (String.eqb (key y) (key r)) eqn:E.
    + apply String.eqb_eq in E. exfalso. apply Hy. rewrite E.
      now apply in_map.
    + now apply IH.
Qed.

Lemma demand_of_row (customers_df : list customer) (r : customer) :
  NoDup (map customer_id customers_df) -> In r customers_df ->
  demand_of customers_df (customer_id r) = Return (monthly_demand_kg r).
Proof.
  intros Hnd Hin. unfold demand_of.
  now rewrite (filter_key_nodup customer_id customers_df r Hnd Hin).
Qed.

Lemma capacity_of_row (warehouses_df : list warehouse) (r : warehouse) :
  NoDup (map warehouse_id warehouses_df) -> In r warehouses_df ->
  capacity_of warehouses_df (warehouse_id r) = Return (monthly_capacity r).
Proof.
  intros Hnd Hin. unfold capacity_of.
  now rewrite (filter_key_nodup warehouse_id warehouses_df r Hnd Hin).
Qed.

Lemma Qsum_swap {A B} (f : A -> B -> Q) (l1 : list A) (l2 : list B) :
  Qsum (map (fun x => Qsum (map (fun y => f x y) l2)) l1) ==
  Qsum (map (fun y => Qsum (map (fun x => f x y) l1)) l2).
Proof.
  induction l1 as [|x l1 IH]; simpl.
  - rewrite Qsum_nil. symmetry. apply Qsum_map_zero. intros y _.
    apply Qsum_nil.
  - rewrite Qsum_cons, IH, <- Qsum_map_plus.
    apply Qsum_map_eq. intros y _. rewrite Qsum_cons. reflexivity.
Qed.

Lemma Qsum_indicator {A} (x : A -> bool) (l : list A) :
  Qsum (map (fun r => if x r then 1 else 0) l)
  == inject_Z (Z.of_nat (List.length (filter x l))).
Proof.
  induction l as [|r l IH]; simpl; [reflexivity|].
  rewrite Qsum_cons, IH. destruct (x r).
  - cbn [List.length]. rewrite Nat2Z.inj_succ. unfold Z.succ.
    rewrite inject_Z_plus. change (inject_Z 1) with 1. lra.
  - lra.
Qed.

Lemma Forall2_Forall_r {A B} (R : A -> B -> Prop) (P : B -> Prop)
    (l : list A) (ys : list B) :
  Forall2 R l ys -> (forall x y, In x l -> R x y -> P y) -> Forall P ys.
Proof.
  induction 1 as [|x y l ys Hxy _ IH]; intros H; constructor.
  - apply (H x y); [now left|exact Hxy].
  - apply IH. intros x' y' Hin. apply H. now right.
Qed.

(** *** The two extraction loops *)

Section Extraction.

Variable np_round2 : Q -> Q.
Variable sol : solver_result.
Variable ship_vars : list (string * string).
Variable customers_df : list customer.
Variable warehouses_df : list warehouse.
Variable transport_df : list route.

Local Abbreviation val := (varValue sol).
Local Abbreviation activated := (Optimize.activated sol).
Local Abbreviation retained := (Optimize.retained sol).
Local Abbreviation fixed_or_zero := (Optimize.fixed_or_zero warehouses_df).
Local Abbreviation cost_or_zero := (Optimize.cost_or_zero transport_df).
Local Abbreviation shipment_of := (Optimize.shipment_of np_round2
    sol transport_df).

Lemma select_loop_spec (keys : list string) :
  forall sel0 tf0 sel tf,
    select_loop sol ship_vars customers_df warehouses_df keys sel0 tf0
      = Return (sel, tf) ->
    sel = sel0 ++ filter activated keys /\
    tf == tf0 + Qsum (map fixed_or_zero (filter activated keys)).
Proof.
  induction keys as [|w keys IH]; intros sel0 tf0 sel tf H; simpl in H.
  - injection H as <- <-. simpl. rewrite app_nil_r, Qsum_nil. split;
      [reflexivity|lra].
  - simpl. fold (activated w) in H.
    destruct (activated w) eqn:Eact.
    + simpl. rewrite Qsum_cons. unfold Optimize.fixed_or_zero at 1.
      destruct (fixed_cost_of warehouses_df w) as [f|]; simpl in H;
        [|discriminate].
      destruct (usage sol ship_vars customers_df warehouses_df w);
        simpl in H; [|discriminate].
      apply IH in H. destruct H as [-> ->]. split.
      * now rewrite <- app_assoc.
      * lra.
    + now apply IH.
Qed.

Lemma select_loop_total (keys : list string) :
  (forall w, In w keys -> activated w = true ->
     (exists f, fixed_cost_of warehouses_df w = Return f) /\
     (exists u, usage sol ship_vars customers_df warehouses_df w = Return u)) ->
  forall sel0 tf0, exists r,
    select_loop sol ship_vars customers_df warehouses_df keys sel0 tf0
      = Return r.
Proof.
  induction keys as [|w keys IH]; intros H sel0 tf0; simpl.
  - now eexists.
  - fold (activated w). destruct (activated w) eqn:E.
    + destruct (H w (or_introl eq_refl) E) as [[f ->] [u ->]]. simpl.
      apply IH. intros w' Hw'. apply H. now right.
    + apply IH. intros w' Hw'. apply H. now right.
Qed.

Lemma transport_loop_spec (selected : list string)
    (items : list (string * string)) :
  forall tt0 sh0 tt sh,
    transport_loop np_round2 sol transport_df selected items tt0 sh0
      = Return (tt, sh) ->
    sh = sh0 ++ map shipment_of (filter (retained selected) items) /\
    tt == tt0 + Qsum (map (fun wc => val (Ship (fst wc) (snd wc))
                                     * cost_or_zero wc)
                          (filter (retained selected) items)).
Proof.
  induction items as [|[w c] items IH]; intros tt0 sh0 tt sh H; simpl in H.
  - injection H as <- <-. simpl. rewrite app_nil_r, Qsum_nil. split;
      [reflexivity|lra].
  - change (Qgtb (val (Ship w c)) (1 # 10)
            && existsb (String.eqb w) selected)
      with (retained selected (w, c)) in H.
    simpl. destruct (retained selected (w, c)) eqn:E.
    + simpl. rewrite Qsum_cons.
      unfold Optimize.shipment_of at 1. unfold Optimize.cost_or_zero at 1 2. simpl.
      destruct (cost_of transport_df w c) as [k|]; simpl in H;
        [|discriminate].
      apply IH in H. destruct H as [-> ->]. split.
      * now rewrite <- app_assoc.
      * lra.
    + now apply IH.
Qed.

Lemma transport_loop_total (selected : list string)
    (items : list (string * string)) :
  (forall wc, In wc items ->
              exists k, cost_of transport_df (fst wc) (snd wc) = Return k) ->
  forall tt0 sh0, exists r,
    transport_loop np_round2 sol transport_df selected items tt0 sh0 = Return r.
Proof.
  induction items as [|[w c] items IH]; intros H tt0 sh0; simpl.
  - now eexists.
  - destruct (H (w, c) (or_introl eq_refl)) as [k Hk]. simpl in Hk.
    rewrite Hk. simpl.
    destruct (Qgtb _ _ && _); apply IH; intros wc Hwc; apply H; now right.
Qed.

(** The result of an Optimal solve, in closed form. *)
Lemma analyze_spec (open_vars : list string) (sh : list shipment)
    (sel : list string) (tf tt : Q) :
  analyze np_round2 sol ship_vars customers_df warehouses_df
      transport_df open_vars
    = Return (Some (sh, sel, tf, tt)) ->
  status sol = 1%Z /\
  sel = filter activated open_vars /\
  sh = map shipment_of (filter (retained sel) ship_vars) /\
  tf == Qsum (map fixed_or_zero sel) /\
  tt == Qsum (map (fun wc => val (Ship (fst wc) (snd wc)) * cost_or_zero wc)
                  (filter (retained sel) ship_vars)).
Proof.
  unfold analyze. intros H.
  destruct (Z.eqb (status sol) 1) eqn:Est; simpl in H; [|discriminate].
  apply Z.eqb_eq in Est.
  destruct (select_loop _ _ _ _ open_vars [] 0) as [[sel' tf']|] eqn:Es;
    simpl in H; [|discriminate].
  destruct (transport_loop _ _ _ sel' ship_vars 0 []) as [[tt' sh']|] eqn:Et;
    simpl in H; [|discriminate].
  injection H as <- <- <- <-.
  apply select_loop_spec in Es. destruct Es as [Hsel Htf].
  apply transport_loop_spec in Et. destruct Et as [Hsh Htt].
  simpl in Hsel, Hsh. subst sel'.
  repeat split; try assumption; try reflexivity; lra.
Qed.

End Extraction.

(** *** What a feasible assignment of a built model satisfies *)

Section Feasible.

Variable customers_df : list customer.
Variable warehouses_df : list warehouse.
Variable transport_df : list route.
Variables MIN_WAREHOUSES MAX_WAREHOUSES : nat.
Variable model : lpmodel.
Variable open_vars : list string.
Variable ship_vars : list (string * string).
Variable a : assignment.

Hypothesis Hbuilt :
  build_optimization_model customers_df warehouses_df transport_df
    MIN_WAREHOUSES MAX_WAREHOUSES = Return (model, open_vars, ship_vars).
Hypothesis Hfeasible : feasible model open_vars ship_vars a.

Local Abbreviation W := (map warehouse_id warehouses_df).
Local Abbreviation C := (map customer_id customers_df).

Lemma built_open_vars (w : string) : In w open_vars <-> In w W.
Proof.
  destruct (built_inv _ _ _ _ _ _ _ _ Hbuilt)
    as (ft & tt & dc & cc & sc & _ & _ & _ & _ & _ & _ & _ & Hov & _).
  rewrite Hov. apply in_unique, String.eqb_eq.
Qed.

Lemma built_ship_vars (w c : string) :
  In (w, c) ship_vars <-> In w W /\ In c C.
Proof.
  destruct (built_inv _ _ _ _ _ _ _ _ Hbuilt)
    as (ft & tt & dc & cc & sc & _ & _ & _ & _ & _ & _ & _ & _ & Hsv).
  rewrite Hsv, (in_unique pair_eqb pair_eqb_spec). apply in_pairs.
Qed.

Lemma feasible_holds (k : lpconstraint) :
  In k (constraints model) -> holds a k.
Proof.
  destruct Hfeasible as [_ H]. rewrite Forall_forall in H. apply H.
Qed.

Lemma feasible_binary (w : string) :
  In w W -> a (Open w) == 0 \/ a (Open w) == 1.
Proof.
  intros Hw. destruct Hfeasible as [[H _] _]. apply H.
  now apply built_open_vars.
Qed.

Lemma feasible_nonneg (w c : string) :
  In w W -> In c C -> 0 <= a (Ship w c).
Proof.
  intros Hw Hc. destruct Hfeasible as [[_ H] _]. apply H.
  now apply built_ship_vars.
Qed.

Lemma feasible_demand (c : string) :
  In c C ->
  exists demand,
    demand_of customers_df c = Return demand /\
    Qsum (map (fun w => a (Ship w c)) W) == demand.
Proof.
  intros Hc.
  destruct (built_demand _ _ _ _ _ _ _ _ Hbuilt c Hc) as [d [Hd Hin]].
  exists d. split; [exact Hd|].
  apply feasible_holds in Hin. unfold holds in Hin. simpl in Hin.
  rewrite eval_lpSum, eval_const, map_map in Hin. exact Hin.
Qed.

Lemma feasible_capacity (w : string) :
  In w W ->
  exists capacity,
    capacity_of warehouses_df w = Return capacity /\
    Qsum (map (fun c => a (Ship w c)) C) <= capacity * a (Open w).
Proof.
  intros Hw.
  destruct (built_capacity _ _ _ _ _ _ _ _ Hbuilt w Hw) as [cap [Hcap Hin]].
  exists cap. split; [exact Hcap|].
  apply feasible_holds in Hin. unfold holds in Hin. simpl in Hin.
  rewrite eval_lpSum, eval_scaled, map_map in Hin. exact Hin.
Qed.

Lemma feasible_route (w c : string) :
  In w W -> In c C ->
  exists capacity,
    capacity_of warehouses_df w = Return capacity /\
    a (Ship w c) <= capacity * a (Open w).
Proof.
  intros Hw Hc.
  destruct (built_shipping _ _ _ _ _ _ _ _ Hbuilt w c Hw Hc)
    as [cap [Hcap Hin]].
  exists cap. split; [exact Hcap|].
  apply feasible_holds in Hin. unfold holds in Hin. simpl in Hin.
  rewrite eval_lpSum, eval_scaled in Hin. simpl in Hin.
  rewrite Qsum_cons, Qsum_nil in Hin. lra.
Qed.

(** A warehouse that carries flow is open. *)
Lemma feasible_flow_open (w c : string) :
  In w W -> In c C -> 0 < a (Ship w c) -> a (Open w) == 1.
Proof.
  intros Hw Hc Hpos.
  destruct (feasible_route w c Hw Hc) as [cap [_ Hle]].
  destruct (feasible_binary w Hw) as [H0|H1]; [|exact H1].
  rewrite H0 in Hle. lra.
Qed.

End Feasible.

Section ExtractFeasible.

Variable solve : lpmodel -> solver_result.
Variable np_round2 : Q -> Q.
Variable customers_df : list customer.
Variable warehouses_df : list warehouse.
Variable transport_df : list route.
Variables MIN_WAREHOUSES MAX_WAREHOUSES : nat.
Variable model : lpmodel.
Variable open_vars : list string.
Variable ship_vars : list (string * string).

Hypothesis Hbuilt :
  build_optimization_model customers_df warehouses_df transport_df
    MIN_WAREHOUSES MAX_WAREHOUSES = Return (model, open_vars, ship_vars).
Hypothesis Hfeasible :
  feasible model open_vars ship_vars (varValue (solve model)).

Local Abbreviation W := (map warehouse_id warehouses_df).
Local Abbreviation C := (map customer_id customers_df).
Local Abbreviation sol := (solve model).
Local Abbreviation val := (varValue (solve model)).

Lemma activated_open (w : string) :
  In w W -> (activated sol w = true <-> val (Open w) == 1).
Proof.
  intros Hw. unfold Optimize.activated. rewrite Qgtb_lt.
  destruct (feasible_binary _ _ _ _ _ _ _ _ _ Hbuilt Hfeasible w Hw)
    as [H|H]; rewrite H; split; intros; lra.
Qed.

(** On a feasible assignment the membership test of the transport loop is
    redundant: a flow above the threshold leaves an activated warehouse. *)
Lemma retained_threshold (w c : string) :
  In w W -> In c C ->
  retained sol (filter (activated sol) open_vars) (w, c)
  = Qgtb (val (Ship w c)) (1 # 10).
Proof.
  intros Hw Hc. unfold Optimize.retained. simpl.
  destruct (Qgtb (val (Ship w c)) (1 # 10)) eqn:E; [|reflexivity].
  simpl. apply (existsb_eqb String.eqb String.eqb_eq).
  apply filter_In. split.
  - now apply (built_open_vars _ _ _ _ _ _ _ _ Hbuilt).
  - apply activated_open; [exact Hw|].
    apply (feasible_flow_open _ _ _ _ _ _ _ _ _ Hbuilt Hfeasible w c Hw Hc).
    apply Qgtb_lt in E. lra.
Qed.

End ExtractFeasible.

(** *** Rounding to the hundredth *)

Lemma round_half_even_close (x : Q) :
  x - (1 # 2) <= inject_Z (round_half_even x) <= x + (1 # 2).
Proof.
  unfold round_half_even.
  pose proof (Qfloor_le x) as Hlo. pose proof (Qlt_floor x) as Hhi.
  rewrite inject_Z_plus in Hhi. change (inject_Z 1) with 1 in Hhi.
  destruct (Qcompare (x - inject_Z (Qfloor x)) (1 # 2)) eqn:E.
  - apply Qeq_alt in E.
    destruct (Z.even (Qfloor x));
      [|rewrite inject_Z_plus; change (inject_Z 1) with 1]; lra.
  - apply Qlt_alt in E. lra.
  - apply Qgt_alt in E. rewrite inject_Z_plus. change (inject_Z 1) with 1.
    lra.
Qed.

Lemma round2_close (x : Q) : x - (1 # 200) <= round2 x <= x + (1 # 200).
Proof.
  unfold round2. pose proof (round_half_even_close (x * 100)) as H.
  set (r := inject_Z (round_half_even (x * 100))) in *.
  assert (Hr : r / 100 == r * (1 # 100)) by (unfold Qdiv; reflexivity).
  rewrite Hr. lra.
Qed.

(** *** Extraction from a built model *)

Section ExtractBuilt.

Variable solve : lpmodel -> solver_result.
Variable np_round2 : Q -> Q.
Variable customers_df : list customer.
Variable warehouses_df : list warehouse.
Variable transport_df : list route.
Variables MIN_WAREHOUSES MAX_WAREHOUSES : nat.
Variable model : lpmodel.
Variable open_vars : list string.
Variable ship_vars : list (string * string).

Hypothesis Hbuilt :
  build_optimization_model customers_df warehouses_df transport_df
    MIN_WAREHOUSES MAX_WAREHOUSES = Return (model, open_vars, ship_vars).

Local Abbreviation W := (map warehouse_id warehouses_df).
Local Abbreviation C := (map customer_id customers_df).
Local Abbreviation sol := (solve model).
Local Abbreviation val := (varValue (solve model)).

Lemma built_shipped (w : string) :
  In w W ->
  shipped sol ship_vars customers_df w
  = Return (Qsum (map (fun c => val (Ship w c)) C)).
Proof.
  intros Hw. unfold shipped.
  rewrite (mapM_pure _ (fun c => val (Ship w c))); [reflexivity|].
  intros c Hc. unfold ship_value.
  replace (existsb (pair_eqb (w, c)) ship_vars) with true; [reflexivity|].
  symmetry. apply (existsb_eqb pair_eqb pair_eqb_spec).
  now apply (built_ship_vars _ _ _ _ _ _ _ _ Hbuilt).
Qed.

Lemma built_usage (w : string) :
  In w W ->
  exists capacity,
    capacity_of warehouses_df w = Return capacity /\
    usage sol ship_vars customers_df warehouses_df w
    = Return (Transform.fmul
                (Transform.fdiv
                   (Transform.Fin (Qsum (map (fun c => val (Ship w c)) C)))
                   (Transform.Fin capacity))
                (Transform.Fin 100)).
Proof.
  intros Hw.
  destruct (built_capacity _ _ _ _ _ _ _ _ Hbuilt w Hw) as [cap [Hcap _]].
  exists cap. split; [exact Hcap|].
  unfold usage. rewrite Hcap. simpl. now rewrite built_shipped.
Qed.

(** On a built model the extraction of an Optimal solve raises nothing and
    returns a result. *)
Lemma built_analyze_total :
  status sol = 1%Z ->
  exists sh sel tf tt,
    solve_and_analyze solve np_round2 model open_vars ship_vars customers_df
      warehouses_df transport_df = Return (Some (sh, sel, tf, tt)).
Proof.
  intros Hst. unfold solve_and_analyze, analyze. rewrite Hst. simpl.
  destruct (select_loop_total sol ship_vars customers_df warehouses_df
              open_vars) with (sel0 := @nil string) (tf0 := 0)
    as [[sel tf] Hsel].
  { intros w Hw _. apply (built_open_vars _ _ _ _ _ _ _ _ Hbuilt) in Hw.
    split.
    - exact (built_fixed_cost _ _ _ _ _ _ _ _ Hbuilt w Hw).
    - destruct (built_usage w Hw) as [cap [_ Hu]]. eauto. }
  rewrite Hsel. simpl.
  destruct (transport_loop_total np_round2 sol transport_df sel ship_vars)
    with (tt0 := 0) (sh0 := @nil shipment) as [[tt sh] Htr].
  { intros [w c] Hwc. simpl.
    apply (built_ship_vars _ _ _ _ _ _ _ _ Hbuilt) in Hwc.
    destruct Hwc as [Hw Hc].
    exact (built_cost _ _ _ _ _ _ _ _ Hbuilt w c Hw Hc). }
  rewrite Htr. simpl. now exists sh, sel, tf, tt.
Qed.

(** The objective value, term by term. *)
Lemma built_objective_value :
  objective_value model sol ==
  Qsum (map (fun w => fixed_or_zero warehouses_df w * val (Open w)) W) +
  Qsum (map (fun wc => cost_or_zero transport_df wc
                       * val (Ship (fst wc) (snd wc))) (pairs W C)).
Proof.
  destruct (built_inv _ _ _ _ _ _ _ _ Hbuilt)
    as (ft & tt & dc & cc & sc & Hft & Htt & _ & _ & _ & Hobj & _).
  unfold objective_value, eval. rewrite Hobj. simpl.
  rewrite map_app, Qsum_app.
  apply mapM_Forall2 in Hft. apply mapM_Forall2 in Htt.
  rewrite <- (Qsum_Forall2 _ (fun w => fixed_or_zero warehouses_df w
                                       * val (Open w)) _ _ _ Hft).
  2:{ intros w t Hwt. unfold fixed_or_zero.
      destruct (fixed_cost_of warehouses_df w); simpl in Hwt;
        [|discriminate].
      injection Hwt as <-. reflexivity. }
  rewrite <- (Qsum_Forall2 _ (fun wc => cost_or_zero transport_df wc
                                        * val (Ship (fst wc) (snd wc)))
                _ _ _ Htt).
  2:{ intros wc t Hwt. unfold cost_or_zero.
      destruct (cost_of transport_df (fst wc) (snd wc)); simpl in Hwt;
        [|discriminate].
      injection Hwt as <-. reflexivity. }
  lra.
Qed.

End ExtractBuilt.

Lemma cost_or_zero_nonneg (transport_df : list route) (wc : string * string) :
  (forall r, In r transport_df -> 0 <= cost_per_kg r) ->
  0 <= cost_or_zero transport_df wc.
Proof.
  intros H. unfold cost_or_zero, cost_of.
  destruct (filter _ transport_df) as [|r l] eqn:E; simpl; [lra|].
  apply H.
  assert (Hin : In r (r :: l)) by now left.
  rewrite <- E in Hin. apply filter_In in Hin. tauto.
Qed.

Section ExtractOptimal.

Variable solve : lpmodel -> solver_result.
Variable np_round2 : Q -> Q.
Variable customers_df : list customer.
Variable warehouses_df : list warehouse.
Variable transport_df : list route.
Variables MIN_WAREHOUSES MAX_WAREHOUSES : nat.
Variable model : lpmodel.
Variable open_vars : list string.
Variable ship_vars : list (string * string).

Hypothesis Hbuilt :
  build_optimization_model customers_df warehouses_df transport_df
    MIN_WAREHOUSES MAX_WAREHOUSES = Return (model, open_vars, ship_vars).
Hypothesis Hfeasible :
  feasible model open_vars ship_vars (varValue (solve model)).

Local Abbreviation W := (map warehouse_id warehouses_df).
Local Abbreviation C := (map customer_id customers_df).
Local Abbreviation sol := (solve model).
Local Abbreviation val := (varValue (solve model)).
Local Abbreviation selected := (filter (activated sol) open_vars).

(** A flow that is not retained lies between 0 and the threshold. *)
Lemma dropped_flow_small (w c : string) :
  In w W -> In c C ->
  retained sol selected (w, c) = false ->
  0 <= val (Ship w c) <= 1 # 10.
Proof.
  intros Hw Hc Hret.
  rewrite (retained_threshold solve _ _ _ _ _ _ _ _ Hbuilt Hfeasible w c Hw Hc)
    in Hret.
  split.
  - exact (feasible_nonneg _ _ _ _ _ _ _ _ _ Hbuilt Hfeasible w c Hw Hc).
  - destruct (Qlt_le_dec (1 # 10) (val (Ship w c))) as [H|H]; [|exact H].
    apply Qgtb_lt in H. congruence.
Qed.

Hypothesis HW : NoDup W.
Hypothesis HC : NoDup C.

Lemma built_open_vars_nodup : open_vars = W.
Proof.
  destruct (built_inv _ _ _ _ _ _ _ _ Hbuilt)
    as (ft & tt & dc & cc & sc & _ & _ & _ & _ & _ & _ & _ & Hov & _).
  rewrite Hov. apply unique_id; [apply String.eqb_eq|exact HW].
Qed.

Lemma built_ship_vars_nodup : ship_vars = pairs W C.
Proof.
  destruct (built_inv _ _ _ _ _ _ _ _ Hbuilt)
    as (ft & tt & dc & cc & sc & _ & _ & _ & _ & _ & _ & _ & _ & Hsv).
  rewrite Hsv. apply unique_id; [apply pair_eqb_spec|].
  now apply NoDup_pairs.
Qed.

(** The quantity the shipment table brings to a customer: the rounded
    flows above the threshold. *)
Lemma inbound_closed_form (c : string) :
  In c C ->
  inbound (map (shipment_of np_round2 sol transport_df)
             (filter (retained sol selected) ship_vars)) c ==
  Qsum (map (fun w => if retained sol selected (w, c)
                      then round2 (val (Ship w c)) else 0) W).
Proof.
  intros Hc. unfold inbound.
  rewrite filter_map_comm, map_map. simpl.
  rewrite (Qsum_filter _ (fun wc => String.eqb (snd wc) c)).
  rewrite (Qsum_filter _ (retained sol selected)).
  rewrite built_ship_vars_nodup. unfold pairs at 1.
  rewrite Qsum_flat_map.
  apply Qsum_map_eq. intros w Hw. rewrite map_map. simpl.
  rewrite <- (Qsum_pick (fun c' => if retained sol selected (w, c')
                                   then round2 (val (Ship w c')) else 0)
                C c HC Hc).
  apply Qsum_map_eq. intros c' Hc'.
  destruct (retained sol selected (w, c')), (String.eqb c' c); reflexivity.
Qed.

Lemma inbound_term_bounds (w c : string) :
  In w W -> In c C ->
  val (Ship w c) + - (21 # 200)
  <= (if retained sol selected (w, c) then round2 (val (Ship w c)) else 0)
  <= val (Ship w c) + (1 # 200).
Proof.
  intros Hw Hc.
  destruct (retained sol selected (w, c)) eqn:E.
  - pose proof (round2_close (val (Ship w c))). lra.
  - pose proof (dropped_flow_small w c Hw Hc E). lra.
Qed.

Lemma fixed_total_closed_form :
  Qsum (map (fixed_or_zero warehouses_df) selected) ==
  Qsum (map (fun w => fixed_or_zero warehouses_df w * val (Open w)) W).
Proof.
  rewrite built_open_vars_nodup, Qsum_filter.
  apply Qsum_map_eq. intros w Hw.
  pose proof (activated_open solve _ _ _ _ _ _ _ _ Hbuilt Hfeasible w Hw)
    as Hact.
  destruct (feasible_binary _ _ _ _ _ _ _ _ _ Hbuilt Hfeasible w Hw)
    as [H0|H1].
  - destruct (activated sol w).
    + assert (val (Open w) == 1) by now apply Hact. lra.
    + rewrite H0. lra.
  - rewrite (proj2 Hact H1), H1. lra.
Qed.

Lemma transport_term_bounds (wc : string * string) :
  (forall r, In r transport_df -> 0 <= cost_per_kg r) ->
  In wc (pairs W C) ->
  (if retained sol selected wc
   then val (Ship (fst wc) (snd wc)) * cost_or_zero transport_df wc else 0)
  <= cost_or_zero transport_df wc * val (Ship (fst wc) (snd wc))
  <= (if retained sol selected wc
      then val (Ship (fst wc) (snd wc)) * cost_or_zero transport_df wc
      else 0)
     + (1 # 10) * cost_or_zero transport_df wc.
Proof.
  intros Hcost Hin. destruct wc as [w c]. apply in_pairs in Hin.
  destruct Hin as [Hw Hc].
  pose proof (cost_or_zero_nonneg transport_df (w, c) Hcost) as Hk.
  set (k := cost_or_zero transport_df (w, c)) in *. simpl.
  destruct (retained sol selected (w, c)) eqn:E.
  - lra.
  - destruct (dropped_flow_small w c Hw Hc E) as [Hlo Hhi].
    pose proof (Qmult_le_0_compat _ _ Hk Hlo).
    assert (Hd : 0 <= (1 # 10) - val (Ship w c)) by lra.
    pose proof (Qmult_le_0_compat _ _ Hk Hd).
    lra.
Qed.

End ExtractOptimal.

(** *** The two sample instances *)

Lemma tight_built :
  build_optimization_model Samples.tight_demand Samples.two_warehouses
    Samples.two_routes 2 2
  = Return (Samples.tight_model, ["W1"; "W2"]%string,
            [("W1", "C1"); ("W2", "C1")]%string).
Proof. reflexivity. Qed.

Lemma idle_built :
  build_optimization_model Samples.half_demand Samples.free_warehouses
    Samples.near_routes 1 2
  = Return (Samples.idle_model, ["W1"; "W2"]%string,
            [("W1", "C1"); ("W2", "C1")]%string).
Proof. reflexivity. Qed.

(** The facts a feasible assignment of a two-warehouse, one-customer
    model gives, as linear arithmetic. *)
Ltac feasible_facts H :=
  let Hd := fresh "Hdom" in
  let Hc := fresh "Hcons" in
  destruct H as [[Hd Hn] Hc];
  pose proof (Hd "W1"%string (or_introl eq_refl));
  pose proof (Hd "W2"%string (or_intror (or_introl eq_refl)));
  pose proof (Hn "W1"%string "C1"%string (or_introl eq_refl));
  pose proof (Hn "W2"%string "C1"%string (or_intror (or_introl eq_refl)));
  cbv [Samples.tight_model Samples.idle_model constraints] in Hc;
  repeat match goal with
         | H : Forall _ (_ :: _) |- _ =>
             apply Forall_cons_iff in H; destruct H as [? H]
         end;
  unfold holds, eval, Qsum in *; simpl in *.

Lemma tight_plan_feasible :
  feasible Samples.tight_model ["W1"; "W2"]%string
    [("W1", "C1"); ("W2", "C1")]%string Samples.tight_plan.
Proof.
  split; [split|].
  - intros w _. right. reflexivity.
  - intros w c [H|[H|[]]]; injection H as <- <-; vm_compute; discriminate.
  - repeat constructor; vm_compute; try reflexivity; discriminate.
Qed.

Lemma tight_plan_optimal :
  optimal Samples.tight_model ["W1"; "W2"]%string
    [("W1", "C1"); ("W2", "C1")]%string Samples.tight_plan.
Proof.
  split; [exact tight_plan_feasible|].
  intros a' Hf. feasible_facts Hf.
  unfold eval, Qsum. simpl.
  repeat match goal with H : _ \/ _ |- _ => destruct H end; lra.
Qed.

Lemma idle_plan_feasible :
  feasible Samples.idle_model ["W1"; "W2"]%string
    [("W1", "C1"); ("W2", "C1")]%string Samples.idle_plan.
Proof.
  split; [split|].
  - intros w _. right. reflexivity.
  - intros w c [H|[H|[]]]; injection H as <- <-; vm_compute; discriminate.
  - repeat constructor; vm_compute; try reflexivity; discriminate.
Qed.

Lemma idle_plan_optimal :
  optimal Samples.idle_model ["W1"; "W2"]%string
    [("W1", "C1"); ("W2", "C1")]%string Samples.idle_plan.
Proof.
  split; [exact idle_plan_feasible|].
  intros a' Hf. feasible_facts Hf.
  unfold eval, Qsum. simpl.
  repeat match goal with H : _ \/ _ |- _ => destruct H end; lra.
Qed.

(** *** The extracted flows *)



(** *** The extracted shipment plan *)

(** C2, counterexample.  On the tight instance the plan that ships 100
    from W1 and 0.05 from W2 is optimal; the extractor drops the flow of
    0.05, so the shipments into C1 sum to 100 against a demand of 100.05,
    a relative gap of about 5e-4. *)
Lemma extracted_inbound_short_of_demand :
  optimal Samples.tight_model ["W1"; "W2"]%string
    [("W1", "C1"); ("W2", "C1")]%string Samples.tight_plan /\
  solve_and_analyze (Samples.answers 1 Samples.tight_plan) Samples.np_round2
    Samples.tight_model ["W1"; "W2"]%string
    [("W1", "C1"); ("W2", "C1")]%string
    Samples.tight_demand Samples.two_warehouses Samples.two_routes
  = Return (Some ([ {| s_from := "W1"; s_to := "C1";
                       kg := 10000 # 100; cost := 10000 # 100 |} ],
                  ["W1"; "W2"]%string, 20, 100)) /\
  demand_of Samples.tight_demand "C1" = Return (2001 # 20) /\
  ~ (Qabs (inbound [ {| s_from := "W1"; s_to := "C1";
                        kg := 10000 # 100; cost := 10000 # 100 |} ] "C1" - (2001 # 20))
     <= (1 # 1000000) * (2001 # 20)).
Proof.
  split; [exact tight_plan_optimal|].
  split; [reflexivity|]. split; [reflexivity|].
  vm_compute. intros H. now apply H.
Qed.

(** C2, amended.  For every assignment that satisfies the built model
    (warehouse and customer identifiers unique) and every customer, the
    quantities of the extracted shipments into the customer sum to at most
    the demand plus 0.005 per warehouse and to at least the demand minus
    0.105 per warehouse: a flow of at most 0.1 is dropped, a retained flow
    is rounded to the hundredth. *)
Theorem inbound_near_demand
    (solve : lpmodel -> solver_result) (np_round2 : Q -> Q)
    (customers_df : list customer) (warehouses_df : list warehouse)
    (transport_df : list route) (MIN_WAREHOUSES MAX_WAREHOUSES : nat)
    (model : lpmodel) (open_vars : list string)
    (ship_vars : list (string * string))
    (shipment_df : list shipment) (selected : list string) (tf tt : Q) :
  build_optimization_model customers_df warehouses_df transport_df
    MIN_WAREHOUSES MAX_WAREHOUSES = Return (model, open_vars, ship_vars) ->
  NoDup (map warehouse_id warehouses_df) ->
  NoDup (map customer_id customers_df) ->
  feasible model open_vars ship_vars (varValue (solve model)) ->
  solve_and_analyze solve np_round2 model open_vars ship_vars customers_df
    warehouses_df transport_df
    = Return (Some (shipment_df, selected, tf, tt)) ->
  forall c, In c (map customer_id customers_df) ->
    exists demand,
      demand_of customers_df c = Return demand /\
      demand - (21 # 200) * inject_Z (Z.of_nat (List.length warehouses_df))
        <= inbound shipment_df c /\
      inbound shipment_df c
        <= demand + (1 # 200) * inject_Z (Z.of_nat (List.length warehouses_df)).
Proof.
  intros Hb HW HC Hf Hres c Hc.
  apply analyze_spec in Hres.
  destruct Hres as (_ & Hsel & Hsh & _ & _). subst selected shipment_df.
  destruct (feasible_demand _ _ _ _ _ _ _ _ _ Hb Hf c Hc) as [d [Hd Hsum]].
  exists d. split; [exact Hd|].
  rewrite (inbound_closed_form solve np_round2 _ _ _ _ _ _ _ _ Hb HW HC c Hc).
  set (W := map warehouse_id warehouses_df) in *.
  set (T := fun w => if retained (solve model)
                          (filter (activated (solve model)) open_vars) (w, c)
                     then round2 (varValue (solve model) (Ship w c)) else 0).
  assert (Hlen : inject_Z (Z.of_nat (List.length warehouses_df))
                 == inject_Z (Z.of_nat (List.length W)))
    by (unfold W; now rewrite length_map).
  assert (Hlo : Qsum (map (fun w => varValue (solve model) (Ship w c)
                                    + - (21 # 200)) W)
                <= Qsum (map T W)).
  { apply Qsum_map_le. intros w Hw.
    apply (inbound_term_bounds solve _ _ _ _ _ _ _ _ Hb Hf w c Hw Hc). }
  assert (Hhi : Qsum (map T W)
                <= Qsum (map (fun w => varValue (solve model) (Ship w c)
                                       + (1 # 200)) W)).
  { apply Qsum_map_le. intros w Hw.
    apply (inbound_term_bounds solve _ _ _ _ _ _ _ _ Hb Hf w c Hw Hc). }
  rewrite Qsum_map_plus, Qsum_map_const in Hlo, Hhi.
  fold T. lra.
Qed.

Lemma inbound_near_demand_witness :
  exists demand,
    demand_of Samples.tight_demand "C1" = Return demand /\
    demand - (21 # 200) * 2
      <= inbound [ {| s_from := "W1"; s_to := "C1";
                      kg := 10000 # 100; cost := 10000 # 100 |} ] "C1" /\
    inbound [ {| s_from := "W1"; s_to := "C1"; kg := 10000 # 100; cost := 10000 # 100 |} ]
            "C1"
      <= demand + (1 # 200) * 2.
Proof.
  apply (inbound_near_demand (Samples.answers 1 Samples.tight_plan)
      Samples.np_round2
           Samples.tight_demand Samples.two_warehouses Samples.two_routes
           2 2 Samples.tight_model ["W1"; "W2"]%string
           [("W1", "C1"); ("W2", "C1")]%string _ ["W1"; "W2"]%string 20 100).
  - reflexivity.
  - repeat constructor; simpl; intuition discriminate.
  - repeat constructor; simpl; intuition discriminate.
  - exact tight_plan_feasible.
  - reflexivity.
  - left. reflexivity.
Defined.

(** *** The cost breakdown *)

(** C5, counterexample.  On the tight instance with the optimal plan the
    objective value is 170, the extractor returns a fixed total of 20 and
    a transport total of 100, and the run completes with these totals:
    the gap of 50 (the dropped flow of 0.05 at 1000 per unit) raises
    nothing. *)
Lemma cost_mismatch_is_not_raised :
  optimal Samples.tight_model ["W1"; "W2"]%string
    [("W1", "C1"); ("W2", "C1")]%string Samples.tight_plan /\
  objective_value Samples.tight_model
    (Samples.answers 1 Samples.tight_plan Samples.tight_model) == 170 /\
  fst (main (Samples.answers 1 Samples.tight_plan)
      Samples.np_round2 Samples.tight_world)
  = Return (Some ([ {| s_from := "W1"; s_to := "C1";
                       kg := 10000 # 100; cost := 10000 # 100 |} ],
                  ["W1"; "W2"]%string, 20, 100)) /\
  ~ (Qabs (20 + 100 - 170) <= 1).
Proof.
  split; [exact tight_plan_optimal|].
  split; [reflexivity|]. split; [reflexivity|].
  vm_compute. intros H. now apply H.
Qed.

(** C5, amended.  For every Optimal status on a built model the extractor
    returns its totals without comparing them with the objective value and
    raises nothing.  When the assignment satisfies the model, identifiers
    are unique and route costs are not negative, the fixed total plus the
    transport total is at most the objective value and falls short of it
    by at most 0.1 times the sum of the route costs (the cost of the
    dropped flows). *)
Theorem cost_breakdown_not_verified
    (solve : lpmodel -> solver_result) (np_round2 : Q -> Q)
    (customers_df : list customer) (warehouses_df : list warehouse)
    (transport_df : list route) (MIN_WAREHOUSES MAX_WAREHOUSES : nat)
    (model : lpmodel) (open_vars : list string)
    (ship_vars : list (string * string)) :
  build_optimization_model customers_df warehouses_df transport_df
    MIN_WAREHOUSES MAX_WAREHOUSES = Return (model, open_vars, ship_vars) ->
  status (solve model) = 1%Z ->
  exists shipment_df selected total_fixed total_transport,
    solve_and_analyze solve np_round2 model open_vars ship_vars customers_df
      warehouses_df transport_df
    = Return (Some (shipment_df, selected, total_fixed, total_transport)) /\
    (NoDup (map warehouse_id warehouses_df) ->
     NoDup (map customer_id customers_df) ->
     (forall r, In r transport_df -> 0 <= cost_per_kg r) ->
     feasible model open_vars ship_vars (varValue (solve model)) ->
     total_fixed + total_transport <= objective_value model (solve model) /\
     objective_value model (solve model) - (total_fixed + total_transport)
     <= (1 # 10) *
        Qsum (map (cost_or_zero transport_df)
                (pairs (map warehouse_id warehouses_df)
                       (map customer_id customers_df)))).
Proof.
  intros Hb Hst.
  destruct (built_analyze_total solve np_round2 _ _ _ _ _ _ _ _ Hb Hst)
    as (sh & sel & tf & tt & Hres).
  exists sh, sel, tf, tt. split; [exact Hres|].
  intros HW HC Hcost Hf.
  apply analyze_spec in Hres.
  destruct Hres as (_ & Hsel & _ & Htf & Htt). subst sel.
  rewrite (fixed_total_closed_form solve _ _ _ _ _ _ _ _ Hb Hf HW) in Htf.
  rewrite Qsum_filter in Htt.
  rewrite (built_ship_vars_nodup _ _ _ _ _ _ _ _ Hb HW HC) in Htt.
  pose proof (built_objective_value solve _ _ _ _ _ _ _ _ Hb) as Hobj.
  set (P := pairs (map warehouse_id warehouses_df)
                  (map customer_id customers_df)) in *.
  set (kept := fun wc : string * string =>
         if retained (solve model)
              (filter (activated (solve model)) open_vars) wc
         then varValue (solve model) (Ship (fst wc) (snd wc))
              * cost_or_zero transport_df wc
         else 0) in *.
  assert (Hlo : Qsum (map kept P)
                <= Qsum (map (fun wc => cost_or_zero transport_df wc
                                * varValue (solve model)
                                    (Ship (fst wc) (snd wc))) P)).
  { apply Qsum_map_le. intros wc Hwc.
    apply (transport_term_bounds solve _ _ _ _ _ _ _ _ Hb Hf wc Hcost Hwc). }
  assert (Hhi : Qsum (map (fun wc => cost_or_zero transport_df wc
                              * varValue (solve model)
                                  (Ship (fst wc) (snd wc))) P)
                <= Qsum (map (fun wc => kept wc
                                + (1 # 10) * cost_or_zero transport_df wc) P)).
  { apply Qsum_map_le. intros wc Hwc.
    apply (transport_term_bounds solve _ _ _ _ _ _ _ _ Hb Hf wc Hcost Hwc). }
  rewrite Qsum_map_plus, Qsum_map_scale in Hhi.
  lra.
Qed.

Lemma cost_breakdown_not_verified_witness :
  exists shipment_df selected total_fixed total_transport,
    solve_and_analyze (Samples.answers 1 Samples.tight_plan) Samples.np_round2
      Samples.tight_model ["W1"; "W2"]%string
      [("W1", "C1"); ("W2", "C1")]%string
      Samples.tight_demand Samples.two_warehouses Samples.two_routes
    = Return (Some (shipment_df, selected, total_fixed, total_transport)) /\
    total_fixed + total_transport
    <= objective_value Samples.tight_model
         (Samples.answers 1 Samples.tight_plan Samples.tight_model).
Proof.
  destruct (cost_breakdown_not_verified
              (Samples.answers 1 Samples.tight_plan) Samples.np_round2
              Samples.tight_demand Samples.two_warehouses Samples.two_routes
              2 2 Samples.tight_model ["W1"; "W2"]%string
              [("W1", "C1"); ("W2", "C1")]%string eq_refl eq_refl)
    as (sh & sel & tf & tt & Hres & Hbound).
  exists sh, sel, tf, tt. split; [exact Hres|].
  apply Hbound.
  - repeat constructor; simpl; intuition discriminate.
  - repeat constructor; simpl; intuition discriminate.
  - intros r [<-|[<-|[]]]; vm_compute; discriminate.
  - exact tight_plan_feasible.
Defined.

(** *** Closing an idle warehouse *)

Section CloseIdle.

Variable customers_df : list customer.
Variable warehouses_df : list warehouse.
Variable transport_df : list route.
Variable model : lpmodel.
Variable open_vars : list string.
Variable ship_vars : list (string * string).
Variable a : assignment.
Variable w0 : string.

Local Abbreviation W := (map warehouse_id warehouses_df).
Local Abbreviation C := (map customer_id customers_df).
Local Abbreviation range :=
  (capacity_range customers_df warehouses_df).

Hypothesis Hbuilt :
  build_optimization_model customers_df warehouses_df transport_df
    (fst range) (snd range) = Return (model, open_vars, ship_vars).
Hypothesis Hfeasible : feasible model open_vars ship_vars a.
Hypothesis HW : NoDup W.
Hypothesis HC : NoDup C.
Hypothesis Hw0 : In w0 W.
Hypothesis Hidle : Qsum (map (fun c => a (Ship w0 c)) C) == 0.
Hypothesis Hdemand : 0 < total_demand customers_df.

Local Abbreviation a' := (close a w0).

Lemma idle_routes_empty (c : string) : In c C -> a (Ship w0 c) == 0.
Proof.
  intros Hc.
  pose proof (Qsum_map_member (fun c => a (Ship w0 c)) C c
                (fun c' Hc' => feasible_nonneg _ _ _ _ _ _ _ _ _ Hbuilt
                                 Hfeasible w0 c' Hw0 Hc') Hc) as Hle.
  pose proof (feasible_nonneg _ _ _ _ _ _ _ _ _ Hbuilt Hfeasible w0 c Hw0 Hc).
  simpl in Hle. lra.
Qed.

Lemma close_binary (w : string) :
  In w W -> a' (Open w) == 0 \/ a' (Open w) == 1.
Proof.
  intros Hw. unfold close. destruct (String.eqb w w0).
  - left. reflexivity.
  - exact (feasible_binary _ _ _ _ _ _ _ _ _ Hbuilt Hfeasible w Hw).
Qed.

Lemma close_le (w : string) : In w W -> a' (Open w) <= a (Open w).
Proof.
  intros Hw. unfold close.
  destruct (feasible_binary _ _ _ _ _ _ _ _ _ Hbuilt Hfeasible w Hw);
    destruct (String.eqb w w0); lra.
Qed.

Lemma stays_open_value (r : warehouse) :
  In r warehouses_df ->
  a' (Open (warehouse_id r)) == (if stays_open a w0 r then 1 else 0).
Proof.
  intros Hr. unfold stays_open.
  assert (Hw : In (warehouse_id r) W) by now apply in_map.
  destruct (Qgtb (a' (Open (warehouse_id r))) (1 # 2)) eqn:E.
  - apply Qgtb_lt in E. destruct (close_binary _ Hw); lra.
  - destruct (close_binary _ Hw) as [H|H]; [exact H|].
    assert (Qgtb (a' (Open (warehouse_id r))) (1 # 2) = true)
      by (apply Qgtb_lt; lra).
    congruence.
Qed.

(** Under the closed assignment each warehouse still ships within the
    capacity it offers. *)
Lemma close_capacity (r : warehouse) :
  In r warehouses_df ->
  Qsum (map (fun c => a (Ship (warehouse_id r) c)) C)
  <= monthly_capacity r * a' (Open (warehouse_id r)).
Proof.
  intros Hr.
  assert (Hw : In (warehouse_id r) W) by now apply in_map.
  destruct (feasible_capacity _ _ _ _ _ _ _ _ _ Hbuilt Hfeasible _ Hw)
    as [cap [Hcap Hle]].
  rewrite (capacity_of_row _ _ HW Hr) in Hcap. injection Hcap as <-.
  unfold close. destruct (String.eqb (warehouse_id r) w0) eqn:E.
  - apply String.eqb_eq in E. rewrite E, Hidle. lra.
  - exact Hle.
Qed.

(** The demand is carried by the warehouses that stay open. *)
Lemma demand_le_open_capacity :
  total_demand customers_df
  <= top_capacity warehouses_df
       (List.length (filter (stays_open a w0) warehouses_df)).
Proof.
  eapply Qle_trans; [|apply picked_capacity_le_top].
  unfold total_demand.
  rewrite (Qsum_map_eq monthly_demand_kg
             (fun r => Qsum (map (fun w => a (Ship (warehouse_id w)
                                                (customer_id r)))
                               warehouses_df))).
  2:{ intros r Hr.
      assert (Hc : In (customer_id r) C) by now apply in_map.
      destruct (feasible_demand _ _ _ _ _ _ _ _ _ Hbuilt Hfeasible _ Hc)
        as [d [Hd Hsum]].
      rewrite (demand_of_row _ _ HC Hr) in Hd. injection Hd as <-.
      rewrite map_map in Hsum. symmetry. exact Hsum. }
  rewrite (Qsum_swap (fun r w => a (Ship (warehouse_id w) (customer_id r)))).
  apply Qsum_map_le. intros r Hr.
  pose proof (close_capacity r Hr) as Hcap. rewrite map_map in Hcap.
  rewrite (stays_open_value r Hr) in Hcap.
  destruct (stays_open a w0 r); lra.
Qed.

Lemma close_count :
  Qsum (map a' (map Open W))
  == inject_Z (Z.of_nat
                 (List.length (filter (stays_open a w0) warehouses_df))).
Proof.
  rewrite !map_map, <- Qsum_indicator.
  apply Qsum_map_eq. intros r Hr. now apply stays_open_value.
Qed.

Lemma close_min_warehouses :
  inject_Z (Z.of_nat (fst range)) <= Qsum (map a' (map Open W)).
Proof.
  rewrite close_count.
  pose proof demand_le_open_capacity as Hcov.
  set (k := List.length (filter (stays_open a w0) warehouses_df)) in *.
  assert (Hk : (1 <= k <= List.length warehouses_df)%nat).
  { split; [|apply filter_length_le].
    destruct k; [|lia]. unfold top_capacity in Hcov. simpl in Hcov.
    rewrite Qsum_nil in Hcov. lra. }
  pose proof (min_warehouses_le customers_df warehouses_df k Hk Hcov) as Hmin.
  rewrite <- Zle_Qle. lia.
Qed.

Lemma close_feasible : feasible model open_vars ship_vars a'.
Proof.
  destruct (built_inv _ _ _ _ _ _ _ _ Hbuilt)
    as (ft & tt & dc & cc & sc & _ & _ & Hdc & Hcc & Hsc & _ & Hcs & _).
  split; [split|].
  - intros w Hw. apply close_binary.
    now apply (built_open_vars _ _ _ _ _ _ _ _ Hbuilt).
  - intros w c Hwc. destruct Hfeasible as [[_ Hn] _]. now apply Hn.
  - rewrite Hcs.
    apply Forall_app; split; [|apply Forall_app; split;
                                [|apply Forall_app; split]].
    + apply mapM_Forall2 in Hdc.
      apply (Forall2_Forall_r _ _ _ _ Hdc). intros c k Hc Hk.
      destruct (feasible_demand _ _ _ _ _ _ _ _ _ Hbuilt Hfeasible c Hc)
        as [d [Hd Hsum]].
      rewrite Hd in Hk. simpl in Hk. injection Hk as <-.
      unfold holds. simpl. rewrite eval_lpSum, eval_const, map_map.
      exact Hsum.
    + apply mapM_Forall2 in Hcc.
      apply (Forall2_Forall_r _ _ _ _ Hcc). intros w k Hw Hk.
      apply in_map_iff in Hw. destruct Hw as [r [<- Hr]].
      rewrite (capacity_of_row _ _ HW Hr) in Hk. simpl in Hk.
      injection Hk as <-.
      unfold holds. simpl. rewrite eval_lpSum, eval_scaled, map_map.
      exact (close_capacity r Hr).
    + constructor; [|constructor; [|constructor]].
      * unfold holds. simpl. rewrite eval_lpSum, eval_const.
        exact close_min_warehouses.
      * unfold holds. simpl. rewrite eval_lpSum, eval_const.
        destruct Hfeasible as [_ Hall]. rewrite Forall_forall in Hall.
        assert (Hmax : holds a {| lhs := lpSum (map Open W); rel := LpLE;
                                  rhs := const (inject_Z
                                                  (Z.of_nat (snd range))) |}).
        { apply Hall. rewrite Hcs. apply in_or_app. right.
          apply in_or_app. right. right. now left. }
        unfold holds in Hmax. simpl in Hmax.
        rewrite eval_lpSum, eval_const in Hmax.
        eapply Qle_trans; [|exact Hmax].
        rewrite !map_map. apply Qsum_map_le. intros r Hr.
        apply close_le. now apply in_map.
    + apply mapM_Forall2 in Hsc.
      apply (Forall2_Forall_r _ _ _ _ Hsc). intros [w c] k Hwc Hk.
      apply in_pairs in Hwc. destruct Hwc as [Hw Hc]. simpl in Hk.
      destruct (feasible_route _ _ _ _ _ _ _ _ _ Hbuilt Hfeasible w c Hw Hc)
        as [cap [Hcap Hle]].
      rewrite Hcap in Hk. simpl in Hk. injection Hk as <-.
      unfold holds. simpl. rewrite eval_lpSum, eval_scaled. simpl.
      rewrite Qsum_cons, Qsum_nil. unfold close.
      destruct (String.eqb w w0) eqn:E.
      * apply String.eqb_eq in E. subst w.
        rewrite (idle_routes_empty c Hc). lra.
      * lra.
Qed.

(** Closing the warehouse saves its fixed cost. *)
Lemma close_objective :
  eval a' (objective model) ==
  eval a (objective model) - fixed_or_zero warehouses_df w0 * a (Open w0).
Proof.
  pose proof (built_objective_value
                (fun _ => {| status := 1; varValue := a' |})
                _ _ _ _ _ _ _ _ Hbuilt) as H'.
  pose proof (built_objective_value
                (fun _ => {| status := 1; varValue := a |})
                _ _ _ _ _ _ _ _ Hbuilt) as H.
  unfold objective_value in H, H'. simpl in H, H'.
  rewrite H, H'.
  rewrite <- (Qsum_pick (fun w => fixed_or_zero warehouses_df w * a (Open w))
                W w0 HW Hw0).
  assert (Hsplit :
    Qsum (map (fun w => fixed_or_zero warehouses_df w * a (Open w)) W) ==
    Qsum (map (fun w => fixed_or_zero warehouses_df w * a' (Open w)) W) +
    Qsum (map (fun w => if String.eqb w w0
                        then fixed_or_zero warehouses_df w * a (Open w)
                        else 0) W)).
  { rewrite <- Qsum_map_plus. apply Qsum_map_eq. intros w _.
    unfold close. destruct (String.eqb w w0); lra. }
  rewrite Hsplit. unfold close. lra.
Qed.

End CloseIdle.

(** In an optimal plan for a positive total demand, an open warehouse
    with a positive fixed cost ships something. *)
Lemma optimal_open_warehouse_ships
    (customers_df : list customer) (warehouses_df : list warehouse)
    (transport_df : list route) (model : lpmodel) (open_vars : list string)
    (ship_vars : list (string * string)) (a : assignment) (w0 : string)
    (f : Q) :
  build_optimization_model customers_df warehouses_df transport_df
    (fst (capacity_range customers_df warehouses_df))
    (snd (capacity_range customers_df warehouses_df))
  = Return (model, open_vars, ship_vars) ->
  optimal model open_vars ship_vars a ->
  NoDup (map warehouse_id warehouses_df) ->
  NoDup (map customer_id customers_df) ->
  In w0 (map warehouse_id warehouses_df) ->
  a (Open w0) == 1 ->
  fixed_cost_of warehouses_df w0 = Return f -> 0 < f ->
  0 < total_demand customers_df ->
  0 < Qsum (map (fun c => a (Ship w0 c)) (map customer_id customers_df)).
Proof.
  intros Hb [Hf Hopt] HW HC Hw0 Hopen Hfix Hpos Hd.
  destruct (Qlt_le_dec 0 (Qsum (map (fun c => a (Ship w0 c))
                                  (map customer_id customers_df))))
    as [H|H]; [exact H|]. exfalso.
  assert (Hidle : Qsum (map (fun c => a (Ship w0 c))
                          (map customer_id customers_df)) == 0).
  { apply Qle_antisym; [exact H|].
    apply Qsum_nonneg, Forall_map, Forall_forall. intros c Hc.
    exact (feasible_nonneg _ _ _ _ _ _ _ _ _ Hb Hf w0 c Hw0 Hc). }
  pose proof (close_feasible _ _ _ _ _ _ _ _ Hb Hf HW HC Hw0 Hidle Hd) as Hf'.
  pose proof (close_objective _ _ _ _ _ _ a w0 Hb HW Hw0) as Hobj.
  specialize (Hopt _ Hf').
  unfold fixed_or_zero in Hobj. rewrite Hfix, Hopen in Hobj. lra.
Qed.

(** *** Utilisation *)

(** C7, counterexample.  On the idle instance the plan that opens both
    warehouses and ships everything from W1 is optimal (W2 is free to
    open).  W2 is selected, its utilisation is 0, and the extractor returns
    its result as for any other plan. *)
Lemma idle_activated_warehouse_is_not_flagged :
  optimal Samples.idle_model ["W1"; "W2"]%string
    [("W1", "C1"); ("W2", "C1")]%string Samples.idle_plan /\
  usage (Samples.answers 1 Samples.idle_plan Samples.idle_model)
    [("W1", "C1"); ("W2", "C1")]%string
    Samples.half_demand Samples.free_warehouses "W2"
  = Return (Transform.Fin (0 # 100)) /\
  solve_and_analyze (Samples.answers 1 Samples.idle_plan) Samples.np_round2
    Samples.idle_model ["W1"; "W2"]%string
    [("W1", "C1"); ("W2", "C1")]%string
    Samples.half_demand Samples.free_warehouses Samples.near_routes
  = Return (Some ([ {| s_from := "W1"; s_to := "C1";
                       kg := 5000 # 100; cost := 5000 # 100 |} ],
                  ["W1"; "W2"]%string, 10, 50)).
Proof.
  split; [exact idle_plan_optimal|].
  split; reflexivity.
Qed.

(** C7, amended.  For every warehouse selected from an assignment that
    satisfies the built model, the extractor computes the utilisation
    (outbound flow over capacity, printed in percent) and raises nothing.
    When the capacity is positive the utilisation lies in the closed
    interval from 0 to 1.  It is positive when, moreover, the model was
    built with the range of the estimator, the assignment is optimal,
    identifiers are unique, the fixed cost of the warehouse is positive and
    the total demand is positive. *)
Theorem utilization_in_unit_interval
    (solve : lpmodel -> solver_result) (np_round2 : Q -> Q)
    (customers_df : list customer) (warehouses_df : list warehouse)
    (transport_df : list route) (MIN_WAREHOUSES MAX_WAREHOUSES : nat)
    (model : lpmodel) (open_vars : list string)
    (ship_vars : list (string * string))
    (shipment_df : list shipment) (selected : list string) (tf tt : Q)
    (w : string) :
  build_optimization_model customers_df warehouses_df transport_df
    MIN_WAREHOUSES MAX_WAREHOUSES = Return (model, open_vars, ship_vars) ->
  feasible model open_vars ship_vars (varValue (solve model)) ->
  solve_and_analyze solve np_round2 model open_vars ship_vars customers_df
    warehouses_df transport_df
    = Return (Some (shipment_df, selected, tf, tt)) ->
  In w selected ->
  exists capacity utilization,
    capacity_of warehouses_df w = Return capacity /\
    utilization ==
      Qsum (map (fun c => varValue (solve model) (Ship w c))
              (map customer_id customers_df)) / capacity /\
    usage (solve model) ship_vars customers_df warehouses_df w
      = Return (Transform.fmul
                  (Transform.fdiv
                     (Transform.Fin
                        (Qsum (map (fun c => varValue (solve model) (Ship w c))
                                 (map customer_id customers_df))))
                     (Transform.Fin capacity))
                  (Transform.Fin 100)) /\
    (0 < capacity ->
     usage (solve model) ship_vars customers_df warehouses_df w
       = Return (Transform.Fin
                   (Qsum (map (fun c => varValue (solve model) (Ship w c))
                            (map customer_id customers_df))
                    / capacity * 100)) /\
     0 <= utilization <= 1 /\
     (calculate_capacity_constraints customers_df warehouses_df
        = Return (MIN_WAREHOUSES, MAX_WAREHOUSES) ->
      optimal model open_vars ship_vars (varValue (solve model)) ->
      NoDup (map warehouse_id warehouses_df) ->
      NoDup (map customer_id customers_df) ->
      (exists f, fixed_cost_of warehouses_df w = Return f /\ 0 < f) ->
      0 < total_demand customers_df ->
      0 < utilization)).
Proof.
  intros Hb Hf Hres Hw.
  apply analyze_spec in Hres.
  destruct Hres as (_ & Hsel & _). subst selected.
  apply filter_In in Hw. destruct Hw as [Hw Hact].
  apply (built_open_vars _ _ _ _ _ _ _ _ Hb) in Hw.
  destruct (built_usage solve _ _ _ _ _ _ _ _ Hb w Hw) as [cap [Hcap Hu]].
  exists cap. eexists. split; [exact Hcap|]. split; [reflexivity|].
  split; [exact Hu|]. intros Hpos.
  split.
  { rewrite Hu. unfold Transform.fdiv.
    destruct (Qeq_bool cap 0) eqn:E; [|reflexivity].
    apply Qeq_bool_eq in E. lra. }
  destruct (feasible_capacity _ _ _ _ _ _ _ _ _ Hb Hf w Hw)
    as [cap' [Hcap' Hle]].
  assert (cap' = cap) by congruence. subst cap'.
  apply (activated_open solve _ _ _ _ _ _ _ _ Hb Hf w Hw) in Hact.
  rewrite Hact in Hle.
  assert (Hnn : 0 <= Qsum (map (fun c => varValue (solve model) (Ship w c))
                             (map customer_id customers_df))).
  { apply Qsum_nonneg, Forall_map, Forall_forall. intros c Hc.
    exact (feasible_nonneg _ _ _ _ _ _ _ _ _ Hb Hf w c Hw Hc). }
  split; [split|].
  - apply Qle_shift_div_l; [exact Hpos|]. lra.
  - apply Qle_shift_div_r; [exact Hpos|]. lra.
  - intros Hrange Hopt HW HC [f [Hfix Hfpos]] Hd.
    apply calculate_capacity_constraints_inv in Hrange.
    destruct Hrange as [Hrange _].
    assert (Hb' : build_optimization_model customers_df warehouses_df
                    transport_df
                    (fst (capacity_range customers_df warehouses_df))
                    (snd (capacity_range customers_df warehouses_df))
                  = Return (model, open_vars, ship_vars))
      by (rewrite <- Hrange; exact Hb).
    pose proof (optimal_open_warehouse_ships _ _ _ _ _ _ _ w f Hb' Hopt HW HC
                  Hw Hact Hfix Hfpos Hd) as Hship.
    apply Qlt_shift_div_l; [exact Hpos|]. lra.
Qed.

Lemma utilization_in_unit_interval_witness :
  exists capacity utilization,
    capacity_of Samples.two_warehouses "W2" = Return capacity /\
    utilization ==
      Qsum (map (fun c => Samples.tight_plan (Ship "W2" c)) ["C1"%string])
      / capacity /\
    0 <= utilization <= 1 /\ 0 < utilization.
Proof.
  destruct (utilization_in_unit_interval
              (Samples.answers 1 Samples.tight_plan) Samples.np_round2
              Samples.tight_demand Samples.two_warehouses Samples.two_routes
              2 2 Samples.tight_model ["W1"; "W2"]%string
              [("W1", "C1"); ("W2", "C1")]%string _ ["W1"; "W2"]%string
              20 100 "W2" eq_refl tight_plan_feasible eq_refl
              (or_intror (or_introl eq_refl)))
    as (cap & u & Hcap & Hu & _ & Hbound).
  exists cap, u. split; [exact Hcap|]. split; [exact Hu|].
  assert (Hpos : 0 < cap).
  { vm_compute in Hcap. injection Hcap as <-. reflexivity. }
  destruct (Hbound Hpos) as [_ [Hunit Hstrict]].
  split; [exact Hunit|].
  apply Hstrict.
  - reflexivity.
  - exact tight_plan_optimal.
  - repeat constructor; simpl; intuition discriminate.
  - repeat constructor; simpl; intuition discriminate.
  - exists 10. split; reflexivity.
  - reflexivity.
Defined.

(** *** The run *)



(** After a successful extraction [main] writes the shipment table and the
    result file, then the summary. *)
Lemma main_after_extraction
    (solve : lpmodel -> solver_result) (np_round2 : Q -> Q) (w : world)
    (res : results) :
  extraction solve np_round2 w = Return (Some res) ->
  main solve np_round2 w =
  (let w2 :=
     write (optimization_results_txt (snd (fst (fst res))) (snd (fst res))
              (snd res))
       (write (optimization_shipments_csv (fst (fst (fst res)))) w) in
   match save_optimization_summary res with
   | Raise e => (Raise e, w2)
   | Return summary => (Return (Some res), write summary w2)
   end).
Proof.
  unfold extraction, main.
  destruct (data_files w) as [[[cs ws] ts]|]; [|discriminate].
  destruct (calculate_capacity_constraints cs ws) as [[mn mx]|e]; simpl;
    [|discriminate].
  destruct (build_optimization_model cs ws ts mn mx) as [[[m ov] sv]|e];
    simpl; [|discriminate].
  intros ->. destruct res as [[[sh sel] tf] tt]. reflexivity.
Qed.

(** The summary of a result with at least one shipment. *)
Lemma save_optimization_summary_lines
    (sh : list shipment) (sel : list string) (tf tt : Q) :
  sh <> [] ->
  save_optimization_summary (sh, sel, tf, tt)
  = Return (optimization_summary_txt (List.length sel) sel tf tt (tf + tt)
              (map (fun w => (w, Qsum (map kg
                                         (filter (fun s =>
                                                    String.eqb (s_from s) w)
                                                 sh)))) sel)).
Proof.
  intros Hne. unfold save_optimization_summary.
  rewrite (mapM_pure _ (fun w => (w, Qsum (map kg
                                      (filter (fun s =>
                                                 String.eqb (s_from s) w)
                                              sh))))); [reflexivity|].
  intros w _. destruct sh; [congruence|reflexivity].
Qed.





End OptimizeFacts.

(** ** Further properties of the optimisation engine *)

Module OptimizeMore.

Import Optimize OptimizeFacts More.

(** *** More on the feasible-range estimator *)

(** The loop either ends without a [break], or stops at the first position
    at which the running capacity reaches the demand. *)
Lemma min_warehouses_loop_cases (rows : list warehouse) :
  forall (i : nat) (cur d : Q),
    (min_warehouses_loop rows i cur d = 0%nat /\
     forall j, (1 <= j <= List.length rows)%nat ->
               cur + Qsum (firstn j (map monthly_capacity rows)) < d) \/
    (exists k, (1 <= k <= List.length rows)%nat /\
       min_warehouses_loop rows i cur d = (i + k - 1)%nat /\
       d <= cur + Qsum (firstn k (map monthly_capacity rows)) /\
       forall j, (1 <= j < k)%nat ->
                 cur + Qsum (firstn j (map monthly_capacity rows)) < d).
Proof.
  induction rows as [|w rest IH]; intros i cur d.
  - left. split; [reflexivity|]. simpl. intros j Hj. lia.
  - simpl. destruct (Qle_bool d (cur + monthly_capacity w)) eqn:E.
    + right. exists 1%nat. simpl. repeat split; try lia.
      apply Qle_bool_iff in E. rewrite Qsum_cons, Qsum_nil. lra.
    + assert (Hlt : cur + monthly_capacity w < d).
      { destruct (Qlt_le_dec (cur + monthly_capacity w) d) as [H|H];
          [exact H|]. apply Qle_bool_iff in H. congruence. }
      destruct (IH (S i) (cur + monthly_capacity w) d)
        as [[Hr Hall]|[k [Hk [Hr [Hge Hmin]]]]].
      * left. split; [exact Hr|]. intros j Hj.
        destruct j as [|j]; [lia|]. simpl. rewrite Qsum_cons.
        destruct j as [|j].
        -- simpl. rewrite Qsum_nil. lra.
        -- assert (cur + monthly_capacity w +
                   Qsum (firstn (S j) (map monthly_capacity rest)) < d)
             by (apply Hall; lia).
           lra.
      * right. exists (S k). simpl. repeat split; try lia.
        -- rewrite Qsum_cons. lra.
        -- intros j Hj. destruct j as [|j]; [lia|]. simpl. rewrite Qsum_cons.
           destruct j as [|j].
           ++ simpl. rewrite Qsum_nil. lra.
           ++ assert (cur + monthly_capacity w +
                      Qsum (firstn (S j) (map monthly_capacity rest)) < d)
                by (apply Hmin; lia).
              lra.
Qed.

(** The estimator in terms of the capacity of the largest warehouses. *)
Lemma capacity_range_cases
    (customers_df : list customer) (warehouses_df : list warehouse) :
  let m := fst (capacity_range customers_df warehouses_df) in
  (m = 0%nat /\
   forall j, (1 <= j <= List.length warehouses_df)%nat ->
             top_capacity warehouses_df j < total_demand customers_df) \/
  ((1 <= m <= List.length warehouses_df)%nat /\
   total_demand customers_df <= top_capacity warehouses_df m /\
   forall j, (1 <= j < m)%nat ->
             top_capacity warehouses_df j < total_demand customers_df).
Proof.
  simpl. unfold top_capacity.
  destruct (min_warehouses_loop_cases (sort_values_desc warehouses_df) 1 0
              (total_demand customers_df))
    as [[Hr Hall]|[k [Hk [Hr [Hge Hmin]]]]];
    rewrite sort_values_desc_length in *.
  - left. split; [exact Hr|]. intros j Hj. specialize (Hall j Hj). lra.
  - right. rewrite Hr. replace (1 + k - 1)%nat with k by lia.
    split; [exact Hk|]. split; [lra|].
    intros j Hj. specialize (Hmin j Hj). lra.
Qed.

(** Any part of the rows holds at most the capacity of as many of the
    largest rows. *)
Lemma part_capacity_le_top (s : list warehouse) :
  StronglySorted cap_ge s ->
  forall l1 l2, Permutation s (l1 ++ l2) ->
    Qsum (map monthly_capacity l1)
    <= Qsum (firstn (List.length l1) (map monthly_capacity s)).
Proof.
  induction 1 as [|r s Hs IH Hr]; intros l1 l2 Hperm.
  - apply Permutation_nil in Hperm. apply app_eq_nil in Hperm.
    destruct Hperm as [-> _]. simpl. lra.
  - assert (Hin : In r (l1 ++ l2))
      by (apply (Permutation_in _ Hperm); now left).
    apply in_app_or in Hin. destruct Hin as [Hin|Hin].
    + apply in_split in Hin. destruct Hin as [la [lb ->]].
      assert (Hperm' : Permutation s ((la ++ lb) ++ l2)).
      { apply (Permutation_cons_inv (a := r)).
        rewrite Hperm, <- !app_assoc. simpl.
        symmetry. apply Permutation_middle. }
      specialize (IH _ _ Hperm').
      rewrite map_app, Qsum_app. simpl. rewrite Qsum_cons.
      rewrite map_app, Qsum_app in IH.
      rewrite length_app. simpl. rewrite Nat.add_succ_r. simpl.
      rewrite Qsum_cons. rewrite length_app in IH. lra.
    + apply in_split in Hin. destruct Hin as [la [lb ->]].
      assert (Hperm' : Permutation s (l1 ++ (la ++ lb))).
      { apply (Permutation_cons_inv (a := r)).
        rewrite Hperm. symmetry.
        rewrite !app_assoc. apply Permutation_middle. }
      specialize (IH _ _ Hperm').
      eapply Qle_trans; [exact IH|].
      change (map monthly_capacity (r :: s))
        with (monthly_capacity r :: map monthly_capacity s).
      apply firstn_cons_ge.
      * rewrite length_map, (Permutation_length Hperm'), length_app. lia.
      * apply Forall_map. revert Hr. apply Forall_impl. intros y Hy. exact Hy.
Qed.

Lemma firstn_sum_min (l : list Q) (k : nat) :
  Qsum (firstn (Nat.min k (List.length l)) l) == Qsum (firstn k l).
Proof.
  destruct (Nat.le_gt_cases k (List.length l)) as [H|H].
  - now rewrite Nat.min_l.
  - rewrite Nat.min_r by lia. rewrite firstn_all, firstn_all2 by lia.
    reflexivity.
Qed.

Lemma top_capacity_perm_le (ws ws' : list warehouse) (k : nat) :
  Permutation ws ws' -> top_capacity ws' k <= top_capacity ws k.
Proof.
  intros Hperm. unfold top_capacity.
  set (s' := sort_values_desc ws').
  rewrite (firstn_map monthly_capacity k s').
  assert (Hp : Permutation (sort_values_desc ws)
                 (firstn k s' ++ skipn k s')).
  { rewrite firstn_skipn. unfold s'.
    rewrite !sort_values_desc_perm. exact Hperm. }
  pose proof (part_capacity_le_top (sort_values_desc ws)
                (Sorted_StronglySorted cap_ge_trans
                   (sort_values_desc_sorted ws)) _ _ Hp) as Hle.
  rewrite length_firstn in Hle.
  assert (Hlen : List.length s' = List.length
                   (map monthly_capacity (sort_values_desc ws))).
  { unfold s'. rewrite length_map, !sort_values_desc_length.
    symmetry. now apply Permutation_length. }
  rewrite Hlen, firstn_sum_min in Hle. exact Hle.
Qed.

Lemma top_capacity_perm (ws ws' : list warehouse) (k : nat) :
  Permutation ws ws' -> top_capacity ws k == top_capacity ws' k.
Proof.
  intros H. apply Qle_antisym.
  - apply top_capacity_perm_le. now symmetry.
  - now apply top_capacity_perm_le.
Qed.

(** X1.  Whatever the tables, the minimum returned by the estimator never
    exceeds the maximum it returns (the number of warehouses). *)
Theorem min_warehouses_at_most_max
    (customers_df : list customer) (warehouses_df : list warehouse)
    (MIN_WAREHOUSES MAX_WAREHOUSES : nat) :
  calculate_capacity_constraints customers_df warehouses_df
  = Return (MIN_WAREHOUSES, MAX_WAREHOUSES) ->
  (MIN_WAREHOUSES <= MAX_WAREHOUSES)%nat.
Proof.
  intros H. apply calculate_capacity_constraints_inv in H.
  destruct H as [H _].
  destruct (capacity_range_cases customers_df warehouses_df)
    as [[H0 _]|[H0 _]]; rewrite <- H in H0; simpl in H0;
    injection H as -> ->; simpl; lia.
Qed.

Lemma min_warehouses_at_most_max_witness :
  calculate_capacity_constraints Samples.tight_demand Samples.two_warehouses
  = Return (2%nat, 2%nat) /\
  (2 <= 2)%nat.
Proof.
  split; [reflexivity|].
  exact (min_warehouses_at_most_max Samples.tight_demand
           Samples.two_warehouses 2 2 eq_refl).
Defined.

(** X2.  The minimum is a lower bound: when the total demand is positive,
    every selection of warehouses whose capacities add up to the total
    demand counts at least as many warehouses as the estimator's
    minimum. *)
Theorem min_warehouses_is_lower_bound
    (customers_df : list customer)
    (warehouses_df chosen rest : list warehouse) :
  Permutation warehouses_df (chosen ++ rest) ->
  0 < total_demand customers_df ->
  total_demand customers_df <= total_capacity chosen ->
  exists MIN_WAREHOUSES MAX_WAREHOUSES,
    calculate_capacity_constraints customers_df warehouses_df
    = Return (MIN_WAREHOUSES, MAX_WAREHOUSES) /\
    (MIN_WAREHOUSES <= List.length chosen)%nat.
Proof.
  intros Hperm Hd Hcov.
  exists (fst (capacity_range customers_df warehouses_df)),
         (snd (capacity_range customers_df warehouses_df)).
  split.
  { rewrite calculate_capacity_constraints_returns; [reflexivity|].
    left. intros E. rewrite E in Hd. revert Hd. vm_compute. discriminate. }
  assert (Hp : Permutation (sort_values_desc warehouses_df) (chosen ++ rest))
    by (now rewrite sort_values_desc_perm).
  pose proof (part_capacity_le_top _
                (Sorted_StronglySorted cap_ge_trans
                   (sort_values_desc_sorted warehouses_df)) _ _ Hp) as Hle.
  apply min_warehouses_le.
  - split.
    + destruct chosen; [|simpl; lia].
      unfold total_capacity in Hcov. simpl in Hcov.
      rewrite Qsum_nil in Hcov. lra.
    + rewrite (Permutation_length Hperm), length_app. lia.
  - unfold top_capacity. unfold total_capacity in Hcov. lra.
Qed.

Lemma min_warehouses_is_lower_bound_witness :
  exists MIN_WAREHOUSES MAX_WAREHOUSES,
    calculate_capacity_constraints Samples.tight_demand
      Samples.two_warehouses
    = Return (MIN_WAREHOUSES, MAX_WAREHOUSES) /\
    (MIN_WAREHOUSES <= 2)%nat.
Proof.
  apply (min_warehouses_is_lower_bound Samples.tight_demand
           Samples.two_warehouses Samples.two_warehouses []).
  - rewrite app_nil_r. apply Permutation_refl.
  - reflexivity.
  - vm_compute. discriminate.
Defined.

(** X3.  The outcome of the estimator does not depend on the order of the
    rows of the warehouse table: the loop reads the capacities in sorted
    order, and the maximum is the number of rows. *)
Theorem calculate_capacity_constraints_order
    (customers_df : list customer)
    (warehouses_df warehouses_df' : list warehouse) :
  Permutation warehouses_df warehouses_df' ->
  calculate_capacity_constraints customers_df warehouses_df
  = calculate_capacity_constraints customers_df warehouses_df'.
Proof.
  intros Hw.
  assert (Hlen : List.length warehouses_df = List.length warehouses_df')
    by now apply Permutation_length.
  assert (Htop : forall k, top_capacity warehouses_df k
                           == top_capacity warehouses_df' k)
    by (intros k; now apply top_capacity_perm).
  assert (Hrange : capacity_range customers_df warehouses_df
                   = capacity_range customers_df warehouses_df').
  { apply injective_projections; [|simpl; exact Hlen].
    destruct (capacity_range_cases customers_df warehouses_df)
      as [[H0 Hall]|[Hm [Hge Hmin]]];
      destruct (capacity_range_cases customers_df warehouses_df')
        as [[H0' Hall']|[Hm' [Hge' Hmin']]].
    - congruence.
    - exfalso. rewrite <- Hlen in Hm'.
      specialize (Hall _ Hm'). rewrite Htop in Hall. lra.
    - exfalso. rewrite Hlen in Hm.
      specialize (Hall' _ Hm). rewrite <- Htop in Hall'. lra.
    - set (m := fst (capacity_range customers_df warehouses_df)) in *.
      set (m' := fst (capacity_range customers_df warehouses_df')) in *.
      destruct (Nat.lt_trichotomy m m') as [H|[H|H]]; [|exact H|].
      + exfalso. assert (Hj : (1 <= m < m')%nat) by lia.
        specialize (Hmin' _ Hj). rewrite <- Htop in Hmin'. lra.
      + exfalso. assert (Hj : (1 <= m' < m)%nat) by lia.
        specialize (Hmin _ Hj). rewrite Htop in Hmin. lra. }
  destruct customers_df as [|c cs].
  - destruct warehouses_df as [|w ws].
    + apply Permutation_nil in Hw. now rewrite Hw.
    + destruct warehouses_df' as [|w' ws'].
      * symmetry in Hw. apply Permutation_nil in Hw. discriminate.
      * rewrite !calculate_capacity_constraints_returns
          by (right; discriminate).
        now rewrite Hrange.
  - rewrite !calculate_capacity_constraints_returns by (left; discriminate).
    now rewrite Hrange.
Qed.

Lemma calculate_capacity_constraints_order_witness :
  calculate_capacity_constraints Samples.tight_demand Samples.free_warehouses
  = calculate_capacity_constraints Samples.tight_demand
      (rev Samples.free_warehouses).
Proof.
  apply calculate_capacity_constraints_order.
  apply Permutation_rev.
Defined.

(** *** Lookups *)

Lemma values0_filter_some {A B} (p : A -> bool) (f : A -> B) (l : list A) :
  (exists x, In x l /\ p x = true) ->
  exists y, values0 (map f (filter p l)) = Return y.
Proof.
  intros [x [Hin Hp]].
  destruct (filter p l) as [|y l'] eqn:E.
  - assert (Hx : In x (filter p l)) by (apply filter_In; now split).
    rewrite E in Hx. contradiction.
  - simpl. now eexists.
Qed.

Lemma values0_filter_none {A B} (p : A -> bool) (f : A -> B) (l : list A) :
  (forall x, In x l -> p x = false) ->
  values0 (map f (filter p l)) = Raise IndexError.
Proof. intros H. now rewrite (filter_none p l H). Qed.

Lemma fixed_cost_of_own (warehouses_df : list warehouse) (w : string) :
  In w (map warehouse_id warehouses_df) ->
  exists f, fixed_cost_of warehouses_df w = Return f.
Proof.
  intros Hw. apply in_map_iff in Hw. destruct Hw as [r [<- Hr]].
  apply values0_filter_some. exists r. split; [exact Hr|].
  apply String.eqb_refl.
Qed.

Lemma capacity_of_own (warehouses_df : list warehouse) (w : string) :
  In w (map warehouse_id warehouses_df) ->
  exists k, capacity_of warehouses_df w = Return k.
Proof.
  intros Hw. apply in_map_iff in Hw. destruct Hw as [r [<- Hr]].
  apply values0_filter_some. exists r. split; [exact Hr|].
  apply String.eqb_refl.
Qed.

Lemma demand_of_own (customers_df : list customer) (c : string) :
  In c (map customer_id customers_df) ->
  exists d, demand_of customers_df c = Return d.
Proof.
  intros Hc. apply in_map_iff in Hc. destruct Hc as [r [<- Hr]].
  apply values0_filter_some. exists r. split; [exact Hr|].
  apply String.eqb_refl.
Qed.

Lemma cost_of_has_route (transport_df : list route) (w c : string) :
  has_route transport_df w c = true ->
  exists k, cost_of transport_df w c = Return k.
Proof.
  intros H. apply existsb_exists in H. now apply values0_filter_some.
Qed.

Lemma cost_of_no_route (transport_df : list route) (w c : string) :
  has_route transport_df w c = false ->
  cost_of transport_df w c = Raise IndexError.
Proof.
  intros H. apply values0_filter_none. intros r Hr.
  destruct (String.eqb (from_warehouse r) w
            && String.eqb (to_customer_id r) c) eqn:E; [|reflexivity].
  assert (has_route transport_df w c = true)
    by (apply existsb_exists; now exists r).
  congruence.
Qed.

(** A comprehension raises as soon as one of its elements does. *)
Lemma mapM_raise {A B} (f : A -> outcome B) (l : list A) (e : exn) :
  (forall x, In x l -> (exists y, f x = Return y) \/ f x = Raise e) ->
  (exists x, In x l /\ f x = Raise e) ->
  mapM f l = Raise e.
Proof.
  induction l as [|x l IH]; intros Hall [z [Hz Hraise]]; [contradiction|].
  simpl. destruct (Hall x (or_introl eq_refl)) as [[y Hy]|Hx].
  - rewrite Hy. simpl. destruct Hz as [->|Hz]; [congruence|].
    rewrite IH; [reflexivity| |now exists z].
    intros x' Hx'. apply Hall. now right.
  - now rewrite Hx.
Qed.

Lemma mapM_length {A B} (f : A -> outcome B) (l : list A) (ys : list B) :
  mapM f l = Return ys -> List.length ys = List.length l.
Proof.
  intros H. apply mapM_Forall2 in H. symmetry.
  induction H; simpl; congruence.
Qed.

Lemma pairs_length (Ws Cs : list string) :
  List.length (pairs Ws Cs) = (List.length Ws * List.length Cs)%nat.
Proof.
  induction Ws as [|w Ws IH]; simpl; [reflexivity|].
  now rewrite length_app, length_map, IH.
Qed.

(** *** More on the model builder *)

(** X4.  The builder succeeds exactly when the route table has a row for
    every (warehouse, customer) pair of the two other tables, empty tables
    included; a single missing pair makes it raise [IndexError]. *)
Theorem build_optimization_model_outcome
    (customers_df : list customer) (warehouses_df : list warehouse)
    (transport_df : list route) (MIN_WAREHOUSES MAX_WAREHOUSES : nat) :
  let W := map warehouse_id warehouses_df in
  let C := map customer_id customers_df in
  if forallb (fun wc => has_route transport_df (fst wc) (snd wc)) (pairs W C)
  then exists model,
         build_optimization_model customers_df warehouses_df transport_df
           MIN_WAREHOUSES MAX_WAREHOUSES
         = Return (model, unique String.eqb W, unique pair_eqb (pairs W C))
  else build_optimization_model customers_df warehouses_df transport_df
         MIN_WAREHOUSES MAX_WAREHOUSES = Raise IndexError.
Proof.
  intros W C. unfold build_optimization_model. fold W C.
  destruct (mapM_total
              (fun w => f <- fixed_cost_of warehouses_df w ;;
                        Return (f, Open w)) W) as [ft ->].
  { intros w Hw. destruct (fixed_cost_of_own _ _ Hw) as [f ->].
    simpl. now eexists. }
  simpl.
  destruct (forallb _ (pairs W C)) eqn:Eall.
  - rewrite forallb_forall in Eall.
    destruct (mapM_total
                (fun wc => k <- cost_of transport_df (fst wc) (snd wc) ;;
                           Return (k, Ship (fst wc) (snd wc))) (pairs W C))
      as [tt ->].
    { intros wc Hwc. destruct (cost_of_has_route _ _ _ (Eall wc Hwc))
        as [k ->]. simpl. now eexists. }
    simpl.
    destruct (mapM_total
                (fun c => demand <- demand_of customers_df c ;;
                          Return {| lhs := lpSum (map (fun w => Ship w c) W);
                                    rel := LpEQ; rhs := const demand |}) C)
      as [dc ->].
    { intros c Hc. destruct (demand_of_own _ _ Hc) as [d ->].
      simpl. now eexists. }
    simpl.
    destruct (mapM_total
                (fun w => capacity <- capacity_of warehouses_df w ;;
                          Return {| lhs := lpSum (map (fun c => Ship w c) C);
                                    rel := LpLE;
                                    rhs := scaled capacity (Open w) |}) W)
      as [cc ->].
    { intros w Hw. destruct (capacity_of_own _ _ Hw) as [k ->].
      simpl. now eexists. }
    simpl.
    destruct (mapM_total
                (fun wc => capacity <- capacity_of warehouses_df (fst wc) ;;
                           Return {| lhs := lpSum [Ship (fst wc) (snd wc)];
                                     rel := LpLE;
                                     rhs := scaled capacity
                                              (Open (fst wc)) |})
                (pairs W C)) as [sc ->].
    { intros [w c] Hwc. apply in_pairs in Hwc. simpl.
      destruct (capacity_of_own _ _ (proj1 Hwc)) as [k ->].
      simpl. now eexists. }
    simpl. now eexists.
  - rewrite (mapM_raise _ (pairs W C) IndexError); [reflexivity| |].
    + intros wc _.
      destruct (has_route transport_df (fst wc) (snd wc)) eqn:E.
      * left. destruct (cost_of_has_route _ _ _ E) as [k ->].
        simpl. now eexists.
      * right. now rewrite (cost_of_no_route _ _ _ E).
    + assert (Hex : exists wc, In wc (pairs W C) /\
                      has_route transport_df (fst wc) (snd wc) = false).
      { clear -Eall. induction (pairs W C) as [|x l IH];
          simpl in Eall; [discriminate|].
        destruct (has_route transport_df (fst x) (snd x)) eqn:E.
        - destruct (IH Eall) as [wc [Hin Hwc]]. exists wc. split;
            [now right|exact Hwc].
        - exists x. split; [now left|exact E]. }
      destruct Hex as [wc [Hin Hwc]]. exists wc. split; [exact Hin|].
      now rewrite (cost_of_no_route _ _ _ Hwc).
Qed.

(** X5.  A built model has one constraint per customer, one per warehouse,
    the two bounds on the number of open warehouses and one per
    (warehouse, customer) pair. *)
Theorem built_constraint_count
    (customers_df : list customer) (warehouses_df : list warehouse)
    (transport_df : list route) (MIN_WAREHOUSES MAX_WAREHOUSES : nat)
    (model : lpmodel) (open_vars : list string)
    (ship_vars : list (string * string)) :
  build_optimization_model customers_df warehouses_df transport_df
    MIN_WAREHOUSES MAX_WAREHOUSES = Return (model, open_vars, ship_vars) ->
  List.length (constraints model)
  = (List.length customers_df + List.length warehouses_df + 2
     + List.length warehouses_df * List.length customers_df)%nat.
Proof.
  intros Hb.
  destruct (built_inv _ _ _ _ _ _ _ _ Hb)
    as (ft & tt & dc & cc & sc & _ & _ & Hdc & Hcc & Hsc & _ & Hcs & _).
  rewrite Hcs, !length_app.
  rewrite (mapM_length _ _ _ Hdc), (mapM_length _ _ _ Hcc),
          (mapM_length _ _ _ Hsc), pairs_length, !length_map.
  simpl. lia.
Qed.

Lemma built_constraint_count_witness :
  List.length (constraints Samples.tight_model) = 7%nat.
Proof.
  apply (built_constraint_count Samples.tight_demand Samples.two_warehouses
           Samples.two_routes 2 2 Samples.tight_model ["W1"; "W2"]%string
           [("W1", "C1"); ("W2", "C1")]%string eq_refl).
Defined.

(** *** Feasibility of the built model *)

Section BuiltFeasibility.

Variable customers_df : list customer.
Variable warehouses_df : list warehouse.
Variable transport_df : list route.
Variables MIN_WAREHOUSES MAX_WAREHOUSES : nat.
Variable model : lpmodel.
Variable open_vars : list string.
Variable ship_vars : list (string * string).

Local Abbreviation W := (map warehouse_id warehouses_df).
Local Abbreviation C := (map customer_id customers_df).

Hypothesis Hbuilt :
  build_optimization_model customers_df warehouses_df transport_df
    MIN_WAREHOUSES MAX_WAREHOUSES = Return (model, open_vars, ship_vars).

(** An assignment is feasible as soon as it meets the four constraint
    families and the variable domains. *)
Lemma feasible_intro (a : assignment) :
  (forall w, In w W -> a (Open w) == 0 \/ a (Open w) == 1) ->
  (forall w c, In w W -> In c C -> 0 <= a (Ship w c)) ->
  (forall c d, In c C -> demand_of customers_df c = Return d ->
               Qsum (map (fun w => a (Ship w c)) W) == d) ->
  (forall w k, In w W -> capacity_of warehouses_df w = Return k ->
               Qsum (map (fun c => a (Ship w c)) C) <= k * a (Open w)) ->
  inject_Z (Z.of_nat MIN_WAREHOUSES) <= Qsum (map (fun w => a (Open w)) W) ->
  Qsum (map (fun w => a (Open w)) W) <= inject_Z (Z.of_nat MAX_WAREHOUSES) ->
  (forall w c k, In w W -> In c C -> capacity_of warehouses_df w = Return k ->
                 a (Ship w c) <= k * a (Open w)) ->
  feasible model open_vars ship_vars a.
Proof.
  intros Hbin Hnn Hdem Hcap Hmin Hmax Hroute.
  destruct (built_inv _ _ _ _ _ _ _ _ Hbuilt)
    as (ft & tt & dc & cc & sc & _ & _ & Hdc & Hcc & Hsc & _ & Hcs & _).
  split; [split|].
  - intros w Hw. apply Hbin.
    now apply (built_open_vars _ _ _ _ _ _ _ _ Hbuilt).
  - intros w c Hwc. apply (built_ship_vars _ _ _ _ _ _ _ _ Hbuilt) in Hwc.
    now apply Hnn.
  - rewrite Hcs.
    apply Forall_app; split; [|apply Forall_app; split;
                                [|apply Forall_app; split]].
    + apply mapM_Forall2 in Hdc.
      apply (Forall2_Forall_r _ _ _ _ Hdc). intros c k Hc Hk.
      destruct (demand_of customers_df c) as [d|] eqn:Ed; simpl in Hk;
        [|discriminate].
      injection Hk as <-.
      unfold holds. simpl. rewrite eval_lpSum, eval_const, map_map.
      now apply Hdem.
    + apply mapM_Forall2 in Hcc.
      apply (Forall2_Forall_r _ _ _ _ Hcc). intros w k Hw Hk.
      destruct (capacity_of warehouses_df w) as [cap|] eqn:Ec; simpl in Hk;
        [|discriminate].
      injection Hk as <-.
      unfold holds. simpl. rewrite eval_lpSum, eval_scaled, map_map.
      now apply Hcap.
    + constructor; [|constructor; [|constructor]]; unfold holds; simpl;
        rewrite eval_lpSum, eval_const, map_map; assumption.
    + apply mapM_Forall2 in Hsc.
      apply (Forall2_Forall_r _ _ _ _ Hsc). intros [w c] k Hwc Hk.
      apply in_pairs in Hwc. destruct Hwc as [Hw Hc]. simpl in Hk.
      destruct (capacity_of warehouses_df w) as [cap|] eqn:Ec; simpl in Hk;
        [|discriminate].
      injection Hk as <-.
      unfold holds. simpl. rewrite eval_lpSum, eval_scaled. simpl.
      rewrite Qsum_cons, Qsum_nil.
      pose proof (Hroute w c cap Hw Hc Ec). lra.
Qed.

Hypothesis HW : NoDup W.
Hypothesis HC : NoDup C.

(** The total demand is the total flow of a feasible assignment. *)
Lemma feasible_total_flow (a : assignment) :
  feasible model open_vars ship_vars a ->
  total_demand customers_df ==
  Qsum (map (fun r => Qsum (map (fun c => a (Ship (warehouse_id r) c)) C))
          warehouses_df).
Proof.
  intros Hf. unfold total_demand.
  rewrite (Qsum_map_eq monthly_demand_kg
             (fun r => Qsum (map (fun w => a (Ship (warehouse_id w)
                                                (customer_id r)))
                               warehouses_df))).
  2:{ intros r Hr.
      assert (Hc : In (customer_id r) C) by now apply in_map.
      destruct (feasible_demand _ _ _ _ _ _ _ _ _ Hbuilt Hf _ Hc)
        as [d [Hd Hsum]].
      rewrite (demand_of_row _ _ HC Hr) in Hd. injection Hd as <-.
      rewrite map_map in Hsum. symmetry. exact Hsum. }
  rewrite (Qsum_swap (fun r w => a (Ship (warehouse_id w) (customer_id r)))).
  apply Qsum_map_eq. intros r _. now rewrite map_map.
Qed.

(** The number of selected warehouses is the sum of the [open] values. *)
Lemma feasible_open_count (a : assignment) :
  feasible model open_vars ship_vars a ->
  Qsum (map (fun w => a (Open w)) W)
  == inject_Z (Z.of_nat
       (List.length (filter (fun w => Qgtb (a (Open w)) (1 # 2)) W))).
Proof.
  intros Hf. rewrite <- Qsum_indicator.
  apply Qsum_map_eq. intros w Hw.
  destruct (feasible_binary _ _ _ _ _ _ _ _ _ Hbuilt Hf w Hw) as [H|H].
  - replace (Qgtb (a (Open w)) (1 # 2)) with false; [exact H|].
    symmetry. destruct (Qgtb (a (Open w)) (1 # 2)) eqn:E; [|reflexivity].
    apply Qgtb_lt in E. lra.
  - replace (Qgtb (a (Open w)) (1 # 2)) with true; [exact H|].
    symmetry. apply Qgtb_lt. lra.
Qed.

End BuiltFeasibility.

Lemma capacity_or_zero_row (warehouses_df : list warehouse) (r : warehouse) :
  NoDup (map warehouse_id warehouses_df) -> In r warehouses_df ->
  capacity_or_zero warehouses_df (warehouse_id r) = monthly_capacity r.
Proof.
  intros Hnd Hr. unfold capacity_or_zero.
  now rewrite (capacity_of_row _ _ Hnd Hr).
Qed.

Lemma demand_or_zero_row (customers_df : list customer) (r : customer) :
  NoDup (map customer_id customers_df) -> In r customers_df ->
  demand_or_zero customers_df (customer_id r) = monthly_demand_kg r.
Proof.
  intros Hnd Hr. unfold demand_or_zero.
  now rewrite (demand_of_row _ _ Hnd Hr).
Qed.

(** X6.  When identifiers are unique, capacities and demands are not
    negative and the total capacity is positive and covers the total
    demand, the model built with the estimator's range has a feasible
    assignment: the plan that opens every warehouse and splits each demand
    in proportion to the capacities. *)
Theorem covered_demand_is_feasible
    (customers_df : list customer) (warehouses_df : list warehouse)
    (transport_df : list route) (MIN_WAREHOUSES MAX_WAREHOUSES : nat)
    (model : lpmodel) (open_vars : list string)
    (ship_vars : list (string * string)) :
  calculate_capacity_constraints customers_df warehouses_df
  = Return (MIN_WAREHOUSES, MAX_WAREHOUSES) ->
  build_optimization_model customers_df warehouses_df transport_df
    MIN_WAREHOUSES MAX_WAREHOUSES
  = Return (model, open_vars, ship_vars) ->
  NoDup (map warehouse_id warehouses_df) ->
  NoDup (map customer_id customers_df) ->
  (forall r, In r warehouses_df -> 0 <= monthly_capacity r) ->
  (forall r, In r customers_df -> 0 <= monthly_demand_kg r) ->
  0 < total_capacity warehouses_df ->
  total_demand customers_df <= total_capacity warehouses_df ->
  feasible model open_vars ship_vars
    (proportional_plan customers_df warehouses_df).
Proof.
  intros Hrange Hb HW HC Hcap Hdem Hpos Hcov.
  apply calculate_capacity_constraints_inv in Hrange.
  destruct Hrange as [Hrange _].
  assert (Hmin : MIN_WAREHOUSES
                 = fst (capacity_range customers_df warehouses_df))
    by now rewrite <- Hrange.
  assert (Hmax : MAX_WAREHOUSES
                 = snd (capacity_range customers_df warehouses_df))
    by now rewrite <- Hrange.
  clear Hrange. subst MIN_WAREHOUSES MAX_WAREHOUSES.
  set (T := total_capacity warehouses_df) in *.
  assert (HT : ~ T == 0) by lra.
  assert (Hflow : forall rw rc, In rw warehouses_df -> In rc customers_df ->
            proportional_plan customers_df warehouses_df
              (Ship (warehouse_id rw) (customer_id rc))
            == monthly_demand_kg rc * monthly_capacity rw / T).
  { intros rw rc Hrw Hrc. unfold proportional_plan.
    rewrite (capacity_or_zero_row _ _ HW Hrw), (demand_or_zero_row _ _ HC Hrc).
    reflexivity. }
  assert (Hones : Qsum (map (fun w => proportional_plan customers_df
                                        warehouses_df (Open w))
                          (map warehouse_id warehouses_df))
                  == inject_Z (Z.of_nat (List.length warehouses_df))).
  { simpl. rewrite Qsum_map_const, length_map. lra. }
  apply (feasible_intro _ _ _ _ _ _ _ _ Hb).
  - intros w _. right. reflexivity.
  - intros w c Hw Hc.
    apply in_map_iff in Hw. destruct Hw as [rw [<- Hrw]].
    apply in_map_iff in Hc. destruct Hc as [rc [<- Hrc]].
    rewrite (Hflow rw rc Hrw Hrc).
    apply Qle_shift_div_l; [exact Hpos|].
    pose proof (Qmult_le_0_compat _ _ (Hdem rc Hrc) (Hcap rw Hrw)). lra.
  - intros c d Hc Hd.
    apply in_map_iff in Hc. destruct Hc as [rc [<- Hrc]].
    rewrite (demand_of_row _ _ HC Hrc) in Hd. injection Hd as <-.
    rewrite map_map.
    rewrite (Qsum_map_eq _ (fun rw => (monthly_demand_kg rc / T)
                                      * monthly_capacity rw))
      by (intros rw Hrw; rewrite (Hflow rw rc Hrw Hrc); field; exact HT).
    rewrite Qsum_map_scale. fold (total_capacity warehouses_df). fold T.
    field. exact HT.
  - intros w k Hw Hk.
    apply in_map_iff in Hw. destruct Hw as [rw [<- Hrw]].
    rewrite (capacity_of_row _ _ HW Hrw) in Hk. injection Hk as <-.
    rewrite map_map.
    rewrite (Qsum_map_eq _ (fun rc => (monthly_capacity rw / T)
                                      * monthly_demand_kg rc))
      by (intros rc Hrc; rewrite (Hflow rw rc Hrw Hrc); field; exact HT).
    rewrite Qsum_map_scale. fold (total_demand customers_df).
    change (proportional_plan customers_df warehouses_df
              (Open (warehouse_id rw))) with 1.
    assert (H1 : monthly_capacity rw / T * total_demand customers_df
                 == monthly_capacity rw * total_demand customers_df / T)
      by (field; exact HT).
    rewrite H1. apply Qle_shift_div_r; [exact Hpos|].
    assert (0 <= monthly_capacity rw * (T - total_demand customers_df)).
    { apply Qmult_le_0_compat; [now apply Hcap|lra]. }
    lra.
  - rewrite Hones, <- Zle_Qle. apply inj_le.
    destruct (capacity_range_cases customers_df warehouses_df)
      as [[H _]|[H _]]; simpl in *; lia.
  - rewrite Hones. simpl. apply Qle_refl.
  - intros w c k Hw Hc Hk.
    apply in_map_iff in Hw. destruct Hw as [rw [<- Hrw]].
    apply in_map_iff in Hc. destruct Hc as [rc [<- Hrc]].
    rewrite (capacity_of_row _ _ HW Hrw) in Hk. injection Hk as <-.
    rewrite (Hflow rw rc Hrw Hrc).
    change (proportional_plan customers_df warehouses_df
              (Open (warehouse_id rw))) with 1.
    apply Qle_shift_div_r; [exact Hpos|].
    assert (Hd : monthly_demand_kg rc <= T).
    { eapply Qle_trans; [|exact Hcov]. unfold total_demand.
      apply (Qsum_map_member monthly_demand_kg customers_df rc);
        [exact Hdem|exact Hrc]. }
    assert (0 <= monthly_capacity rw * (T - monthly_demand_kg rc)).
    { apply Qmult_le_0_compat; [now apply Hcap|lra]. }
    lra.
Qed.

(** X7.  When identifiers are unique, capacities are not negative and the
    total capacity is below the total demand, no assignment satisfies the
    built model, whatever the bounds on the number of warehouses. *)
Theorem short_capacity_is_infeasible
    (customers_df : list customer) (warehouses_df : list warehouse)
    (transport_df : list route) (MIN_WAREHOUSES MAX_WAREHOUSES : nat)
    (model : lpmodel) (open_vars : list string)
    (ship_vars : list (string * string)) (a : assignment) :
  build_optimization_model customers_df warehouses_df transport_df
    MIN_WAREHOUSES MAX_WAREHOUSES = Return (model, open_vars, ship_vars) ->
  NoDup (map warehouse_id warehouses_df) ->
  NoDup (map customer_id customers_df) ->
  (forall r, In r warehouses_df -> 0 <= monthly_capacity r) ->
  total_capacity warehouses_df < total_demand customers_df ->
  ~ feasible model open_vars ship_vars a.
Proof.
  intros Hb HW HC Hcap Hshort Hf.
  pose proof (feasible_total_flow _ _ _ _ _ _ _ _ Hb HC a Hf) as Hflow.
  assert (Hle : Qsum (map (fun r => Qsum (map (fun c =>
                              a (Ship (warehouse_id r) c))
                              (map customer_id customers_df)))
                        warehouses_df)
                <= Qsum (map monthly_capacity warehouses_df)).
  { apply Qsum_map_le. intros r Hr.
    assert (Hw : In (warehouse_id r) (map warehouse_id warehouses_df))
      by now apply in_map.
    destruct (feasible_capacity _ _ _ _ _ _ _ _ _ Hb Hf _ Hw)
      as [k [Hk Hsum]].
    rewrite (capacity_of_row _ _ HW Hr) in Hk. injection Hk as <-.
    pose proof (Hcap r Hr).
    destruct (feasible_binary _ _ _ _ _ _ _ _ _ Hb Hf _ Hw) as [H0|H1].
    - rewrite H0 in Hsum. lra.
    - rewrite H1 in Hsum. lra. }
  unfold total_capacity in Hshort. lra.
Qed.

(** *** More on the extraction *)

(** X6, an instance: the tight tables. *)
Lemma covered_demand_is_feasible_witness :
  feasible Samples.tight_model ["W1"; "W2"]%string
    [("W1", "C1"); ("W2", "C1")]%string
    (proportional_plan Samples.tight_demand Samples.two_warehouses).
Proof.
  apply (covered_demand_is_feasible Samples.tight_demand
           Samples.two_warehouses Samples.two_routes 2 2).
  - reflexivity.
  - reflexivity.
  - repeat constructor; simpl; intuition discriminate.
  - repeat constructor; simpl; intuition discriminate.
  - intros r [<-|[<-|[]]]; vm_compute; discriminate.
  - intros r [<-|[]]; vm_compute; discriminate.
  - reflexivity.
  - vm_compute. discriminate.
Defined.

(** X7, an instance: a demand of 20 against a capacity of 10. *)
Lemma short_capacity_is_infeasible_witness :
  ~ feasible
      (Samples.built_model
         (build_optimization_model Samples.excess_demand
            Samples.one_warehouse Samples.one_route 0 1))
      ["W1"%string] [("W1", "C1")%string] (fun _ => 0).
Proof.
  apply (short_capacity_is_infeasible Samples.excess_demand
           Samples.one_warehouse Samples.one_route 0 1).
  - reflexivity.
  - repeat constructor; simpl; intuition discriminate.
  - repeat constructor; simpl; intuition discriminate.
  - intros r [<-|[]]; vm_compute; discriminate.
  - reflexivity.
Defined.

(** X8.  On an assignment that satisfies the built model (unique warehouse
    identifiers), the number of selected warehouses lies between the two
    bounds the model was built with. *)
Theorem selected_count_within_bounds
    (solve : lpmodel -> solver_result) (np_round2 : Q -> Q)
    (customers_df : list customer) (warehouses_df : list warehouse)
    (transport_df : list route) (MIN_WAREHOUSES MAX_WAREHOUSES : nat)
    (model : lpmodel) (open_vars : list string)
    (ship_vars : list (string * string))
    (shipment_df : list shipment) (selected : list string) (tf tt : Q) :
  build_optimization_model customers_df warehouses_df transport_df
    MIN_WAREHOUSES MAX_WAREHOUSES = Return (model, open_vars, ship_vars) ->
  NoDup (map warehouse_id warehouses_df) ->
  feasible model open_vars ship_vars (varValue (solve model)) ->
  solve_and_analyze solve np_round2 model open_vars ship_vars customers_df
    warehouses_df transport_df
    = Return (Some (shipment_df, selected, tf, tt)) ->
  (MIN_WAREHOUSES <= List.length selected <= MAX_WAREHOUSES)%nat.
Proof.
  intros Hb HW Hf Hres.
  apply analyze_spec in Hres. destruct Hres as (_ & Hsel & _).
  destruct (built_inv _ _ _ _ _ _ _ _ Hb)
    as (ft & tt' & dc & cc & sc & _ & _ & _ & _ & _ & _ & Hcs & Hov & _).
  rewrite (unique_id String.eqb String.eqb_eq _ HW) in Hov.
  subst selected open_vars.
  pose proof (feasible_open_count _ _ _ _ _ _ _ _ Hb _ Hf) as Hcount.
  change (filter (fun w => Qgtb (varValue (solve model) (Open w)) (1 # 2))
            (map warehouse_id warehouses_df))
    with (filter (activated (solve model)) (map warehouse_id warehouses_df))
    in Hcount.
  assert (Hmin : holds (varValue (solve model))
                   {| lhs := lpSum (map Open (map warehouse_id warehouses_df));
                      rel := LpGE;
                      rhs := const (inject_Z (Z.of_nat MIN_WAREHOUSES)) |}).
  { apply (feasible_holds _ _ _ _ Hf). rewrite Hcs.
    apply in_or_app. right. apply in_or_app. right. now left. }
  assert (Hmax : holds (varValue (solve model))
                   {| lhs := lpSum (map Open (map warehouse_id warehouses_df));
                      rel := LpLE;
                      rhs := const (inject_Z (Z.of_nat MAX_WAREHOUSES)) |}).
  { apply (feasible_holds _ _ _ _ Hf). rewrite Hcs.
    apply in_or_app. right. apply in_or_app. right. right. now left. }
  unfold holds in Hmin, Hmax. simpl in Hmin, Hmax.
  rewrite eval_lpSum, eval_const, map_map, Hcount in Hmin, Hmax.
  rewrite <- Zle_Qle in Hmin, Hmax. lia.
Qed.

Lemma selected_count_within_bounds_witness :
  (2 <= List.length ["W1"; "W2"]%string <= 2)%nat.
Proof.
  apply (selected_count_within_bounds
           (Samples.answers 1 Samples.tight_plan) Samples.np_round2
           Samples.tight_demand Samples.two_warehouses Samples.two_routes
           2 2 Samples.tight_model ["W1"; "W2"]%string
           [("W1", "C1"); ("W2", "C1")]%string
           [ {| s_from := "W1"; s_to := "C1"; kg := 10000 # 100;
                cost := 10000 # 100 |} ]
           ["W1"; "W2"]%string 20 100 eq_refl).
  - repeat constructor; simpl; intuition discriminate.
  - exact tight_plan_feasible.
  - reflexivity.
Defined.

Section AnyAnswer.

Variable np_round2 : Q -> Q.
Variable sol : solver_result.
Variable ship_vars : list (string * string).
Variable customers_df : list customer.
Variable warehouses_df : list warehouse.
Variable transport_df : list route.

(** A loop that returns has found every value it looked up. *)
Lemma select_loop_lookups (keys : list string) :
  forall sel0 tf0 r,
    select_loop sol ship_vars customers_df warehouses_df keys sel0 tf0
      = Return r ->
    forall w, In w (filter (activated sol) keys) ->
      fixed_cost_of warehouses_df w
      = Return (fixed_or_zero warehouses_df w).
Proof.
  induction keys as [|k keys IH]; intros sel0 tf0 r H w Hw;
    [contradiction|].
  simpl in H, Hw. fold (activated sol k) in H.
  destruct (activated sol k) eqn:E.
  - destruct (fixed_cost_of warehouses_df k) as [f|] eqn:Ef; simpl in H;
      [|discriminate].
    destruct (usage sol ship_vars customers_df warehouses_df k);
      simpl in H; [|discriminate].
    destruct Hw as [<-|Hw].
    + unfold fixed_or_zero. now rewrite Ef.
    + exact (IH _ _ _ H w Hw).
  - exact (IH _ _ _ H w Hw).
Qed.

Lemma transport_loop_lookups (selected : list string)
    (items : list (string * string)) :
  forall tt0 sh0 r,
    transport_loop np_round2 sol transport_df selected items tt0 sh0
        = Return r ->
    forall wc, In wc (filter (retained sol selected) items) ->
      cost_of transport_df (fst wc) (snd wc)
      = Return (cost_or_zero transport_df wc).
Proof.
  induction items as [|[w c] items IH]; intros tt0 sh0 r H wc Hwc;
    [contradiction|].
  simpl in H.
  change (Qgtb (varValue sol (Ship w c)) (1 # 10)
          && existsb (String.eqb w) selected)
    with (retained sol selected (w, c)) in H.
  simpl in Hwc. destruct (retained sol selected (w, c)) eqn:E.
  - destruct (cost_of transport_df w c) as [k|] eqn:Ek; simpl in H;
      [|discriminate].
    destruct Hwc as [<-|Hwc].
    + unfold cost_or_zero. simpl. now rewrite Ek.
    + exact (IH _ _ _ H wc Hwc).
  - exact (IH _ _ _ H wc Hwc).
Qed.

End AnyAnswer.

(** X9.  Whatever values the solver returns with status Optimal, the
    selected warehouses are the keys whose [open] value exceeds 0.5, and
    every extracted shipment leaves a selected warehouse, belongs to a
    declared pair, carries a flow above 0.1 and records that flow rounded
    to the hundredth. *)
Theorem extraction_keeps_selected_positive_flows
    (solve : lpmodel -> solver_result) (np_round2 : Q -> Q) (model : lpmodel)
    (open_vars : list string) (ship_vars : list (string * string))
    (customers_df : list customer) (warehouses_df : list warehouse)
    (transport_df : list route)
    (shipment_df : list shipment) (selected : list string) (tf tt : Q) :
  solve_and_analyze solve np_round2 model open_vars ship_vars customers_df
    warehouses_df transport_df
    = Return (Some (shipment_df, selected, tf, tt)) ->
  (forall w, In w selected <->
             In w open_vars /\ 1 # 2 < varValue (solve model) (Open w)) /\
  (forall s, In s shipment_df ->
     In (s_from s) selected /\
     In (s_from s, s_to s) ship_vars /\
     1 # 10 < varValue (solve model) (Ship (s_from s) (s_to s)) /\
     kg s = round2 (varValue (solve model) (Ship (s_from s) (s_to s)))).
Proof.
  intros Hres. apply analyze_spec in Hres.
  destruct Hres as (_ & Hsel & Hsh & _ & _). split.
  - intros w. rewrite Hsel, filter_In. unfold activated.
    now rewrite Qgtb_lt.
  - intros s Hs. rewrite Hsh in Hs. apply in_map_iff in Hs.
    destruct Hs as [[w c] [<- Hwc]]. simpl.
    apply filter_In in Hwc. destruct Hwc as [Hin Hret].
    unfold retained in Hret. simpl in Hret.
    apply andb_true_iff in Hret. destruct Hret as [Hv Hmem].
    apply Qgtb_lt in Hv.
    apply (existsb_eqb String.eqb String.eqb_eq) in Hmem.
    repeat split; assumption.
Qed.

Lemma extraction_keeps_selected_positive_flows_witness :
  In "W1"%string ["W1"; "W2"]%string /\
  In ("W1", "C1")%string [("W1", "C1"); ("W2", "C1")]%string /\
  1 # 10 < varValue (Samples.answers 1 Samples.tight_plan Samples.tight_model)
             (Ship "W1" "C1") /\
  10000 # 100
  = round2 (varValue (Samples.answers 1 Samples.tight_plan Samples.tight_model)
              (Ship "W1" "C1")).
Proof.
  exact (proj2 (extraction_keeps_selected_positive_flows
                  (Samples.answers 1 Samples.tight_plan) Samples.np_round2
                  Samples.tight_model ["W1"; "W2"]%string
                  [("W1", "C1"); ("W2", "C1")]%string
                  Samples.tight_demand Samples.two_warehouses
                  Samples.two_routes
                  [ {| s_from := "W1"; s_to := "C1"; kg := 10000 # 100;
                       cost := 10000 # 100 |} ]
                  ["W1"; "W2"]%string 20 100 eq_refl)
               {| s_from := "W1"; s_to := "C1"; kg := 10000 # 100;
                  cost := 10000 # 100 |}
               (or_introl eq_refl)).
Defined.

(** X10.  The two totals returned by the extraction are sums over what was
    kept: the fixed total adds the fixed cost of every selected warehouse,
    and the transport total adds, for every extracted shipment, the flow
    (not rounded) times the cost per kg of its route; the cost recorded in
    a shipment is that product rounded by numpy. *)
Theorem extraction_totals
    (solve : lpmodel -> solver_result) (np_round2 : Q -> Q) (model : lpmodel)
    (open_vars : list string) (ship_vars : list (string * string))
    (customers_df : list customer) (warehouses_df : list warehouse)
    (transport_df : list route)
    (shipment_df : list shipment) (selected : list string) (tf tt : Q) :
  solve_and_analyze solve np_round2 model open_vars ship_vars customers_df
    warehouses_df transport_df
    = Return (Some (shipment_df, selected, tf, tt)) ->
  (forall w, In w selected ->
     fixed_cost_of warehouses_df w = Return (fixed_or_zero warehouses_df w)) /\
  tf == Qsum (map (fixed_or_zero warehouses_df) selected) /\
  (forall s, In s shipment_df ->
     cost_of transport_df (s_from s) (s_to s)
     = Return (cost_or_zero transport_df (s_from s, s_to s)) /\
     cost s = np_round2 (varValue (solve model) (Ship (s_from s) (s_to s))
                         * cost_or_zero transport_df (s_from s, s_to s))) /\
  tt == Qsum (map (fun s => varValue (solve model) (Ship (s_from s) (s_to s))
                            * cost_or_zero transport_df (s_from s, s_to s))
                shipment_df).
Proof.
  intros Hres. pose proof Hres as Hspec. apply analyze_spec in Hspec.
  destruct Hspec as (Hst & Hsel & Hsh & Htf & Htt).
  unfold solve_and_analyze, analyze in Hres. rewrite Hst in Hres.
  simpl in Hres.
  destruct (select_loop _ _ _ _ open_vars [] 0) as [[sel' tf']|] eqn:Es;
    simpl in Hres; [|discriminate].
  destruct (transport_loop _ _ _ sel' ship_vars 0 []) as [[tt' sh']|] eqn:Et;
    simpl in Hres; [|discriminate].
  injection Hres as <- <- <- <-.
  split; [|split; [exact Htf|split]].
  - intros w Hw. rewrite Hsel in Hw.
    exact (select_loop_lookups _ _ _ _ _ _ _ _ Es w Hw).
  - intros s Hs. rewrite Hsh in Hs. apply in_map_iff in Hs.
    destruct Hs as [wc [<- Hwc]]. simpl. split; [|reflexivity].
    replace (fst wc, snd wc) with wc by now destruct wc.
    exact (transport_loop_lookups _ _ _ _ _ _ _ _ Et wc Hwc).
  - rewrite Htt, Hsh, map_map. apply Qsum_map_eq. intros wc _. simpl.
    replace (fst wc, snd wc) with wc by now destruct wc. reflexivity.
Qed.

Lemma extraction_totals_witness :
  20 == Qsum (map (fixed_or_zero Samples.two_warehouses)
                ["W1"; "W2"]%string).
Proof.
  exact (proj1 (proj2 (extraction_totals
                         (Samples.answers 1 Samples.tight_plan)
                             Samples.np_round2
                         Samples.tight_model ["W1"; "W2"]%string
                         [("W1", "C1"); ("W2", "C1")]%string
                         Samples.tight_demand Samples.two_warehouses
                         Samples.two_routes
                         [ {| s_from := "W1"; s_to := "C1"; kg := 10000 # 100;
                              cost := 10000 # 100 |} ]
                         ["W1"; "W2"]%string 20 100 eq_refl))).
Defined.

(** *** More on the run *)

Lemma unique_NoDup {A} (eqb : A -> A -> bool)
    (eqb_spec : forall x y, eqb x y = true <-> x = y) (l : list A) :
  NoDup (unique eqb l).
Proof.
  induction l as [|x l IH]; simpl; constructor.
  - intros H. apply filter_In in H. destruct H as [_ H].
    rewrite (proj2 (eqb_spec x x) eq_refl) in H. discriminate.
  - now apply NoDup_filter.
Qed.

(** X11.  When the extraction returns a result with at least one shipment,
    [main] returns that result and appends exactly three files, in this
    order: the shipment table, the result file with the selected
    warehouses and the two totals, and the summary. *)
Theorem main_writes_three_files
    (solve : lpmodel -> solver_result) (np_round2 : Q -> Q) (w : world)
    (shipment_df : list shipment) (selected : list string) (tf tt : Q) :
  extraction solve np_round2 w
      = Return (Some (shipment_df, selected, tf, tt)) ->
  shipment_df <> [] ->
  exists summary,
    save_optimization_summary (shipment_df, selected, tf, tt)
    = Return summary /\
    main solve np_round2 w =
    (Return (Some (shipment_df, selected, tf, tt)),
     {| data_files := data_files w;
        written := written w ++
                   [ optimization_shipments_csv shipment_df;
                     optimization_results_txt selected tf tt;
                     summary ] |}).
Proof.
  intros Hex Hne. eexists. split.
  - now apply save_optimization_summary_lines.
  - rewrite (main_after_extraction _ _ _ _ Hex).
    rewrite (save_optimization_summary_lines _ _ _ _ Hne).
    unfold write. simpl. now rewrite <- !app_assoc.
Qed.

Lemma main_writes_three_files_witness :
  exists summary,
    main (Samples.answers 1 Samples.tight_plan)
        Samples.np_round2 Samples.tight_world =
    (Return (Some ([ {| s_from := "W1"; s_to := "C1"; kg := 10000 # 100;
                        cost := 10000 # 100 |} ],
                   ["W1"; "W2"]%string, 20, 100)),
     {| data_files := data_files Samples.tight_world;
        written := [ optimization_shipments_csv
                       [ {| s_from := "W1"; s_to := "C1"; kg := 10000 # 100;
                            cost := 10000 # 100 |} ];
                     optimization_results_txt ["W1"; "W2"]%string 20 100;
                     summary ] |}).
Proof.
  destruct (main_writes_three_files
              (Samples.answers 1 Samples.tight_plan)
                  Samples.np_round2 Samples.tight_world
              [ {| s_from := "W1"; s_to := "C1"; kg := 10000 # 100;
                   cost := 10000 # 100 |} ]
              ["W1"; "W2"]%string 20 100 eq_refl)
    as [summary [_ Hmain]]; [discriminate|].
  exists summary. exact Hmain.
Defined.

(** X12.  When the extraction returns a result that selects a warehouse
    and has no shipment (every flow is at most 0.1), writing the summary
    raises [KeyError]: [main] aborts after it has written the empty
    shipment table and the result file, and no summary. *)
Theorem main_fails_on_empty_plan
    (solve : lpmodel -> solver_result) (np_round2 : Q -> Q) (w : world)
    (selected : list string) (tf tt : Q) :
  extraction solve np_round2 w = Return (Some ([], selected, tf, tt)) ->
  selected <> [] ->
  main solve np_round2 w =
  (Raise KeyError,
   {| data_files := data_files w;
      written := written w ++
                 [ optimization_shipments_csv [];
                   optimization_results_txt selected tf tt ] |}).
Proof.
  intros Hex Hne. rewrite (main_after_extraction _ _ _ _ Hex). simpl.
  destruct selected as [|s sel]; [congruence|]. simpl.
  unfold write. simpl. now rewrite <- !app_assoc.
Qed.

Lemma main_fails_on_empty_plan_witness :
  main (Samples.answers 1 faint_plan) Samples.np_round2 faint_world =
  (Raise KeyError,
   {| data_files := data_files faint_world;
      written := [ optimization_shipments_csv [];
                   optimization_results_txt ["W1"%string] 1 0 ] |}).
Proof.
  apply (main_fails_on_empty_plan (Samples.answers 1 faint_plan)
      Samples.np_round2 faint_world
           ["W1"%string] 1 0).
  - reflexivity.
  - discriminate.
Defined.

Lemma Qsum_pick_sym (g : Q) (l : list string) (c : string) :
  NoDup l -> In c l ->
  Qsum (map (fun w => if String.eqb c w then g else 0) l) == g.
Proof.
  intros Hnd Hin.
  rewrite <- (Qsum_pick (fun _ => g) l c Hnd Hin).
  apply Qsum_map_eq. intros w _. now rewrite String.eqb_sym.
Qed.

(** X13.  In the summary written for a result of the pipeline with at
    least one shipment, the quantities listed per warehouse add up to the
    total quantity of the shipment table: every extracted shipment is
    counted once. *)
Theorem summary_accounts_for_every_shipment
    (solve : lpmodel -> solver_result) (np_round2 : Q -> Q)
    (customers_df : list customer) (warehouses_df : list warehouse)
    (transport_df : list route) (MIN_WAREHOUSES MAX_WAREHOUSES : nat)
    (model : lpmodel) (open_vars : list string)
    (ship_vars : list (string * string))
    (shipment_df : list shipment) (selected : list string) (tf tt : Q) :
  build_optimization_model customers_df warehouses_df transport_df
    MIN_WAREHOUSES MAX_WAREHOUSES = Return (model, open_vars, ship_vars) ->
  solve_and_analyze solve np_round2 model open_vars ship_vars customers_df
    warehouses_df transport_df
    = Return (Some (shipment_df, selected, tf, tt)) ->
  shipment_df <> [] ->
  exists summary,
    save_optimization_summary (shipment_df, selected, tf, tt)
    = Return summary /\
    map fst (summary_lines summary) = selected /\
    Qsum (map snd (summary_lines summary)) == Qsum (map kg shipment_df).
Proof.
  intros Hb Hres Hne. eexists. split; [|split].
  - now apply save_optimization_summary_lines.
  - simpl. rewrite map_map. simpl. apply map_id.
  - simpl. rewrite map_map. simpl.
    apply analyze_spec in Hres. destruct Hres as (_ & Hsel & Hsh & _ & _).
    assert (Hnd : NoDup selected).
    { rewrite Hsel. apply NoDup_filter.
      destruct (built_inv _ _ _ _ _ _ _ _ Hb)
        as (ft & tt' & dc & cc & sc & _ & _ & _ & _ & _ & _ & _ & Hov & _).
      rewrite Hov. apply unique_NoDup, String.eqb_eq. }
    assert (Hfrom : forall s, In s shipment_df -> In (s_from s) selected).
    { intros s Hs. rewrite Hsh in Hs. apply in_map_iff in Hs.
      destruct Hs as [wc [<- Hwc]]. simpl.
      apply filter_In in Hwc. destruct Hwc as [_ Hret].
      unfold retained in Hret. apply andb_true_iff in Hret.
      now apply (existsb_eqb String.eqb String.eqb_eq). }
    rewrite (Qsum_map_eq _
               (fun w => Qsum (map (fun s => if String.eqb (s_from s) w
                                             then kg s else 0)
                                 shipment_df)))
      by (intros w _; apply Qsum_filter).
    rewrite (Qsum_swap (fun w s => if String.eqb (s_from s) w
                                   then kg s else 0)).
    apply Qsum_map_eq. intros s Hs.
    apply Qsum_pick_sym; [exact Hnd|now apply Hfrom].
Qed.

Lemma summary_accounts_for_every_shipment_witness :
  exists summary,
    save_optimization_summary
      ([ {| s_from := "W1"; s_to := "C1"; kg := 10000 # 100;
            cost := 10000 # 100 |} ], ["W1"; "W2"]%string, 20, 100)
    = Return summary /\
    Qsum (map snd (summary_lines summary)) == (10000 # 100).
Proof.
  destruct (summary_accounts_for_every_shipment
              (Samples.answers 1 Samples.tight_plan) Samples.np_round2
              Samples.tight_demand Samples.two_warehouses Samples.two_routes
              2 2 Samples.tight_model ["W1"; "W2"]%string
              [("W1", "C1"); ("W2", "C1")]%string
              [ {| s_from := "W1"; s_to := "C1"; kg := 10000 # 100;
                   cost := 10000 # 100 |} ]
              ["W1"; "W2"]%string 20 100 eq_refl eq_refl)
    as [summary [Hsave [_ Hsum]]]; [discriminate|].
  exists summary. split; [exact Hsave|].
  rewrite Hsum. reflexivity.
Defined.

End OptimizeMore.

(** ** Further properties of the data transformation *)

Module TransformMore.

Import Transform TransformFacts Prepare.

(** *** The route table *)

Lemma unique_In {A} (eqb : A -> A -> bool)
    (eqb_spec : forall x y, eqb x y = true <-> x = y) (x : A) (l : list A) :
  In x (unique eqb l) <-> In x l.
Proof. exact (OptimizeFacts.in_unique eqb eqb_spec x l). Qed.

Lemma all_combinations_In (df : list shipment) (w c : string) :
  In (w, c) (all_combinations df) <->
  In w (map Origin_Warehouse df) /\ In c (map Destination df).
Proof.
  unfold all_combinations. rewrite in_flat_map. split.
  - intros [w' [Hw Hin]]. apply in_map_iff in Hin.
    destruct Hin as [c' [Heq Hc]]. injection Heq as -> ->.
    split.
    + exact (proj1 (unique_In String.eqb String.eqb_eq _ _) Hw).
    + exact (proj1 (unique_In String.eqb String.eqb_eq _ _) Hc).
  - intros [Hw Hc]. exists w. split.
    + exact (proj2 (unique_In String.eqb String.eqb_eq _ _) Hw).
    + apply in_map_iff. exists c. split; [reflexivity|].
      exact (proj2 (unique_In String.eqb String.eqb_eq _ _) Hc).
Qed.

Lemma merge_row_keys (df : list shipment) (wc : string * string) :
  m_Origin_Warehouse (merge_row df wc) = fst wc /\
  m_Destination (merge_row df wc) = snd wc.
Proof.
  destruct wc as [w c]. unfold merge_row.
  destruct (group df w c); simpl; now split.
Qed.

Lemma merge_row_unobserved (df : list shipment) (w c : string) :
  group df w c = [] ->
  merge_row df (w, c) =
  {| m_Origin_Warehouse := w; m_Destination := c;
     m_Cost := NaN; m_Weight_kg := NaN; m_Distance_miles := NaN;
     m_cost_per_kg := NaN |}.
Proof. intros H. unfold merge_row. now rewrite H. Qed.

(** X14.  A (warehouse, destination) combination without any shipment is
    not filled in: its row of the route table has neither a cost per kg
    nor a distance, and the validation prints the warning about missing
    values in the transport data. *)
Theorem unobserved_route_stays_missing
    (upper : string -> string) (df : list shipment) (w c : string)
    (customers_df : list customer_row) (warehouses_df : list warehouse_row) :
  In w (map Origin_Warehouse df) ->
  In c (map Destination df) ->
  (forall s, In s df -> ~ (Origin_Warehouse s = w /\ Destination s = c)) ->
  In {| from_warehouse := w; to_customer := c;
        cost_per_kg := NaN; r_Distance_miles := NaN |}
     (create_transportation_costs df) /\
  In {| t_from_warehouse := w; t_to_customer_id := customer_id_of upper c;
        t_cost_per_kg := NaN; t_Distance_miles := NaN |}
     (transport_table upper df) /\
  In "Warning: Missing values in transport data"%string
     (validate_data customers_df warehouses_df (transport_table upper df)).
Proof.
  intros Hw Hc Hnone.
  assert (Hgroup : group df w c = []).
  { unfold group. apply OptimizeFacts.filter_none. intros s Hs.
    destruct (String.eqb (Origin_Warehouse s) w
              && String.eqb (Destination s) c) eqn:E; [|reflexivity].
    apply andb_true_iff in E. rewrite !String.eqb_eq in E.
    now destruct (Hnone s Hs). }
  assert (Hrow : In {| from_warehouse := w; to_customer := c;
                       cost_per_kg := NaN; r_Distance_miles := NaN |}
                    (create_transportation_costs df)).
  { unfold create_transportation_costs, merged_data. rewrite map_map.
    apply in_map_iff. exists (w, c). split.
    - rewrite (merge_row_unobserved df w c Hgroup). reflexivity.
    - apply all_combinations_In. now split. }
  assert (Htab : In {| t_from_warehouse := w;
                       t_to_customer_id := customer_id_of upper c;
                       t_cost_per_kg := NaN; t_Distance_miles := NaN |}
                    (transport_table upper df)).
  { unfold transport_table. apply in_map_iff.
    eexists. split; [|exact Hrow]. reflexivity. }
  split; [exact Hrow|]. split; [exact Htab|].
  unfold validate_data. apply in_or_app. right.
  replace (existsb _ (transport_table upper df)) with true; [now left|].
  symmetry. apply existsb_exists. eexists. split; [exact Htab|]. reflexivity.
Qed.

Lemma unobserved_route_stays_missing_witness :
  In {| from_warehouse := "W2"; to_customer := "A";
        cost_per_kg := NaN; r_Distance_miles := NaN |}
     (create_transportation_costs Samples.shipments_df).
Proof.
  apply (unobserved_route_stays_missing (fun s => s) Samples.shipments_df
           "W2" "A" [] []).
  - right. left. reflexivity.
  - left. reflexivity.
  - intros s [<-|[<-|[<-|[]]]] [H1 H2]; discriminate.
Defined.

(** X15.  The route table has exactly one row for every combination of a
    warehouse and a destination that occur in the shipments, observed
    together or not, in the order of first occurrence. *)
Theorem route_table_is_the_cross_product (df : list shipment) :
  map (fun r => (from_warehouse r, to_customer r))
      (create_transportation_costs df)
  = all_combinations df /\
  NoDup (all_combinations df) /\
  List.length (create_transportation_costs df)
  = (List.length (unique String.eqb (map Origin_Warehouse df))
     * List.length (unique String.eqb (map Destination df)))%nat /\
  forall w c, In (w, c) (all_combinations df) <->
              In w (map Origin_Warehouse df) /\ In c (map Destination df).
Proof.
  split; [|split; [|split]].
  - unfold create_transportation_costs, merged_data. rewrite !map_map.
    simpl. rewrite <- (map_id (all_combinations df)) at 2.
    apply map_ext. intros wc.
    destruct (merge_row_keys df wc) as [-> ->]. now destruct wc.
  - apply OptimizeFacts.NoDup_pairs;
      apply OptimizeMore.unique_NoDup, String.eqb_eq.
  - unfold create_transportation_costs, merged_data. rewrite !length_map.
    apply OptimizeMore.pairs_length.
  - apply all_combinations_In.
Qed.

(** *** Group keys *)

Lemma insert_key_perm (k : string) (l : list string) :
  Permutation (insert_key k l) (k :: l).
Proof.
  induction l as [|x l IH]; simpl; [reflexivity|].
  destruct (String.leb k x); [reflexivity|].
  rewrite IH. apply perm_swap.
Qed.

Lemma sort_keys_perm (l : list string) : Permutation (sort_keys l) l.
Proof.
  induction l as [|x l IH]; simpl; [reflexivity|].
  rewrite insert_key_perm. now constructor.
Qed.

Lemma insert_key_in_order (k : string) (l : list string) :
  in_order l -> in_order (insert_key k l).
Proof.
  unfold in_order. induction 1 as [|x l Hs IH Hhd]; simpl.
  - repeat constructor.
  - destruct (String.leb k x) eqn:E.
    + constructor; [now constructor|]. now constructor.
    + constructor; [exact IH|].
      destruct (String.leb_total k x) as [H|H]; [congruence|].
      destruct Hhd as [|y l Hxy]; simpl.
      * now constructor.
      * destruct (String.leb k y); now constructor.
Qed.

Lemma sort_keys_in_order (l : list string) : in_order (sort_keys l).
Proof.
  induction l as [|x l IH]; simpl; [constructor|].
  now apply insert_key_in_order.
Qed.

Lemma group_keys_In (k : string) (l : list string) :
  In k (group_keys l) <-> In k l.
Proof.
  unfold group_keys. split; intros H.
  - apply (proj1 (OptimizeFacts.in_unique String.eqb String.eqb_eq k l)).
    exact (Permutation_in _ (sort_keys_perm _) H).
  - apply (Permutation_in _ (Permutation_sym (sort_keys_perm _))).
    exact (proj2 (OptimizeFacts.in_unique String.eqb String.eqb_eq k l) H).
Qed.

Lemma group_keys_NoDup (l : list string) : NoDup (group_keys l).
Proof.
  unfold group_keys.
  apply (Permutation_NoDup (Permutation_sym (sort_keys_perm _))).
  apply OptimizeMore.unique_NoDup, String.eqb_eq.
Qed.

Lemma group_keys_length (l : list string) :
  List.length (group_keys l) = List.length (unique String.eqb l).
Proof. apply Permutation_length, sort_keys_perm. Qed.

Lemma group_keys_nil (l : list string) : group_keys l = [] <-> l = [].
Proof.
  split; [|now intros ->].
  intros E. destruct l as [|x l]; [reflexivity|]. exfalso.
  assert (H : In x (group_keys (x :: l)))
    by (apply (proj2 (group_keys_In _ _)); now left).
  rewrite E in H. contradiction.
Qed.

(** *** Sums that skip missing values *)

Lemma fold_fadd_Fin (l : list Q) (a : Q) :
  fold_left fadd (map Fin l) (Fin a) = Fin (fold_left Qplus l a).
Proof.
  revert a. induction l as [|x l IH]; intros a; simpl; [reflexivity|].
  apply IH.
Qed.

Lemma fsum_Fin {A} (f : A -> Q) (l : list A) :
  fsum (map (fun x => Fin (f x)) l) = Fin (Qsum (map f l)).
Proof.
  unfold fsum, Qsum. rewrite <- (map_map f Fin). apply fold_fadd_Fin.
Qed.

Lemma filter_notna_finite (l : list fnum) :
  forallb finite_or_missing l = true ->
  filter notna l = map Fin (map or_zero (filter notna l)).
Proof.
  induction l as [|x l IH]; simpl; intros H; [reflexivity|].
  apply andb_true_iff in H. destruct H as [Hx Hl].
  destruct x; simpl in *; try discriminate; rewrite <- ?IH; auto.
Qed.

Lemma Qsum_or_zero_notna (l : list fnum) :
  Qsum (map or_zero (filter notna l)) == Qsum (map or_zero l).
Proof.
  induction l as [|x l IH]; simpl; [reflexivity|].
  destruct x; simpl; rewrite ?OptimizeFacts.Qsum_cons, IH; simpl; lra.
Qed.

Lemma nansum_finite (l : list fnum) :
  forallb finite_or_missing l = true ->
  nansum l = Fin (or_zero (nansum l)) /\
  or_zero (nansum l) == Qsum (map or_zero l).
Proof.
  intros H. unfold nansum. rewrite (filter_notna_finite l H).
  unfold fsum. rewrite fold_fadd_Fin. simpl. split; [reflexivity|].
  change (fold_left Qplus (map or_zero (filter notna l)) 0)
    with (Qsum (map or_zero (filter notna l))).
  apply Qsum_or_zero_notna.
Qed.

Lemma forallb_map_filter {A B} (p : B -> bool) (f : A -> B) (q : A -> bool)
    (l : list A) :
  forallb (fun x => p (f x)) l = true ->
  forallb p (map f (filter q l)) = true.
Proof.
  intros H. apply forallb_forall. intros y Hy.
  apply in_map_iff in Hy. destruct Hy as [x [<- Hx]].
  apply filter_In in Hx. destruct Hx as [Hx _].
  exact (proj1 (forallb_forall _ _) H x Hx).
Qed.

Lemma fdiv_Fin (a b : Q) :
  Qeq_bool b 0 = false -> fdiv (Fin a) (Fin b) = Fin (a / b).
Proof. intros H. unfold fdiv. now rewrite H. Qed.

(** The sum over the groups of a key is the sum over the table. *)
Lemma Qsum_by_group (key : shipment -> string) (f : shipment -> Q)
    (df : list shipment) :
  Qsum (map (fun k => Qsum (map f (filter (fun s => String.eqb (key s) k) df)))
            (group_keys (map key df)))
  == Qsum (map f df).
Proof.
  rewrite (OptimizeFacts.Qsum_map_eq _
             (fun k => Qsum (map (fun s => if String.eqb (key s) k
                                           then f s else 0) df))).
  2:{ intros k _. apply OptimizeFacts.Qsum_filter. }
  rewrite (OptimizeFacts.Qsum_swap
             (fun k s => if String.eqb (key s) k then f s else 0)).
  apply OptimizeFacts.Qsum_map_eq. intros s Hs.
  apply OptimizeMore.Qsum_pick_sym.
  - apply group_keys_NoDup.
  - apply group_keys_In. now apply in_map.
Qed.

(** *** The customer table *)

(** X16.  The customer table has one row per distinct destination of the
    shipments, in the order of the destination names. *)
Theorem customers_are_the_sorted_destinations
    (upper : string -> string) (df : list shipment) :
  let cities := map city (create_customer_demand upper df) in
  in_order cities /\ NoDup cities /\
  (forall d, In d cities <-> In d (map Destination df)) /\
  List.length (create_customer_demand upper df)
  = List.length (unique String.eqb (map Destination df)) /\
  forall r, In r (create_customer_demand upper df) ->
            customer_id r = customer_id_of upper (city r).
Proof.
  assert (E : map city (create_customer_demand upper df)
              = group_keys (map Destination df)).
  { unfold create_customer_demand. rewrite map_map. simpl. apply map_id. }
  cbv zeta. rewrite E. split; [|split; [|split; [|split]]].
  - apply sort_keys_in_order.
  - apply group_keys_NoDup.
  - intros d. apply group_keys_In.
  - unfold create_customer_demand. rewrite length_map.
    apply group_keys_length.
  - intros r Hr. unfold create_customer_demand in Hr.
    apply in_map_iff in Hr. destruct Hr as [d [<- _]]. reflexivity.
Qed.

Lemma customer_demand_value (upper : string -> string) (df : list shipment) :
  forallb (fun s => finite_or_missing (Weight_kg s)) df = true ->
  map monthly_demand_kg (create_customer_demand upper df)
  = map (fun d => Fin (or_zero
                         (nansum (map Weight_kg
                                    (filter (fun s => String.eqb
                                                        (Destination s) d)
                                            df))) / 12))
        (group_keys (map Destination df)).
Proof.
  intros H. unfold create_customer_demand. rewrite map_map. simpl.
  apply map_ext. intros d.
  destruct (nansum_finite
              (map Weight_kg
                 (filter (fun s => String.eqb (Destination s) d) df)))
    as [E _].
  { now apply forallb_map_filter. }
  rewrite E at 1. now apply fdiv_Fin.
Qed.

Lemma customer_demand_total (upper : string -> string) (df : list shipment) :
  forallb (fun s => finite_or_missing (Weight_kg s)) df = true ->
  exists total,
    fsum (map monthly_demand_kg (create_customer_demand upper df))
    = Fin total /\
    total == Qsum (map weight_or_zero df) / 12.
Proof.
  intros H. rewrite (customer_demand_value upper df H), fsum_Fin.
  eexists. split; [reflexivity|].
  rewrite <- (Qsum_by_group Destination weight_or_zero df).
  unfold Qdiv. rewrite Qmult_comm.
  rewrite <- OptimizeFacts.Qsum_map_scale.
  apply OptimizeFacts.Qsum_map_eq. intros d _.
  destruct (nansum_finite
              (map Weight_kg
                 (filter (fun s => String.eqb (Destination s) d) df)))
    as [_ E].
  { now apply forallb_map_filter. }
  rewrite E. unfold weight_or_zero. rewrite map_map. lra.
Qed.

(** X17.  Demand is conserved: when every weight is a number or missing,
    the monthly demand of each customer is one twelfth of the weight
    shipped to the city, and the demands of the customer table add up to
    one twelfth of the weight of all shipments, missing weights counting
    as zero. *)
Theorem customer_demand_conserves_weight
    (upper : string -> string) (df : list shipment) :
  forallb (fun s => finite_or_missing (Weight_kg s)) df = true ->
  (forall r, In r (create_customer_demand upper df) ->
     exists demand,
       monthly_demand_kg r = Fin demand /\
       demand == Qsum (map weight_or_zero
                         (filter (fun s => String.eqb (Destination s)
                                                      (city r)) df)) / 12) /\
  exists total,
    fsum (map monthly_demand_kg (create_customer_demand upper df))
    = Fin total /\
    total == Qsum (map weight_or_zero df) / 12.
Proof.
  intros H. split; [|now apply customer_demand_total].
  intros r Hr. unfold create_customer_demand in Hr.
  apply in_map_iff in Hr. destruct Hr as [d [<- _]].
  cbn [monthly_demand_kg city].
  destruct (nansum_finite
              (map Weight_kg
                 (filter (fun s => String.eqb (Destination s) d) df)))
    as [E1 E2].
  { now apply forallb_map_filter. }
  exists (or_zero
            (nansum (map Weight_kg
                       (filter (fun s => String.eqb (Destination s) d) df)))
          / 12).
  split.
  - rewrite E1 at 1. now apply fdiv_Fin.
  - rewrite E2. unfold weight_or_zero. rewrite map_map. reflexivity.
Qed.

Lemma customer_demand_conserves_weight_witness :
  exists total,
    fsum (map monthly_demand_kg
            (create_customer_demand (fun s => s)
               PrepareSamples.yearly_shipments))
    = Fin total /\
    total == Qsum (map weight_or_zero PrepareSamples.yearly_shipments) / 12.
Proof.
  apply (customer_demand_conserves_weight (fun s => s)
           PrepareSamples.yearly_shipments).
  reflexivity.
Defined.

(** *** Truncation *)

Lemma truncate_floor (q : Q) : 0 <= q -> truncate q = Qfloor q.
Proof.
  destruct q as [n d]. unfold Qle, truncate, Qfloor. simpl. intros H.
  apply Z.quot_div_nonneg; lia.
Qed.

Lemma truncate_bounds (q : Q) :
  0 <= q ->
  (0 <= truncate q)%Z /\
  inject_Z (truncate q) <= q /\ q < inject_Z (truncate q) + 1.
Proof.
  intros H. rewrite (truncate_floor q H). split; [|split].
  - change 0%Z with (Qfloor 0). now apply Qfloor_resp_le.
  - apply Qfloor_le.
  - generalize (Qlt_floor q). rewrite inject_Z_plus.
    change (inject_Z 1) with 1. auto.
Qed.

Lemma truncate_comp (q q' : Q) : 0 <= q -> q == q' -> truncate q = truncate q'.
Proof.
  intros H E. rewrite (truncate_floor q H), (truncate_floor q').
  - now apply Qfloor_comp.
  - now rewrite <- E.
Qed.

Lemma truncate_zero (q : Q) : 0 <= q -> (truncate q = 0%Z <-> q < 1).
Proof.
  intros H. destruct (truncate_bounds q H) as [H0 [Hle Hlt]]. split.
  - intros E. rewrite E in Hlt. change (inject_Z 0) with 0 in Hlt. lra.
  - intros H1.
    assert (Hz : (truncate q < 1)%Z).
    { apply Qlt_not_le in H1. destruct (Z_lt_le_dec (truncate q) 1) as [L|L];
        [exact L|].
      exfalso. apply H1. rewrite Zle_Qle in L. change (inject_Z 1) with 1 in L.
      lra. }
    lia.
Qed.

(** *** Comprehensions that may raise *)

Lemma collect_Value {A B} (f : A -> raising B) (g : A -> B) (l : list A) :
  (forall x, In x l -> f x = Value (g x)) -> collect f l = Value (map g l).
Proof.
  induction l as [|x l IH]; intros H; simpl; [reflexivity|].
  rewrite (H x (or_introl eq_refl)), IH; [reflexivity|].
  intros y Hy. apply H. now right.
Qed.

Lemma collect_ValueError {A B} (f : A -> raising B) (l : list A) :
  l <> [] -> (forall x, In x l -> f x = ValueError) ->
  collect f l = ValueError.
Proof.
  destruct l as [|x l]; [congruence|]. intros _ H. simpl.
  now rewrite (H x (or_introl eq_refl)).
Qed.

Lemma collect_map {A B C} (f : B -> raising C) (h : A -> B) (l : list A) :
  collect f (map h l) = collect (fun x => f (h x)) l.
Proof.
  induction l as [|x l IH]; simpl; [reflexivity|]. now rewrite IH.
Qed.

Lemma combine_rows (f g : string -> Z) (l : list string) :
  map (fun wcf => {| warehouse_id := fst (fst wcf);
                     monthly_capacity := snd (fst wcf);
                     fixed_cost := snd wcf |})
      (combine (combine l (map f l)) (map g l))
  = map (fun x => {| warehouse_id := x; monthly_capacity := f x;
                     fixed_cost := g x |}) l.
Proof. induction l as [|x l IH]; simpl; [reflexivity|]. now rewrite IH. Qed.

(** *** The warehouse table in closed form *)

Lemma int64_of_in_range (q : Q) :
  0 <= q -> q < 9223372036854775808 -> int64_of q = truncate q.
Proof.
  intros H0 H1. destruct (truncate_bounds q H0) as [Hz [Hle _]].
  assert (Hlt : (truncate q < 2 ^ 63)%Z).
  { rewrite Zlt_Qlt.
    change (inject_Z (2 ^ 63)) with (9223372036854775808 : Q).
    exact (Qle_lt_trans _ _ _ Hle H1). }
  unfold int64_of, INT64_MIN. cbv zeta.
  replace (- 2 ^ 63 <=? truncate q)%Z with true
    by (symmetry; apply Z.leb_le; lia).
  replace (truncate q <? 2 ^ 63)%Z with true
    by (symmetry; now apply Z.ltb_lt).
  reflexivity.
Qed.

Lemma unique_length_le (l : list string) :
  (List.length (unique String.eqb l) <= List.length l)%nat.
Proof.
  induction l as [|x l IH]; simpl; [lia|].
  pose proof (filter_length_le (fun y => negb (String.eqb x y))
                (unique String.eqb l)). lia.
Qed.

Lemma Zsum_zero {A} (f : A -> Z) (l : list A) :
  (forall x, In x l -> (0 <= f x)%Z) ->
  (fold_right Z.add 0%Z (map f l) = 0%Z <-> forall x, In x l -> f x = 0%Z).
Proof.
  induction l as [|y l IH]; intros Hpos; simpl; [tauto|].
  assert (Hy := Hpos y (or_introl eq_refl)).
  assert (Hl : forall x, In x l -> (0 <= f x)%Z)
    by (intros x Hx; apply Hpos; now right).
  assert (Hs : (0 <= fold_right Z.add 0 (map f l))%Z).
  { clear IH Hpos Hy. induction l as [|z l IHl]; simpl; [lia|].
    assert (Hz := Hl z (or_introl eq_refl)).
    assert (0 <= fold_right Z.add 0 (map f l))%Z
      by (apply IHl; intros x Hx; apply Hl; now right).
    lia. }
  specialize (IH Hl). split.
  - intros E x [<-|Hx]; [lia|]. apply IH; [lia|exact Hx].
  - intros H. rewrite (H y (or_introl eq_refl)).
    rewrite (proj2 IH); [reflexivity|]. intros x Hx. apply H. now right.
Qed.

Lemma Qsum_inject_Z (l : list Z) :
  Qsum (map inject_Z l) == inject_Z (fold_right Z.add 0%Z l).
Proof.
  induction l as [|x l IH]; simpl; [reflexivity|].
  rewrite OptimizeFacts.Qsum_cons, IH, inject_Z_plus. reflexivity.
Qed.

Lemma filter_notna_Fin {A} (f : A -> Q) (l : list A) :
  filter notna (map (fun x => Fin (f x)) l) = map (fun x => Fin (f x)) l.
Proof. induction l as [|x l IH]; simpl; [reflexivity|]. now rewrite IH. Qed.

Lemma nanmean_Fin {A} (f : A -> Q) (l : list A) :
  l <> [] ->
  nanmean (map (fun x => Fin (f x)) l)
  = Fin (Qsum (map f l) / inject_Z (Z.of_nat (List.length l))).
Proof.
  intros Hl. unfold nanmean. rewrite filter_notna_Fin.
  destruct l as [|x l]; [congruence|].
  change (fdiv (fsum (map (fun x0 => Fin (f x0)) (x :: l)))
            (Fin (inject_Z (Z.of_nat
               (List.length (map (fun x0 => Fin (f x0)) (x :: l))))))
          = Fin (Qsum (map f (x :: l))
                 / inject_Z (Z.of_nat (List.length (x :: l))))).
  rewrite fsum_Fin, length_map.
  apply fdiv_Fin.
  destruct (Qeq_bool (inject_Z (Z.of_nat (List.length (x :: l)))) 0) eqn:E;
    [|reflexivity].
  apply Qeq_bool_eq in E. exfalso. revert E. unfold Qeq. simpl. lia.
Qed.

(** With a mean capacity of 0 no fixed cost is a number. *)
Lemma not_a_number_cell (c m : Q) :
  m == 0 ->
  astype_int (fmul (Fin base_cost) (fdiv (Fin c) (Fin m))) = ValueError.
Proof.
  intros Hm. unfold fdiv.
  replace (Qeq_bool m 0) with true by (symmetry; now apply Qeq_bool_iff).
  unfold scale_inf. destruct (c ?= 0); reflexivity.
Qed.

Section Warehouses.

Variable df : list shipment.
Hypothesis weights :
  forallb (fun s => nonneg_or_missing (Weight_kg s)) df = true.
Hypothesis range :
  forall w, In w (map Origin_Warehouse df) -> shipped_from df w <= weight_limit.
Hypothesis rows : (Z.of_nat (List.length df) <= row_limit)%Z.

Lemma nonneg_finite (x : fnum) :
  nonneg_or_missing x = true -> finite_or_missing x = true.
Proof. destruct x; simpl; auto. Qed.

Lemma weights_finite :
  forallb (fun s => finite_or_missing (Weight_kg s)) df = true.
Proof.
  apply forallb_forall. intros s Hs. apply nonneg_finite.
  exact (proj1 (forallb_forall _ _) weights s Hs).
Qed.

Lemma weight_or_zero_nonneg (s : shipment) : In s df -> 0 <= weight_or_zero s.
Proof.
  intros Hs. generalize (proj1 (forallb_forall _ _) weights s Hs).
  unfold weight_or_zero. destruct (Weight_kg s); simpl; try lra.
  intros H. now apply Qle_bool_iff.
Qed.

Lemma shipped_from_nonneg (w : string) : 0 <= shipped_from df w.
Proof.
  unfold shipped_from. apply OptimizeFacts.Qsum_nonneg.
  apply Forall_forall. intros x Hx. apply in_map_iff in Hx.
  destruct Hx as [s [<- Hs]]. apply filter_In in Hs.
  apply weight_or_zero_nonneg. tauto.
Qed.

Lemma total_weight_value (w : string) :
  total_weight df w = Fin (or_zero (total_weight df w)) /\
  or_zero (total_weight df w) == shipped_from df w.
Proof.
  unfold total_weight, shipped_from.
  destruct (nansum_finite
              (map Weight_kg
                 (filter (fun s => String.eqb (Origin_Warehouse s) w) df)))
    as [E1 E2].
  { apply forallb_map_filter, weights_finite. }
  split; [exact E1|]. rewrite E2. unfold weight_or_zero.
  now rewrite map_map.
Qed.

Lemma scaled_weight_nonneg (w : string) :
  0 <= shipped_from df w / 12 * (125 # 100).
Proof.
  generalize (shipped_from_nonneg w). intros H.
  apply Qmult_le_0_compat; [|lra]. apply Qle_shift_div_l; lra.
Qed.

Lemma capacity_for_bounds (w : string) :
  (0 <= capacity_for df w)%Z /\
  inject_Z (capacity_for df w) <= shipped_from df w / 12 * (125 # 100) /\
  shipped_from df w / 12 * (125 # 100) < inject_Z (capacity_for df w) + 1.
Proof. apply truncate_bounds, scaled_weight_nonneg. Qed.

Lemma capacity_cell (w : string) :
  In w (map Origin_Warehouse df) ->
  astype_int (fmul (fdiv (total_weight df w) (Fin 12)) (Fin (125 # 100)))
  = Value (capacity_for df w).
Proof.
  intros Hw. destruct (total_weight_value w) as [E1 E2]. rewrite E1.
  rewrite fdiv_Fin by reflexivity. simpl. f_equal.
  assert (H0 : 0 <= or_zero (total_weight df w) / 12 * (125 # 100))
    by (rewrite E2; apply scaled_weight_nonneg).
  rewrite int64_of_in_range; [|exact H0|].
  - unfold capacity_for. apply truncate_comp; [exact H0|now rewrite E2].
  - rewrite E2. generalize (range w Hw) (shipped_from_nonneg w).
    unfold weight_limit, Qdiv. change (/ 12) with (1 # 12). intros; lra.
Qed.

(** The capacity column. *)
Lemma capacity_column :
  collect (fun w => astype_int
                      (fmul (fdiv (total_weight df w) (Fin 12))
                            (Fin (125 # 100))))
          (group_keys (map Origin_Warehouse df))
  = Value (map (capacity_for df) (group_keys (map Origin_Warehouse df))).
Proof.
  apply collect_Value. intros w Hw. apply capacity_cell.
  exact (proj1 (group_keys_In _ _) Hw).
Qed.

Lemma total_capacity_for_sum :
  inject_Z (total_capacity_for df)
  == Qsum (map (fun w => inject_Z (capacity_for df w))
            (group_keys (map Origin_Warehouse df))).
Proof.
  unfold total_capacity_for. rewrite <- Qsum_inject_Z, map_map. reflexivity.
Qed.

Lemma total_capacity_for_nonneg : (0 <= total_capacity_for df)%Z.
Proof.
  unfold total_capacity_for.
  induction (group_keys (map Origin_Warehouse df)) as [|w l IH]; simpl;
    [lia|].
  generalize (capacity_for_bounds w). lia.
Qed.

Lemma capacity_for_le_total (w : string) :
  In w (group_keys (map Origin_Warehouse df)) ->
  inject_Z (capacity_for df w) <= inject_Z (total_capacity_for df).
Proof.
  intros Hw. rewrite total_capacity_for_sum.
  apply (OptimizeFacts.Qsum_map_member
           (fun w => inject_Z (capacity_for df w))); [|exact Hw].
  intros y _. destruct (capacity_for_bounds y) as [H0 _].
  rewrite Zle_Qle in H0. exact H0.
Qed.

Lemma keys_nil : group_keys (map Origin_Warehouse df) = [] <-> df = [].
Proof.
  rewrite group_keys_nil. split.
  - apply map_eq_nil.
  - intros E. now rewrite E.
Qed.

Lemma keys_count :
  inject_Z (Z.of_nat (List.length (group_keys (map Origin_Warehouse df))))
  <= 1000000000.
Proof.
  change (1000000000 : Q) with (inject_Z row_limit). rewrite <- Zle_Qle.
  rewrite group_keys_length.
  pose proof (unique_length_le (map Origin_Warehouse df)) as H.
  rewrite length_map in H. lia.
Qed.

Lemma mean_capacity_pos :
  group_keys (map Origin_Warehouse df) <> [] ->
  total_capacity_for df <> 0%Z -> 0 < mean_capacity df.
Proof.
  intros Hk Ht. unfold mean_capacity.
  apply Qlt_shift_div_l.
  - change 0 with (inject_Z 0). rewrite <- Zlt_Qlt.
    destruct (group_keys (map Origin_Warehouse df)); [congruence|].
    simpl. lia.
  - rewrite Qmult_0_l. change 0 with (inject_Z 0). rewrite <- Zlt_Qlt.
    generalize total_capacity_for_nonneg. lia.
Qed.

Lemma mean_capacity_pos_inv :
  0 < mean_capacity df ->
  0 < inject_Z (Z.of_nat (List.length (group_keys (map Origin_Warehouse df))))
  /\ 0 < inject_Z (total_capacity_for df).
Proof.
  unfold mean_capacity. intros Hm.
  set (N := inject_Z (Z.of_nat
                        (List.length (group_keys (map Origin_Warehouse df)))))
    in *.
  set (T := inject_Z (total_capacity_for df)) in *.
  assert (HN0 : 0 <= N).
  { unfold N. change 0 with (inject_Z 0). rewrite <- Zle_Qle. lia. }
  assert (HT0 : 0 <= T).
  { unfold T. change 0 with (inject_Z 0). rewrite <- Zle_Qle.
    apply total_capacity_for_nonneg. }
  assert (HN : 0 < N).
  { destruct (Qlt_le_dec 0 N) as [H|H]; [exact H|]. exfalso.
    assert (E : N == 0) by lra.
    rewrite E in Hm. unfold Qdiv in Hm. change (/ 0) with 0 in Hm. lra. }
  split; [exact HN|].
  destruct (Qlt_le_dec 0 T) as [H|H]; [exact H|]. exfalso.
  assert (E : T == 0) by lra.
  rewrite E in Hm. unfold Qdiv in Hm. lra.
Qed.

Lemma scaled_cost_bounds (w : string) :
  In w (group_keys (map Origin_Warehouse df)) ->
  0 < mean_capacity df ->
  0 <= base_cost * (inject_Z (capacity_for df w) / mean_capacity df)
  /\ base_cost * (inject_Z (capacity_for df w) / mean_capacity df)
     <= 30000000000000.
Proof.
  intros Hw Hm. destruct (capacity_for_bounds w) as [H0 _].
  rewrite Zle_Qle in H0. change (inject_Z 0) with 0 in H0.
  pose proof (capacity_for_le_total w Hw) as Hle.
  destruct (mean_capacity_pos_inv Hm) as [HN HT].
  pose proof keys_count as Hcount.
  assert (E : inject_Z (capacity_for df w) / mean_capacity df
              == inject_Z (capacity_for df w)
                 * inject_Z (Z.of_nat
                     (List.length (group_keys (map Origin_Warehouse df))))
                 / inject_Z (total_capacity_for df)).
  { unfold mean_capacity. field. split; lra. }
  set (c := inject_Z (capacity_for df w)) in *.
  set (N := inject_Z (Z.of_nat
                        (List.length (group_keys (map Origin_Warehouse df)))))
    in *.
  set (T := inject_Z (total_capacity_for df)) in *.
  assert (Hr : 0 <= c * N / T /\ c * N / T <= N).
  { split.
    - apply Qle_shift_div_l; [exact HT|]. rewrite Qmult_0_l.
      apply Qmult_le_0_compat; lra.
    - apply Qle_shift_div_r; [exact HT|].
      rewrite (Qmult_comm N T). apply Qmult_le_compat_r; lra. }
  unfold base_cost. rewrite E. lra.
Qed.

Lemma fixed_cost_cell (w : string) (m : Q) :
  In w (group_keys (map Origin_Warehouse df)) ->
  m == mean_capacity df -> 0 < mean_capacity df ->
  astype_int (fmul (Fin base_cost)
                (fdiv (Fin (inject_Z (capacity_for df w))) (Fin m)))
  = Value (fixed_cost_for df w).
Proof.
  intros Hw Em Hpos.
  rewrite fdiv_Fin.
  2:{ destruct (Qeq_bool m 0) eqn:E; [|reflexivity].
      apply Qeq_bool_eq in E. rewrite Em in E. lra. }
  simpl. f_equal.
  destruct (scaled_cost_bounds w Hw Hpos) as [H0 H1].
  assert (E : base_cost * (inject_Z (capacity_for df w) / m)
              == base_cost * (inject_Z (capacity_for df w)
                              / mean_capacity df))
    by now rewrite Em.
  rewrite int64_of_in_range; [| rewrite E; exact H0 | rewrite E; lra].
  unfold fixed_cost_for. apply truncate_comp; [rewrite E; exact H0|exact E].
Qed.

(** The table cannot be built when there are rows and the capacities are
    all 0. *)
Lemma create_warehouse_data_fails :
  df <> [] -> total_capacity_for df = 0%Z ->
  create_warehouse_data df = ValueError.
Proof.
  intros Hdf Ht. unfold create_warehouse_data.
  rewrite capacity_column. cbv zeta.
  assert (Hk : group_keys (map Origin_Warehouse df) <> [])
    by (intros E; apply keys_nil in E; contradiction).
  rewrite map_map.
  rewrite (nanmean_Fin (fun w => inject_Z (capacity_for df w))
             (group_keys (map Origin_Warehouse df)) Hk).
  rewrite collect_map, collect_ValueError; [reflexivity|exact Hk|].
  intros w _. apply not_a_number_cell.
  rewrite <- total_capacity_for_sum, Ht. reflexivity.
Qed.

(** Otherwise it is built, with the two columns in closed form. *)
Lemma create_warehouse_data_succeeds :
  df = [] \/ total_capacity_for df <> 0%Z ->
  create_warehouse_data df
  = Value (map (fun w => {| warehouse_id := w;
                            monthly_capacity := capacity_for df w;
                            fixed_cost := fixed_cost_for df w |})
               (group_keys (map Origin_Warehouse df))).
Proof.
  intros H. unfold create_warehouse_data.
  rewrite capacity_column. cbv zeta.
  destruct (group_keys (map Origin_Warehouse df)) as [|k ks] eqn:Ek;
    [reflexivity|].
  rewrite <- Ek.
  assert (Hk : group_keys (map Origin_Warehouse df) <> [])
    by (rewrite Ek; discriminate).
  assert (Ht : total_capacity_for df <> 0%Z).
  { destruct H as [H|H]; [|exact H].
    apply keys_nil in H. contradiction. }
  rewrite map_map.
  rewrite (nanmean_Fin (fun w => inject_Z (capacity_for df w))
             (group_keys (map Origin_Warehouse df)) Hk).
  set (m := Qsum (map (fun w => inject_Z (capacity_for df w))
                   (group_keys (map Origin_Warehouse df)))
            / inject_Z (Z.of_nat
                          (List.length
                             (group_keys (map Origin_Warehouse df))))).
  assert (Em : m == mean_capacity df).
  { unfold m, mean_capacity. now rewrite <- total_capacity_for_sum. }
  rewrite collect_map.
  rewrite (collect_Value _ (fixed_cost_for df)
             (group_keys (map Origin_Warehouse df))).
  - now rewrite combine_rows.
  - intros w Hw. apply fixed_cost_cell; [exact Hw|exact Em|].
    now apply mean_capacity_pos.
Qed.

Lemma warehouse_rows (table : list warehouse_row) :
  create_warehouse_data df = Value table ->
  table = map (fun w => {| warehouse_id := w;
                           monthly_capacity := capacity_for df w;
                           fixed_cost := fixed_cost_for df w |})
              (group_keys (map Origin_Warehouse df)) /\
  (table <> [] -> 0 < mean_capacity df).
Proof.
  intros H.
  destruct (Z.eq_dec (total_capacity_for df) 0) as [Ht|Ht].
  - destruct (list_eq_dec string_dec
                (group_keys (map Origin_Warehouse df)) []) as [Ek|Ek].
    + rewrite create_warehouse_data_succeeds in H
        by (left; now apply keys_nil).
      injection H as <-. rewrite Ek. split; [reflexivity|].
      intros Hne. now elim Hne.
    + rewrite create_warehouse_data_fails in H;
        [discriminate| |exact Ht].
      intros E. apply Ek. now apply keys_nil.
  - rewrite create_warehouse_data_succeeds in H by (right; exact Ht).
    injection H as <-. split; [reflexivity|]. intros Hne.
    apply mean_capacity_pos; [|exact Ht].
    intros E. apply Hne. now rewrite E.
Qed.

(** Before truncation the fixed costs add up to the base cost times the
    number of warehouses. *)
Lemma scaled_costs_total :
  0 < mean_capacity df ->
  Qsum (map (fun w => base_cost * (inject_Z (capacity_for df w)
                                   / mean_capacity df))
            (group_keys (map Origin_Warehouse df)))
  == base_cost
     * inject_Z (Z.of_nat
                   (List.length (group_keys (map Origin_Warehouse df)))).
Proof.
  intros Hm. destruct (mean_capacity_pos_inv Hm) as [HN HT].
  rewrite (OptimizeFacts.Qsum_map_eq _
             (fun w => (base_cost / mean_capacity df)
                       * inject_Z (capacity_for df w))).
  2:{ intros w _. field. lra. }
  rewrite OptimizeFacts.Qsum_map_scale, <- total_capacity_for_sum.
  unfold mean_capacity in *. field. split; lra.
Qed.

End Warehouses.

Lemma truncate_mono (q q' : Q) :
  0 <= q -> q <= q' -> (truncate q <= truncate q')%Z.
Proof.
  intros H0 H. rewrite (truncate_floor q H0).
  rewrite (truncate_floor q') by lra.
  now apply Qfloor_resp_le.
Qed.

(** A table in which no warehouse shipped more than 9 kg is within the
    limit of weight. *)
Lemma light_within_limit (df : list shipment) :
  (forall w, In w (map Origin_Warehouse df) -> shipped_from df w <= 9) ->
  forall w, In w (map Origin_Warehouse df) -> shipped_from df w <= weight_limit.
Proof.
  intros H w Hw. specialize (H w Hw). unfold weight_limit. lra.
Qed.

(** *** The warehouse table *)

(** X18.  With weights that are not negative, the warehouse table cannot be
    built when there are shipments and no warehouse shipped more than 9 kg
    in all: the capacities are then all 0, their mean is 0, and no fixed
    cost is a number.  It is built as soon as one warehouse shipped 10 kg
    (for a table within the limits of size).  In exact arithmetic the two
    cases meet at 9.6 kg. *)
Theorem warehouse_table_needs_capacity (df : list shipment) :
  forallb (fun s => nonneg_or_missing (Weight_kg s)) df = true ->
  (df <> [] ->
   (forall w, In w (map Origin_Warehouse df) -> shipped_from df w <= 9) ->
   create_warehouse_data df = ValueError) /\
  ((forall w, In w (map Origin_Warehouse df) ->
              shipped_from df w <= weight_limit) ->
   (Z.of_nat (List.length df) <= row_limit)%Z ->
   (exists w, In w (map Origin_Warehouse df) /\ 10 <= shipped_from df w) ->
   exists table, create_warehouse_data df = Value table).
Proof.
  intros weights. split.
  - intros Hdf Hlight.
    apply (create_warehouse_data_fails df weights
             (light_within_limit df Hlight) Hdf).
    unfold total_capacity_for. apply Zsum_zero.
    + intros w _. now destruct (capacity_for_bounds df weights w).
    + intros w Hw. apply (proj1 (group_keys_In _ _)) in Hw.
      unfold capacity_for. apply truncate_zero.
      * apply (scaled_weight_nonneg df weights).
      * specialize (Hlight w Hw). unfold Qdiv. change (/ 12) with (1 # 12).
        lra.
  - intros range rows [w [Hw Hheavy]]. eexists.
    apply (create_warehouse_data_succeeds df weights range rows). right.
    intros Ht. unfold total_capacity_for in Ht.
    apply (proj2 (group_keys_In _ _)) in Hw.
    pose proof (proj1 (Zsum_zero (capacity_for df) _
                         (fun x _ => proj1 (capacity_for_bounds df weights x)))
                  Ht w Hw) as Hzero.
    destruct (capacity_for_bounds df weights w) as [_ [_ Hlt]].
    rewrite Hzero in Hlt. change (inject_Z 0) with 0 in Hlt.
    unfold Qdiv in Hlt. change (/ 12) with (1 # 12) in Hlt. lra.
Qed.

Lemma warehouse_table_needs_capacity_witness :
  create_warehouse_data PrepareSamples.small_shipments = ValueError /\
  exists table,
    create_warehouse_data PrepareSamples.yearly_shipments = Value table.
Proof.
  split.
  - apply (warehouse_table_needs_capacity PrepareSamples.small_shipments);
      [reflexivity|discriminate|].
    intros w [<-|[]]. vm_compute. discriminate.
  - apply (warehouse_table_needs_capacity PrepareSamples.yearly_shipments);
      [reflexivity| |vm_compute; discriminate|].
    + intros w [<-|[<-|[<-|[]]]]; vm_compute; discriminate.
    + exists "W2"%string. split; [now left|]. vm_compute. discriminate.
Defined.

(** X19.  When the warehouse table is built from weights that are not
    negative, for a table within the limits of size, it has one row per
    distinct origin, in the order of the names; each capacity is 1.25
    times the monthly weight shipped from the warehouse, rounded down, and
    no capacity or fixed cost is negative.  The capacity is stated up to
    one part in a thousand, which leaves room for the rounding of the
    floating-point operations. *)
Theorem warehouse_table_columns (df : list shipment)
    (table : list warehouse_row) :
  forallb (fun s => nonneg_or_missing (Weight_kg s)) df = true ->
  (forall w, In w (map Origin_Warehouse df) ->
             shipped_from df w <= weight_limit) ->
  (Z.of_nat (List.length df) <= row_limit)%Z ->
  create_warehouse_data df = Value table ->
  map warehouse_id table = group_keys (map Origin_Warehouse df) /\
  in_order (map warehouse_id table) /\ NoDup (map warehouse_id table) /\
  forall r, In r table ->
    In (warehouse_id r) (map Origin_Warehouse df) /\
    (0 <= monthly_capacity r)%Z /\
    (999 # 1000) * (shipped_from df (warehouse_id r) / 12 * (125 # 100)) - 1
    <= inject_Z (monthly_capacity r) /\
    inject_Z (monthly_capacity r)
    <= (1001 # 1000) * (shipped_from df (warehouse_id r) / 12 * (125 # 100))
    /\
    (0 <= fixed_cost r)%Z.
Proof.
  intros weights range rows Htable.
  destruct (warehouse_rows df weights range rows table Htable)
    as [Etable Hmean].
  assert (Hids : map warehouse_id table
                 = group_keys (map Origin_Warehouse df)).
  { rewrite Etable, map_map. simpl. apply map_id. }
  rewrite Hids. split; [reflexivity|]. split; [|split].
  - apply sort_keys_in_order.
  - apply group_keys_NoDup.
  - intros r Hr.
    assert (Hm : 0 < mean_capacity df).
    { apply Hmean. intros E. rewrite E in Hr. contradiction. }
    rewrite Etable in Hr. apply in_map_iff in Hr.
    destruct Hr as [w [<- Hw]]. simpl.
    destruct (capacity_for_bounds df weights w) as [H0 [H1 H2]].
    pose proof (scaled_weight_nonneg df weights w) as Hx.
    split; [now apply (proj1 (group_keys_In _ _))|].
    split; [exact H0|]. split; [lra|]. split; [lra|].
    unfold fixed_cost_for.
    apply truncate_bounds.
    now apply (scaled_cost_bounds df weights rows w Hw).
Qed.

Lemma warehouse_table_columns_witness :
  map warehouse_id PrepareSamples.yearly_warehouses
  = group_keys (map Origin_Warehouse PrepareSamples.yearly_shipments).
Proof.
  apply (warehouse_table_columns PrepareSamples.yearly_shipments
           PrepareSamples.yearly_warehouses).
  - reflexivity.
  - intros w [<-|[<-|[<-|[]]]]; vm_compute; discriminate.
  - vm_compute. discriminate.
  - reflexivity.
Defined.

(** X20.  For a table within the limits of size and weights that are not
    negative, the fixed costs of the warehouse table average the base cost
    of 30000, up to the truncation of each of them, and a warehouse with no
    more capacity than another has no higher fixed cost. *)
Theorem fixed_costs_average_the_base_cost (df : list shipment)
    (table : list warehouse_row) :
  forallb (fun s => nonneg_or_missing (Weight_kg s)) df = true ->
  (forall w, In w (map Origin_Warehouse df) ->
             shipped_from df w <= weight_limit) ->
  (Z.of_nat (List.length df) <= row_limit)%Z ->
  create_warehouse_data df = Value table ->
  let n := inject_Z (Z.of_nat (List.length table)) in
  let total := inject_Z (fold_right Z.add 0%Z (map fixed_cost table)) in
  (base_cost * n - n <= total /\ total <= base_cost * n) /\
  forall r r', In r table -> In r' table ->
    (monthly_capacity r <= monthly_capacity r')%Z ->
    (fixed_cost r <= fixed_cost r')%Z.
Proof.
  intros weights range rows Htable.
  destruct (warehouse_rows df weights range rows table Htable)
    as [Etable Hmean].
  cbv zeta. split.
  - destruct (list_eq_dec string_dec
                (group_keys (map Origin_Warehouse df)) []) as [E|E].
    { rewrite Etable, E. simpl. change (inject_Z 0) with 0. lra. }
    assert (Hm : 0 < mean_capacity df).
    { apply Hmean. rewrite Etable. intros H. apply map_eq_nil in H.
      contradiction. }
    rewrite Etable, !map_map, length_map. simpl.
    rewrite <- Qsum_inject_Z, map_map.
    rewrite <- (scaled_costs_total df weights Hm).
    split.
    + pose (F := fun w => base_cost * (inject_Z (capacity_for df w)
                                       / mean_capacity df)).
      pose (G := fun _ : string => - (1)).
      assert (H : Qsum (map (fun w => F w + G w)
                          (group_keys (map Origin_Warehouse df)))
                  <= Qsum (map (fun w => inject_Z (fixed_cost_for df w))
                             (group_keys (map Origin_Warehouse df)))).
      { apply OptimizeFacts.Qsum_map_le. intros w Hw. unfold F, G.
        destruct (truncate_bounds (F w)) as [_ [_ H2]].
        - now apply (scaled_cost_bounds df weights rows w Hw).
        - unfold fixed_cost_for. fold (F w). lra. }
      rewrite (OptimizeFacts.Qsum_map_plus F G) in H. unfold G in H.
      rewrite OptimizeFacts.Qsum_map_const in H. unfold F in H. lra.
    + apply OptimizeFacts.Qsum_map_le. intros w Hw.
      apply truncate_bounds.
      now apply (scaled_cost_bounds df weights rows w Hw).
  - intros r r' Hr Hr'. rewrite Etable in Hr, Hr'.
    assert (Hm : 0 < mean_capacity df).
    { apply Hmean. intros E. rewrite <- Etable, E in Hr. contradiction. }
    apply in_map_iff in Hr, Hr'.
    destruct Hr as [w [<- Hw]]. destruct Hr' as [w' [<- _]]. simpl.
    intros Hc. unfold fixed_cost_for. apply truncate_mono.
    + now apply (scaled_cost_bounds df weights rows w Hw).
    + rewrite Zle_Qle in Hc. unfold base_cost.
      apply Qmult_le_l; [reflexivity|].
      apply Qmult_le_r; [now apply Qinv_lt_0_compat|exact Hc].
Qed.

Lemma fixed_costs_average_the_base_cost_witness :
  let n := inject_Z (Z.of_nat
                       (List.length PrepareSamples.yearly_warehouses)) in
  let total :=
    inject_Z (fold_right Z.add 0%Z
                (map fixed_cost PrepareSamples.yearly_warehouses)) in
  (base_cost * n - n <= total /\ total <= base_cost * n) /\
  forall r r', In r PrepareSamples.yearly_warehouses ->
    In r' PrepareSamples.yearly_warehouses ->
    (monthly_capacity r <= monthly_capacity r')%Z ->
    (fixed_cost r <= fixed_cost r')%Z.
Proof.
  apply (fixed_costs_average_the_base_cost PrepareSamples.yearly_shipments
           PrepareSamples.yearly_warehouses).
  - reflexivity.
  - intros w [<-|[<-|[<-|[]]]]; vm_compute; discriminate.
  - vm_compute. discriminate.
  - reflexivity.
Defined.

(** X21.  When the weights are not negative and the shipments weigh at
    least 50 kg per warehouse in all (for a table within the limits of
    size), the warehouse table is built and its capacities together cover
    the monthly demand of the customer table. *)
Theorem capacity_covers_demand (upper : string -> string)
    (df : list shipment) :
  forallb (fun s => nonneg_or_missing (Weight_kg s)) df = true ->
  (forall w, In w (map Origin_Warehouse df) ->
             shipped_from df w <= weight_limit) ->
  (Z.of_nat (List.length df) <= row_limit)%Z ->
  50 * inject_Z (Z.of_nat
                   (List.length (group_keys (map Origin_Warehouse df))))
  <= Qsum (map weight_or_zero df) ->
  exists table demand,
    create_warehouse_data df = Value table /\
    fsum (map monthly_demand_kg (create_customer_demand upper df))
    = Fin demand /\
    demand <= inject_Z (fold_right Z.add 0%Z (map monthly_capacity table)).
Proof.
  intros weights range rows Hweight.
  destruct (customer_demand_total upper df (weights_finite df weights))
    as [demand [Edemand Hdemand]].
  set (N := inject_Z (Z.of_nat
                        (List.length
                           (group_keys (map Origin_Warehouse df))))) in *.
  assert (HN0 : 0 <= N).
  { unfold N. change 0 with (inject_Z 0). rewrite <- Zle_Qle. lia. }
  assert (Hcap : (125 # 100) * (Qsum (map weight_or_zero df) / 12) - N
                 <= inject_Z (total_capacity_for df)).
  { rewrite (total_capacity_for_sum df).
    pose (F := fun w => (125 # 100) * (shipped_from df w / 12)).
    pose (G := fun _ : string => - (1)).
    assert (H : Qsum (map (fun w => F w + G w)
                        (group_keys (map Origin_Warehouse df)))
                <= Qsum (map (fun w => inject_Z (capacity_for df w))
                           (group_keys (map Origin_Warehouse df)))).
    { apply OptimizeFacts.Qsum_map_le. intros w _. unfold F, G.
      destruct (capacity_for_bounds df weights w) as [_ [_ H2]]. lra. }
    rewrite (OptimizeFacts.Qsum_map_plus F G) in H. unfold G in H.
    rewrite OptimizeFacts.Qsum_map_const in H. unfold F in H.
    rewrite (OptimizeFacts.Qsum_map_eq _
               (fun w => ((125 # 100) / 12) * shipped_from df w)) in H
      by (intros w _; field).
    rewrite OptimizeFacts.Qsum_map_scale in H.
    unfold shipped_from in H.
    rewrite (Qsum_by_group Origin_Warehouse weight_or_zero df) in H.
    fold N in H. unfold Qdiv in *. change (/ 12) with (1 # 12) in *. lra. }
  assert (Hcover : demand <= inject_Z (total_capacity_for df)).
  { rewrite Hdemand. unfold Qdiv in *. change (/ 12) with (1 # 12) in *.
    lra. }
  exists (map (fun w => {| warehouse_id := w;
                           monthly_capacity := capacity_for df w;
                           fixed_cost := fixed_cost_for df w |})
            (group_keys (map Origin_Warehouse df))), demand.
  split; [|split; [exact Edemand|]].
  - apply (create_warehouse_data_succeeds df weights range rows).
    destruct (list_eq_dec string_dec
                (group_keys (map Origin_Warehouse df)) []) as [Ek|Ek];
      [left; now apply keys_nil|]. right.
    intros Ht. rewrite Ht in Hcap. change (inject_Z 0) with 0 in Hcap.
    assert (HN : 1 <= N).
    { unfold N. change 1 with (inject_Z 1). rewrite <- Zle_Qle.
      destruct (group_keys (map Origin_Warehouse df)) as [|k ks];
        [congruence|]. simpl. lia. }
    unfold Qdiv in *. change (/ 12) with (1 # 12) in *. lra.
  - rewrite !map_map. simpl. exact Hcover.
Qed.

Lemma capacity_covers_demand_witness :
  exists table demand,
    create_warehouse_data PrepareSamples.yearly_shipments = Value table /\
    fsum (map monthly_demand_kg
            (create_customer_demand (fun s => s)
               PrepareSamples.yearly_shipments))
    = Fin demand /\
    demand <= inject_Z (fold_right Z.add 0%Z (map monthly_capacity table)).
Proof.
  apply (capacity_covers_demand (fun s => s)
           PrepareSamples.yearly_shipments).
  - reflexivity.
  - intros w [<-|[<-|[<-|[]]]]; vm_compute; discriminate.
  - vm_compute. discriminate.
  - vm_compute. discriminate.
Defined.

(** *** The three tables together *)

Lemma warehouse_ids_are_origins (df : list shipment)
    (rows : list warehouse_row) (r : warehouse_row) :
  create_warehouse_data df = Value rows -> In r rows ->
  In (warehouse_id r) (map Origin_Warehouse df).
Proof.
  unfold create_warehouse_data.
  destruct (collect _ _) as [capacities|]; [|discriminate].
  cbv zeta. destruct (collect _ capacities) as [fixed_costs|];
    [|discriminate].
  intros H Hr. injection H as <-. apply in_map_iff in Hr.
  destruct Hr as [[[w c] f] [<- Hin]]. simpl.
  apply in_combine_l, in_combine_l in Hin.
  exact (proj1 (group_keys_In _ _) Hin).
Qed.

(** X22.  The three tables agree on their keys: for every warehouse of the
    warehouse table and every customer of the customer table, the route
    table has a row. *)
Theorem every_table_pair_has_a_route (upper : string -> string)
    (df : list shipment) (warehouses_df : list warehouse_row)
    (w : warehouse_row) (c : customer_row) :
  create_warehouse_data df = Value warehouses_df ->
  In w warehouses_df ->
  In c (create_customer_demand upper df) ->
  exists t, In t (transport_table upper df) /\
            t_from_warehouse t = warehouse_id w /\
            t_to_customer_id t = customer_id c.
Proof.
  intros Hrows Hw Hc.
  apply (warehouse_ids_are_origins df warehouses_df w Hrows) in Hw.
  unfold create_customer_demand in Hc. apply in_map_iff in Hc.
  destruct Hc as [d [<- Hd]]. simpl.
  apply (proj1 (group_keys_In _ _)) in Hd.
  assert (Hpair : In (warehouse_id w, d) (all_combinations df))
    by (apply all_combinations_In; now split).
  destruct (merge_row_keys df (warehouse_id w, d))
    as [E1 E2].
  eexists. split.
  - unfold transport_table. apply in_map.
    unfold create_transportation_costs. apply in_map.
    unfold merged_data. apply in_map. exact Hpair.
  - cbn [t_from_warehouse t_to_customer_id from_warehouse to_customer].
    rewrite E1, E2. now split.
Qed.

Lemma every_table_pair_has_a_route_witness :
  exists t, In t (transport_table (fun s => s)
                    PrepareSamples.yearly_shipments) /\
            t_from_warehouse t = "W2"%string /\
            t_to_customer_id t = "CUST_Boston"%string.
Proof.
  apply (every_table_pair_has_a_route (fun s => s)
           PrepareSamples.yearly_shipments PrepareSamples.yearly_warehouses
           {| warehouse_id := "W2"; monthly_capacity := 12;
              fixed_cost := 40000 |}
           {| customer_id := "CUST_Boston"; city := "Boston";
              region := "Northeast";
              monthly_demand_kg := Fin (60 # 12) |}).
  - reflexivity.
  - right. left. reflexivity.
  - left. reflexivity.
Defined.

(** *** The transformation run *)

(** X23.  A raw file in which no row has both a delivery date and a cost
    is not an error: the run writes three empty tables, without a
    warning. *)
Theorem unusable_rows_give_empty_tables (upper : string -> string)
    (rows : list raw_row) (written : list data_file) :
  (forall r, In r rows ->
             Delivery_Date r = None \/ Cost (columns r) = NaN) ->
  main upper (Some rows) written
  = (Value (Some ([], [], [])), [],
     written ++ [ optimization_customers_csv [];
                  optimization_warehouses_csv [];
                  optimization_transport_costs_csv [] ]).
Proof.
  intros H. unfold main, load_and_clean_data.
  rewrite OptimizeFacts.filter_none; [reflexivity|].
  intros r Hr. destruct (H r Hr) as [E|E]; rewrite E; [reflexivity|].
  now destruct (Delivery_Date r).
Qed.

Lemma unusable_rows_give_empty_tables_witness :
  main (fun s => s) (Some PrepareSamples.unusable_file) []
  = (Value (Some ([], [], [])), [],
     [ optimization_customers_csv [];
       optimization_warehouses_csv [];
       optimization_transport_costs_csv [] ]).
Proof.
  apply (unusable_rows_give_empty_tables (fun s => s)
           PrepareSamples.unusable_file []).
  intros r [<-|[<-|[]]]; [left|right]; reflexivity.
Defined.

End TransformMore.
